(** * Sim.py: bank queue simulation (SimPy), shallow embedding

    The program compares two service disciplines for a bank with six
    tellers: one shared queue ("cola_unica") and one queue per teller
    ("colas_separadas").  It is written against the SimPy discrete-event
    library and Python's [random] module.

    Modelling choices.
    - Python floats that carry times (clock, delays, waits, means) are
      modelled by their exact rational value [Q].  The running sum of
      [generar_tipo_transaccion] is the one place where the program's
      result depends on rounding; it is modelled in IEEE 754 binary64
      (round to nearest, ties to even) with the Standard Library's
      [SpecFloat].
    - The [random] module is an oracle ([Azar]): a generator state together
      with the two draws the program uses, [random.random()] and
      [random.expovariate(lambd)].  The program is a function of the oracle
      state, which is threaded explicitly where Python mutates the module's
      hidden generator.
    - SimPy is an imported library.  Its [Environment] (event heap keyed by
      (time, priority, event id)), [Process], [Timeout] and [Resource]
      are modelled operationally after the library: every event that SimPy
      pushes on its heap is an [Entrada] of the model, and the callbacks
      attached to an event are represented by the constructor of [Evento]
      (the suspended generator together with its local variables).
    - [env.run] loops until the [until] event fires; the loop is modelled
      with fuel, one unit per [Environment.step]. *)

From Stdlib Require Import String QArith Qminmax ZArith List Bool Lia Lqa PeanoNat.
From Stdlib Require Import Sorted SpecFloat.
Import ListNotations.
Open Scope Q_scope.

(** ** Model parameters (Sim.py, lines 16-27) *)

Definition LAMBDA_HORA : Q := 180.
Definition LAMBDA : Q := LAMBDA_HORA / 3600.0.
Definition NUM_CAJEROS : nat := 6.
Definition TIEMPO_SIMULACION : Q := 8 * 60 * 60.

Definition TRANSACCIONES : list (Q * Q) :=
  [ (0.15, 45.0); (0.29, 75.0); (0.32, 120.0); (0.24, 180.0) ].

(** ** The [random] module *)

Record Azar : Type := mkAzar {
  estado : Type;
  seed : Z -> estado;                        (* random.seed(n) *)
  random : estado -> Q * estado;             (* random.random() *)
  expovariate : Q -> estado -> Q * estado    (* random.expovariate(lambd) *)
}.

(** An oracle that replays a tape of draws; once the tape is exhausted
    [random()] answers 0 and [expovariate] answers [defecto]. *)
Definition AzarCinta (cinta : list Q) (defecto : Q) : Azar :=
  {| estado := list Q;
     seed := fun _ => cinta;
     random := fun g => match g with [] => (0, []) | x :: g' => (x, g') end;
     expovariate := fun _ g =>
       match g with [] => (defecto, []) | x :: g' => (x, g') end |}.

(** ** Outcomes of a Python call *)

Inductive Resultado (T : Type) : Type :=
| Fin (x : T)          (* the call returns x *)
| Excepcion            (* the call raises *)
| SinCombustible.      (* the model ran out of fuel *)
Arguments Fin {T} x.
Arguments Excepcion {T}.
Arguments SinCombustible {T}.

(** ** Binary64 arithmetic

    Python's [float] is IEEE 754 binary64: 53 bits of precision, largest
    exponent 1024, round to nearest with ties to even. *)

Definition prec64 : Z := 53.
Definition emax64 : Z := 1024.

(** The float [+0.0]. *)
Definition cero64 : spec_float := S754_zero false.

(** [x + y] on floats. *)
Definition suma64 (x y : spec_float) : spec_float := SFadd prec64 emax64 x y.

Definition entero64 (z : Z) : spec_float :=
  match z with
  | Z0 => S754_zero false
  | Zpos p => S754_finite false p 0
  | Zneg p => S754_finite true p 0
  end.

(** The float that a decimal literal denotes: the rational it spells,
    rounded to the nearest binary64 (the correctly rounded quotient of
    its numerator by its denominator). *)
Definition flotante (x : Q) : spec_float :=
  SFdiv prec64 emax64 (entero64 (Qnum x)) (S754_finite false (Qden x) 0).

(** The exact value of a finite float. *)
Definition valor (f : spec_float) : Q :=
  match f with
  | S754_finite s m e => inject_Z (if s then Zneg m else Zpos m) * 2 ^ e
  | _ => 0
  end.

(** [r <= f] for a finite number [r] and a float [f]: comparison of the
    exact values; every number is below [+inf], none is below [-inf] and
    a comparison with NaN is false. *)
Definition Qle_flotante (r : Q) (f : spec_float) : bool :=
  match f with
  | S754_nan => false
  | S754_infinity s => negb s
  | _ => Qle_bool r (valor f)
  end.

(** ** Auxiliary functions (Sim.py, lines 33-50) *)

(** The [for] loop of [generar_tipo_transaccion]: [acum] is the running
    sum, a float; [i] the index produced by [enumerate].  The table holds
    the literals of the source, each read as the float it denotes; [r] is
    the value of the float drawn by [random.random()]. *)
Fixpoint recorrer (tabla : list (Q * Q)) (r : Q) (acum : spec_float) (i : Z)
  : option Z :=
  match tabla with
  | [] => None
  | (p, _) :: resto =>
      let acum := suma64 acum (flotante p) in
      if Qle_flotante r acum then Some i else recorrer resto r acum (i + 1)%Z
  end.

(** [generar_tipo_transaccion] on a given table and a given draw [r];
    [acum = 0] and [0 + x] is [x] on floats. *)
Definition tipo_transaccion (tabla : list (Q * Q)) (r : Q) : Z :=
  match recorrer tabla r cero64 0%Z with
  | Some i => i
  | None => (Z.of_nat (length tabla) - 1)%Z
  end.

(** Python's [tabla[i]] for an integer index (negative indices count from
    the end, anything out of range raises IndexError). *)
Definition indexar {T : Type} (l : list T) (i : Z) : option T :=
  if (0 <=? i)%Z then nth_error l (Z.to_nat i)
  else if (- Z.of_nat (length l) <=? i)%Z
       then nth_error l (Z.to_nat (Z.of_nat (length l) + i))
       else None.

Section Generadores.
Context {A : Azar}.

Definition generar_tipo_transaccion (g : estado A) : Z * estado A :=
  let (r, g') := random A g in (tipo_transaccion TRANSACCIONES r, g').

(** [None] stands for the IndexError of [TRANSACCIONES[tipo]] or the
    ZeroDivisionError of [1 / media]. *)
Definition generar_tiempo_servicio (tipo : Z) (g : estado A)
  : option (Q * estado A) :=
  match indexar TRANSACCIONES tipo with
  | None => None
  | Some (_, media) =>
      if Qeq_bool media 0 then None else Some (expovariate A (1 / media) g)
  end.

Definition generar_tiempo_llegada (g : estado A) : Q * estado A :=
  expovariate A LAMBDA g.

End Generadores.

(** ** SimPy: events, heap, resources *)

(** Kinds of customer process. *)
Inductive Disciplina : Type := Unica | Separadas.

(** A pending [Request]: the customer suspended at [yield req], with its
    local variables. *)
Record Peticion : Type := mkPeticion {
  nombre : nat;      (* the i of f"Cliente {i}" *)
  llegada : Q;
  tipo : Z
}.

(** The events that reach SimPy's heap, named after what their callbacks
    do when the event is processed. *)
Inductive Evento : Type :=
| Hasta                                  (* the until-event of env.run: StopSimulation *)
| InitGenerador (modo : string)          (* Initialize of generador_clientes *)
| TimeoutGenerador (modo : string) (i : nat)   (* generator suspended at line 89 *)
| InitCliente (d : Disciplina) (n : nat) (* Initialize of a customer process *)
| Request (k : nat) (p : Peticion)       (* granted request: the customer resumes at line 62/77 *)
| TimeoutServicio (k : nat) (n : nat)    (* service hold of customer n at teller k *)
| Release (k : nat)                      (* Release event: callback _trigger_put *)
| ProcesoFin                             (* a Process that returned: no callbacks *)
| ProcesoFallo.                          (* a Process that raised: step re-raises *)

Definition URGENT : nat := 0.
Definition NORMAL : nat := 1.

(** A heap item [(time, priority, eid, event)]. *)
Record Entrada : Type := mkEntrada {
  tiempo : Q;
  prioridad : nat;
  id_evento : nat;
  evento : Evento
}.

(** Python's tuple order on heap items (the event itself is never reached,
    because event ids are distinct). *)
Definition antes (a b : Entrada) : bool :=
  match tiempo a ?= tiempo b with
  | Lt => true
  | Gt => false
  | Eq =>
      if (prioridad a <? prioridad b)%nat then true
      else if (prioridad a =? prioridad b)%nat
           then (id_evento a <? id_evento b)%nat
           else false
  end.

(** [heapq.heappush]: the heap is kept as the list of its items in pop
    order. *)
Fixpoint heappush (x : Entrada) (q : list Entrada) : list Entrada :=
  match q with
  | [] => [x]
  | y :: q' => if antes x y then x :: y :: q' else y :: heappush x q'
  end.

(** [simpy.Resource]: [users] holds the granted requests (by customer
    number), [queue] the pending ones in arrival order. *)
Record Resource : Type := mkResource {
  capacity : nat;
  users : list nat;
  queue : list Peticion
}.

(** [list.remove(x)] with the ValueError swallowed, as [Resource._do_get]
    does. *)
Fixpoint quitar (n : nat) (l : list nat) : list nat :=
  match l with
  | [] => []
  | x :: l' => if (x =? n)%nat then l' else x :: quitar n l'
  end.

(** Store update at a reference [k]. *)
Fixpoint reemplazar {T : Type} (k : nat) (x : T) (l : list T) : list T :=
  match l, k with
  | [], _ => []
  | _ :: l', O => x :: l'
  | y :: l', S k' => y :: reemplazar k' x l'
  end.

(** [min(cajeros, key=lambda r: len(r.queue))], as an index into
    [cajeros]: the scan keeps the first minimum. *)
Fixpoint min_desde (rs : list Resource) (i mejor largo : nat) : nat :=
  match rs with
  | [] => mejor
  | r :: rs' =>
      if (length (queue r) <? largo)%nat
      then min_desde rs' (S i) i (length (queue r))
      else min_desde rs' (S i) mejor largo
  end.

Definition min_por_cola (rs : list Resource) : option nat :=
  match rs with
  | [] => None      (* ValueError: min() of an empty sequence *)
  | r :: rs' => Some (min_desde rs' 1 0 (length (queue r)))
  end.

(** ** Summary statistics (Sim.py, lines 113-123) *)

Record Resumen : Type := mkResumen {
  modo_ : string;
  clientes : nat;
  espera_promedio : Q;
  espera_maxima : Q
}.

Definition np_mean (l : list Q) : Q :=
  fold_left Qplus l 0 / inject_Z (Z.of_nat (length l)).

Definition promedio (tiempos_espera : list Q) : Q :=
  match tiempos_espera with [] => 0 | _ :: _ => np_mean tiempos_espera end.

Definition maximo (tiempos_espera : list Q) : Q :=
  match tiempos_espera with [] => 0 | x :: l => fold_left Qmax l x end.

Definition estadisticas (modo : string) (tiempos_espera : list Q) : Resumen :=
  {| modo_ := modo;
     clientes := length tiempos_espera;
     espera_promedio := promedio tiempos_espera;
     espera_maxima := maximo tiempos_espera |}.

(** ** The simulation state *)

Section Simulacion.
Context {A : Azar}.

(** Everything the run mutates: the Environment ([now], heap, event-id
    counter), the Resource objects, the list [tiempos_espera] and the
    state of the [random] module.  [cajeros] is the store of Resource
    objects: the single Resource of the shared-queue topology is
    reference 0, the list of the other topology is references 0..5. *)
Record Mundo : Type := mkMundo {
  now : Q;
  cola : list Entrada;             (* Environment._queue *)
  eid : nat;                       (* Environment._eid *)
  cajeros : list Resource;
  tiempos_espera : list Q;
  azar : estado A
}.

Definition con_cajeros (rs : list Resource) (m : Mundo) : Mundo :=
  mkMundo (now m) (cola m) (eid m) rs (tiempos_espera m) (azar m).

Definition con_azar (g : estado A) (m : Mundo) : Mundo :=
  mkMundo (now m) (cola m) (eid m) (cajeros m) (tiempos_espera m) g.

Definition anotar (espera : Q) (m : Mundo) : Mundo :=
  mkMundo (now m) (cola m) (eid m) (cajeros m)
          (tiempos_espera m ++ [espera]) (azar m).

(** [Environment.schedule(event, priority, delay)]. *)
Definition schedule (ev : Evento) (prio : nat) (delay : Q) (m : Mundo) : Mundo :=
  mkMundo (now m)
          (heappush (mkEntrada (now m + delay) prio (eid m) ev) (cola m))
          (S (eid m)) (cajeros m) (tiempos_espera m) (azar m).

(** [env.process(gen)]: the Initialize event is URGENT, without delay. *)
Definition process (ev : Evento) (m : Mundo) : Mundo := schedule ev URGENT 0 m.

(** [env.timeout(delay)]: a negative delay raises ValueError. *)
Definition timeout (ev : Evento) (delay : Q) (m : Mundo) : option Mundo :=
  if Qle_bool 0 delay then Some (schedule ev NORMAL delay m) else None.

(** A generator that returns, respectively raises: [Process._resume]
    schedules the process event itself. *)
Definition proceso_termina (m : Mundo) : Mundo := schedule ProcesoFin NORMAL 0 m.
Definition proceso_falla (m : Mundo) : Mundo := schedule ProcesoFallo NORMAL 0 m.

(** [BaseResource._trigger_put] with [Resource._do_put]: only the head of
    the queue is examined; it is granted when a slot is free. *)
Definition trigger_put (k : nat) (m : Mundo) : Mundo :=
  match nth_error (cajeros m) k with
  | None => m
  | Some r =>
      match queue r with
      | [] => m
      | p :: resto =>
          if (length (users r) <? capacity r)%nat
          then schedule (Request k p) NORMAL 0
                 (con_cajeros
                    (reemplazar k (mkResource (capacity r) (users r ++ [nombre p]) resto)
                                (cajeros m)) m)
          else m
      end
  end.

(** [resource.request()]: the new request joins the queue, then
    [_trigger_put] runs. *)
Definition request (k : nat) (p : Peticion) (m : Mundo) : Mundo :=
  match nth_error (cajeros m) k with
  | None => m
  | Some r =>
      trigger_put k
        (con_cajeros
           (reemplazar k (mkResource (capacity r) (users r) (queue r ++ [p]))
                       (cajeros m)) m)
  end.

(** [resource.release(req)], called when the [with] block is left:
    [_do_get] removes the request from [users] and the Release event is
    triggered at once. *)
Definition release (k : nat) (n : nat) (m : Mundo) : Mundo :=
  match nth_error (cajeros m) k with
  | None => m
  | Some r =>
      schedule (Release k) NORMAL 0
        (con_cajeros
           (reemplazar k (mkResource (capacity r) (quitar n (users r)) (queue r))
                       (cajeros m)) m)
  end.

(** ** The processes *)

(** [generador_clientes] from the top of its loop to the [yield] of line
    89; [i] is the generator's counter. *)
Definition generador_clientes (modo : string) (i : nat) (m : Mundo) : Mundo :=
  let (d, g) := generar_tiempo_llegada (azar m) in
  let m := con_azar g m in
  match timeout (TimeoutGenerador modo i) d m with
  | Some m' => m'
  | None => proceso_falla m
  end.

(** Lines 90-94: the generator wakes up and starts a customer. *)
Definition despachar (modo : string) (i : nat) (m : Mundo) : Mundo :=
  if (modo =? "cola_unica")%string then process (InitCliente Unica i) m
  else if (modo =? "colas_separadas")%string then process (InitCliente Separadas i) m
  else m.

(** [cliente_cola_unica] up to [yield req] (lines 57-61). *)
Definition cliente_cola_unica (n : nat) (m : Mundo) : Mundo :=
  let llegada := now m in
  let (tipo, g) := generar_tipo_transaccion (azar m) in
  request 0 (mkPeticion n llegada tipo) (con_azar g m).

(** [cliente_colas_separadas] up to [yield req] (lines 71-76). *)
Definition cliente_colas_separadas (n : nat) (m : Mundo) : Mundo :=
  let llegada := now m in
  let (tipo, g) := generar_tipo_transaccion (azar m) in
  let m := con_azar g m in
  match min_por_cola (cajeros m) with
  | None => proceso_falla m
  | Some k => request k (mkPeticion n llegada tipo) m
  end.

(** Both customers after the grant (lines 62-64 and 77-79): the wait is
    recorded, then the service hold is requested.  An exception inside
    the [with] block releases the teller before the process fails. *)
Definition cliente_servicio (k : nat) (p : Peticion) (m : Mundo) : Mundo :=
  let espera := now m - llegada p in
  let m := anotar espera m in
  match generar_tiempo_servicio (tipo p) (azar m) with
  | None => proceso_falla (release k (nombre p) m)
  | Some (s, g) =>
      let m := con_azar g m in
      match timeout (TimeoutServicio k (nombre p)) s m with
      | Some m' => m'
      | None => proceso_falla (release k (nombre p) m)
      end
  end.

(** The end of the [with] block after the service hold. *)
Definition cliente_salida (k n : nat) (m : Mundo) : Mundo :=
  proceso_termina (release k n m).

(** ** The scheduler *)

Inductive Paso : Type :=
| Sigue (m : Mundo)
| StopSimulation (m : Mundo)
| Lanza.

(** The callbacks of an event. *)
Definition callbacks (ev : Evento) (m : Mundo) : Paso :=
  match ev with
  | Hasta => StopSimulation m
  | InitGenerador modo => Sigue (generador_clientes modo 0 m)
  | TimeoutGenerador modo i =>
      let i := S i in
      Sigue (generador_clientes modo i (despachar modo i m))
  | InitCliente Unica n => Sigue (cliente_cola_unica n m)
  | InitCliente Separadas n => Sigue (cliente_colas_separadas n m)
  | Request k p => Sigue (cliente_servicio k p m)
  | TimeoutServicio k n => Sigue (cliente_salida k n m)
  | Release k => Sigue (trigger_put k m)
  | ProcesoFin => Sigue m
  | ProcesoFallo => Lanza
  end.

(** [self._now, _, _, event = heappop(self._queue)]. *)
Definition heappop (m : Mundo) : option (Entrada * Mundo) :=
  match cola m with
  | [] => None
  | e :: resto =>
      Some (e, mkMundo (tiempo e) resto (eid m) (cajeros m)
                       (tiempos_espera m) (azar m))
  end.

(** [Environment.step]: pop the least item, set the clock, run the
    callbacks.  An empty heap is EmptySchedule. *)
Definition step (m : Mundo) : Paso :=
  match heappop m with
  | None => Lanza
  | Some (e, m') => callbacks (evento e) m'
  end.

(** The [while True: self.step()] of [Environment.run]. *)
Fixpoint bucle (fuel : nat) (m : Mundo) : Resultado Mundo :=
  match fuel with
  | O => SinCombustible
  | S fuel' =>
      match step m with
      | Sigue m' => bucle fuel' m'
      | StopSimulation m' => Fin m'
      | Lanza => Excepcion
      end
  end.

(** The heap items processed by [bucle], in order. *)
Fixpoint traza (fuel : nat) (m : Mundo) : list Entrada :=
  match fuel with
  | O => []
  | S fuel' =>
      match cola m with
      | [] => []
      | e :: _ =>
          e :: match step m with
               | Sigue m' => traza fuel' m'
               | _ => []
               end
      end
  end.

(** [env.run(until=at)]: the until-event is URGENT and scheduled at
    [at - now]; [at <= now] raises ValueError. *)
Definition run (fuel : nat) (at_ : Q) (m : Mundo) : Resultado Mundo :=
  if Qle_bool at_ (now m) then Excepcion
  else bucle fuel (schedule Hasta URGENT (at_ - now m) m).

(** ** The driver (Sim.py, lines 100-123) *)

Definition construir_cajeros (modo : string) : list Resource :=
  if (modo =? "cola_unica")%string
  then [mkResource NUM_CAJEROS [] []]
  else repeat (mkResource 1 [] []) NUM_CAJEROS.

(** The state when line 111 is reached: Environment and resources built,
    generator started. *)
Definition preparar (modo : string) (g : estado A) : Mundo :=
  process (InitGenerador modo) (mkMundo 0 [] 0 (construir_cajeros modo) [] g).

(** Lines 102-111: the state in which [env.run] returns. *)
Definition correr_banco (fuel : nat) (modo : string) (g : estado A)
  : Resultado Mundo :=
  run fuel TIEMPO_SIMULACION (preparar modo g).

Definition simular_banco (fuel : nat) (modo : string) (g : estado A)
  : Resultado (Resumen * estado A) :=
  match correr_banco fuel modo g with
  | Fin m => Fin (estadisticas modo (tiempos_espera m), azar m)
  | Excepcion => Excepcion
  | SinCombustible => SinCombustible
  end.

(** [main], without the printing: the two summaries it tabulates. *)
Definition main (fuel : nat) : Resultado (Resumen * Resumen) :=
  let g := seed A 12345 in
  match simular_banco fuel "cola_unica" g with
  | Fin (resultado_unica, g) =>
      match simular_banco fuel "colas_separadas" g with
      | Fin (resultado_separadas, _) => Fin (resultado_unica, resultado_separadas)
      | Excepcion => Excepcion
      | SinCombustible => SinCombustible
      end
  | Excepcion => Excepcion
  | SinCombustible => SinCombustible
  end.

End Simulacion.

Arguments Mundo A : clear implicits.
Arguments Paso A : clear implicits.

(** * Specification vocabulary

    Orders, invariants, measures and example inputs used by the
    properties below. *)

(** ** Heap order *)

(** [a] is popped no later than [b]. *)
Definition no_despues (a b : Entrada) : Prop := antes b a = false.

Definition ordenada (q : list Entrada) : Prop := StronglySorted no_despues q.

(** ** Clock and arrival-time invariant *)

Definition peticion_ok (t : Q) (p : Peticion) : Prop :=
  0 <= llegada p /\ llegada p <= t.

Definition entrada_ok (t : Q) (e : Entrada) : Prop :=
  t <= tiempo e /\
  match evento e with Request _ p => peticion_ok t p | _ => True end.

Definition recurso_ok (t : Q) (r : Resource) : Prop :=
  Forall (peticion_ok t) (queue r).

(** The until-event is still on the heap, at the horizon. *)
Definition hasta_pendiente (q : list Entrada) : Prop :=
  exists e, In e q /\ evento e = Hasta /\ tiempo e == TIEMPO_SIMULACION.

Definition espera_ok (w : Q) : Prop := 0 <= w /\ w <= TIEMPO_SIMULACION.

Record Inv {A : Azar} (m : Mundo A) : Prop := mkInv {
  inv_ord : ordenada (cola m);
  inv_now : 0 <= now m;
  inv_cola : Forall (entrada_ok (now m)) (cola m);
  inv_cajeros : Forall (recurso_ok (now m)) (cajeros m);
  inv_hasta : hasta_pendiente (cola m);
  inv_esperas : Forall espera_ok (tiempos_espera m)
}.

(** ** Start of the run *)

(** The state in which [env.run] enters its loop. *)
Definition arranque {A : Azar} (modo : string) (g : estado A) : Mundo A :=
  schedule Hasta URGENT (TIEMPO_SIMULACION - now (preparar modo g)) (preparar modo g).

(** ** Termination measure *)

(** An upper bound on the number of steps an event can still cause;
    [N] bounds the number of arrivals. *)
Definition peso (N : nat) (ev : Evento) : nat :=
  match ev with
  | Hasta => 1
  | InitGenerador _ => 6 * N + 2
  | TimeoutGenerador _ i => 6 * (N - i) + 1
  | InitCliente _ _ => 5
  | Request _ _ => 4
  | TimeoutServicio _ _ => 3
  | Release _ => 1
  | ProcesoFin => 1
  | ProcesoFallo => 1
  end.

Definition peso_cola (N : nat) (q : list Entrada) : nat :=
  list_sum (map (fun e => peso N (evento e)) q).

Definition peso_cajeros (rs : list Resource) : nat :=
  list_sum (map (fun r => 4 * length (queue r))%nat rs).

Definition potencial {A : Azar} (N : nat) (m : Mundo A) : nat :=
  (peso_cola N (cola m) + peso_cajeros (cajeros m))%nat.

Definition tipo_ok (p : Peticion) : Prop := (0 <= tipo p <= 3)%Z.

Definition entrada_viva (delta : Q) (e : Entrada) : Prop :=
  match evento e with
  | ProcesoFallo => False
  | TimeoutGenerador _ i => inject_Z (Z.of_nat (S i)) * delta <= tiempo e
  | Request _ p => tipo_ok p
  | _ => True
  end.

Definition recurso_vivo (r : Resource) : Prop := Forall tipo_ok (queue r).

Record Vivo {A : Azar} (delta : Q) (m : Mundo A) : Prop := mkVivo {
  vivo_cola : Forall (entrada_viva delta) (cola m);
  vivo_cajeros : Forall recurso_vivo (cajeros m);
  vivo_no_vacio : cajeros m <> []
}.

(** Each operation keeps [Vivo] and adds a bounded amount of potential. *)
Definition cota {A : Azar} (delta : Q) (N : nat) (c : nat) (m m' : Mundo A) : Prop :=
  Vivo delta m' /\ (potencial N m' <= potencial N m + c)%nat /\ now m' = now m.

(** ** The categorical draw, as specified *)

(** Cumulative probability of the first [n] rows of the table, summed
    from the first row on in binary64. *)
Fixpoint acumulada (tabla : list (Q * Q)) (n : nat) : spec_float :=
  match n with
  | O => cero64
  | S n' => suma64 (acumulada tabla n') (flotante (fst (nth n' tabla (0, 0))))
  end.

(** The first index whose cumulative probability is at least [r], as the
    specification words it. *)
Definition primer_indice_spec (tabla : list (Q * Q)) (r : Q) : option nat :=
  find (fun i => Qle_flotante r (acumulada tabla (S i))) (seq 0 (length tabla)).

(** The cumulative probabilities of [TRANSACCIONES] as the walk computes
    them, by their exact values: the floats 0.15, 0.43999999999999995
    (below the decimal 0.44) and 0.76 (above the decimal 0.76, and a
    possible result of [random.random()], being a multiple of 2^-53);
    the fourth is 1.0. *)
Definition umbral_1 : Q := 5404319552844595 # 36028797018963968.
Definition umbral_2 : Q := 990791918021509 # 2251799813685248.
Definition umbral_3 : Q := 3422735716801577 # 4503599627370496.

(** ** Priorities, event ids and the horizon *)

(** The priority with which the program schedules each kind of event:
    Initialize events and the until-event are URGENT, the rest NORMAL. *)
Definition prioridad_de (ev : Evento) : nat :=
  match ev with
  | Hasta | InitGenerador _ | InitCliente _ _ => URGENT
  | _ => NORMAL
  end.

(** Apart from the until-event, an item on the heap was either pushed
    after [env.run] started (id at least 2) or lies before the horizon;
    the until-event is URGENT, has id 1 and lies at the horizon. *)
Definition entrada_ids (e : Entrada) : Prop :=
  match evento e with
  | Hasta => prioridad e = URGENT /\ id_evento e = 1%nat /\
             tiempo e == TIEMPO_SIMULACION
  | _ => (2 <= id_evento e)%nat \/ tiempo e < TIEMPO_SIMULACION
  end.

Definition Ids {A : Azar} (m : Mundo A) : Prop :=
  (2 <= eid m)%nat /\ Forall entrada_ids (cola m).

(** ** Reachable states and readings of the run loop *)

(** The states in which the loop of [env.run] calls [step]. *)
Inductive alcanzable {A : Azar} (modo : string) (g : estado A) : Mundo A -> Prop :=
| alc_arranque : alcanzable modo g (arranque modo g)
| alc_step (m m' : Mundo A) :
    alcanzable modo g m -> step m = Sigue m' -> alcanzable modo g m'.

(** The two readings of the loop that the program does not follow:
    ties between events at the same time broken by insertion order
    alone, and a loop that leaves only events later than the horizon. *)
Definition desempate_por_insercion (A : Azar) : Prop :=
  forall fuel modo (g : estado A) t1 e1 e2 t2,
    traza fuel (arranque modo g) = t1 ++ e1 :: e2 :: t2 ->
    tiempo e1 == tiempo e2 -> (id_evento e1 < id_evento e2)%nat.

Definition horizonte_procesado (A : Azar) : Prop :=
  forall fuel modo (g : estado A) m,
    correr_banco fuel modo g = Fin m ->
    forall e, In e (cola m) -> TIEMPO_SIMULACION < tiempo e.

(** ** Waits recorded by processed items *)

(** The wait recorded when an item is processed: only a granted request
    records one, the time elapsed since the customer's arrival. *)
Definition espera_de (e : Entrada) : list Q :=
  match evento e with
  | Request _ p => [tiempo e - llegada p]
  | _ => []
  end.

Definition esperas_de (t : list Entrada) : list Q := flat_map espera_de t.

(** ** Unrecognised mode *)

(** Items that belong to the scheduler or to the arrival generator. *)
Definition evento_generador (modo : string) (ev : Evento) : Prop :=
  match ev with
  | Hasta | ProcesoFallo => True
  | InitGenerador mo | TimeoutGenerador mo _ => mo = modo
  | _ => False
  end.

Definition sin_clientes {A : Azar} (modo : string) (m : Mundo A) : Prop :=
  Forall (fun e => evento_generador modo (evento e)) (cola m) /\
  tiempos_espera m = [] /\
  cajeros m = repeat (mkResource 1 [] []) NUM_CAJEROS.

(** ** What the driver returns *)

(** The reading in which the caller of [simular_banco] receives the
    recorded waits: they could be read off the returned value. *)
Definition devuelve_muestras (A : Azar) : Prop :=
  exists extraer : Resumen -> list Q,
    forall fuel modo (g : estado A) m r g',
      correr_banco fuel modo g = Fin m ->
      simular_banco fuel modo g = Fin (r, g') ->
      extraer r = tiempos_espera m.

(** ** Item-wise invariants and weighted sums *)

(** Every item on the heap satisfies [QE] and every pending request
    satisfies [QP]. *)
Definition todas {A : Azar} (QE : Evento -> Prop) (QP : Peticion -> Prop)
           (m : Mundo A) : Prop :=
  Forall (fun e => QE (evento e)) (cola m) /\
  Forall (fun r => Forall QP (queue r)) (cajeros m).

(** What the callbacks of an event may add to the heap and the queues. *)
Definition nuevos (QE : Evento -> Prop) (QP : Peticion -> Prop)
           (ev : Evento) (t : Q) : Prop :=
  match ev with
  | InitGenerador modo => QE (TimeoutGenerador modo 0)
  | TimeoutGenerador modo i =>
      (forall d, QE (InitCliente d (S i))) /\ QE (TimeoutGenerador modo (S i))
  | InitCliente _ n => forall ti, QP (mkPeticion n t ti)
  | _ => True
  end.

Definition suma_cola (wE : Evento -> nat) (q : list Entrada) : nat :=
  list_sum (map (fun e => wE (evento e)) q).

Definition suma_cajeros (wP : Peticion -> nat) (rs : list Resource) : nat :=
  list_sum (map (fun r => list_sum (map wP (queue r))) rs).

(** The weight of the heap plus the weight of the pending requests. *)
Definition suma {A : Azar} (wE : Evento -> nat) (wP : Peticion -> nat)
           (m : Mundo A) : nat :=
  (suma_cola wE (cola m) + suma_cajeros wP (cajeros m))%nat.

Definition peso_inicio (wE : Evento -> nat) (i : nat) : nat :=
  Nat.max (wE (InitCliente Unica i)) (wE (InitCliente Separadas i)).

(** What the callbacks of an event may add to the sum. *)
Definition ganancia (wE : Evento -> nat) (wN : nat -> nat) (ev : Evento) : nat :=
  match ev with
  | InitGenerador modo => wE (TimeoutGenerador modo 0)
  | TimeoutGenerador modo i => peso_inicio wE (S i) + wE (TimeoutGenerador modo (S i))
  | InitCliente _ n => wN n
  | _ => 0
  end.

(** ** Histories *)

(** The customers whose request has been granted and processed. *)
Definition concedidos (h : list Entrada) : list nat :=
  flat_map (fun e => match evento e with
                     | Request _ p => [nombre p]
                     | _ => []
                     end) h.

(** The customer of request [p] started in [h], at time [llegada p]. *)
Definition iniciado (h : list Entrada) (p : Peticion) : Prop :=
  exists e d, In e h /\ evento e = InitCliente d (nombre p) /\ tiempo e = llegada p.

(** Every processed grant comes after the start of its customer. *)
Definition concesiones_iniciadas (h : list Entrada) : Prop :=
  forall t1 e t2 k p,
    h = t1 ++ e :: t2 -> evento e = Request k p -> iniciado t1 p.

Definition w_gen (ev : Evento) : nat :=
  match ev with
  | InitGenerador _ | TimeoutGenerador _ _ => 1
  | _ => 0
  end.

Definition w_nom (n : nat) (ev : Evento) : nat :=
  match ev with
  | InitCliente _ n' => if (n' =? n)%nat then 1 else 0
  | Request _ p => if (nombre p =? n)%nat then 1 else 0
  | _ => 0
  end.

Definition wP_nom (n : nat) (p : Peticion) : nat :=
  if (nombre p =? n)%nat then 1 else 0.

Definition wN_nom (n n' : nat) : nat := if (n' =? n)%nat then 1 else 0.

(** The generator's counter is [c]. *)
Definition QE_gen (c : nat) (ev : Evento) : Prop :=
  match ev with
  | InitGenerador _ => c = 0%nat
  | TimeoutGenerador _ i => i = c
  | _ => True
  end.

Definition QE_ini (h : list Entrada) (ev : Evento) : Prop :=
  match ev with
  | Request _ p => iniciado h p
  | _ => True
  end.

(** Arrival times: every pending or granted request belongs to a
    customer that started at the request's [llegada]. *)
Definition llegadas {A : Azar} (h : list Entrada) (m : Mundo A) : Prop :=
  todas (QE_ini h) (iniciado h) m /\ concesiones_iniciadas h.

Definition suma_gen {A : Azar} (m : Mundo A) : nat := suma w_gen (fun _ => 0%nat) m.

Definition suma_nom {A : Azar} (n : nat) (m : Mundo A) : nat := suma (w_nom n) (wP_nom n) m.

Definition veces (n : nat) (h : list Entrada) : nat :=
  count_occ Nat.eq_dec (concedidos h) n.

(** With the generator's counter at [c]: one generator item at most is
    pending, and each customer number up to [c] occurs at most once among
    the customers waiting to start, the pending requests, the granted
    requests still on the heap and the grants already processed; larger
    numbers do not occur. *)
Definition unicidad {A : Azar} (h : list Entrada) (m : Mundo A) : Prop :=
  exists c,
    (suma_gen m <= 1)%nat /\
    todas (QE_gen c) (fun _ => True) m /\
    forall n, (veces n h + suma_nom n m <= if (n <=? c)%nat then 1 else 0)%nat.

(** ** Routing *)

(** The length of the queue of the resource at index [j]. *)
Definition largo_cola (rs : list Resource) (j : nat) : nat :=
  length (queue (nth j rs (mkResource 0 [] []))).

(** Customer [n] is bound to teller [k]: its request is pending at [k],
    or granted by [k] and not yet processed, or it is being served at
    [k]. *)
Definition en_cola (rs : list Resource) (n k : nat) : Prop :=
  exists r p, nth_error rs k = Some r /\ In p (queue r) /\ nombre p = n.

Definition evento_de (ev : Evento) (n k : nat) : Prop :=
  ev = TimeoutServicio k n \/ exists p, ev = Request k p /\ nombre p = n.

Definition en_evento (q : list Entrada) (n k : nat) : Prop :=
  exists e, In e q /\ evento_de (evento e) n k.

Definition en_cajero {A : Azar} (m : Mundo A) (n k : nat) : Prop :=
  en_cola (cajeros m) n k \/ en_evento (cola m) n k.

(** ** Immediate start of a customer *)

Definition entrada_clase (x : Entrada) : Prop :=
  prioridad x = prioridad_de (evento x).

Definition sin_inicio (ev : Evento) : Prop :=
  match ev with
  | InitGenerador _ | InitCliente _ _ => False
  | _ => True
  end.

Definition Clases {A : Azar} (m : Mundo A) : Prop := Forall entrada_clase (cola m).

(** Only the head of the heap may be an Initialize event. *)
Definition resto_sin_inicio {A : Azar} (m : Mundo A) : Prop :=
  Forall (fun x => sin_inicio (evento x)) (tl (cola m)).

(** ** Example inputs *)

(** A table whose probabilities sum to 0.9, for a draw of 0.95. *)
Definition tabla_incompleta : list (Q * Q) := [(0.5, 45); (0.4, 75)].

(** Every [expovariate] draw is 600 seconds and every [random()] draw is
    0: customers arrive at 600, 1200, ..., each asks for a transaction of
    type 0 that lasts 600 seconds. *)
Definition AzarRegular : Azar := AzarCinta [] 600.

(** Three customers of the separated-queues run: arrivals at 10, 105 and
    207, services of 100 seconds; afterwards one arrival every 600
    seconds with a service of 100 seconds. *)
Definition cinta_a : list Q :=
  [10; 95; 0.1; 100; 102; 0.1; 100; 600; 0.1; 100]
    ++ concat (repeat [600; 0.1; 100] 60).

(** The same, with arrivals at 10, 107 and 205. *)
Definition cinta_b : list Q :=
  [10; 97; 0.1; 100; 98; 0.1; 100; 600; 0.1; 100]
    ++ concat (repeat [600; 0.1; 100] 60).

(** An oracle whose every [expovariate] draw is [d] and whose every
    [random()] draw is 0. *)
Definition AzarFijo (d : Q) : Azar :=
  {| estado := unit;
     seed := fun _ => tt;
     random := fun _ => (0, tt);
     expovariate := fun _ _ => (d, tt) |}.

(** Three tellers with 2, 0 and 1 pending requests. *)
Definition tres_cajeros : list Resource :=
  [ mkResource 1 [1%nat] [mkPeticion 2 0 0; mkPeticion 5 0 0];
    mkResource 1 [3%nat] [];
    mkResource 1 [4%nat] [mkPeticion 6 0 0] ].

(** ** Service means and teller occupancy *)

(** The mean service time of the row that a draw [r] selects in
    [TRANSACCIONES], read off the cumulative thresholds of the walk: the
    floats 0.15, 0.43999999999999995 and 0.76. *)
Definition media_de (r : Q) : Q :=
  if Qle_bool r umbral_1 then 45.0
  else if Qle_bool r umbral_2 then 75.0
  else if Qle_bool r umbral_3 then 120.0
  else 180.0.

(** The pending-queue lengths of a pool, the only thing the routing
    rule looks at. *)
Definition largos (rs : list Resource) : list nat :=
  map (fun r => length (queue r)) rs.

(** The tellers as [simular_banco] builds them for a mode: capacity 6
    for the shared queue, capacity 1 otherwise; never more users than
    capacity. *)
Definition capacidad_de (modo : string) : nat :=
  if (modo =? "cola_unica")%string then NUM_CAJEROS else 1%nat.

Definition cajero_ok (modo : string) (r : Resource) : Prop :=
  capacity r = capacidad_de modo /\ (length (users r) <= capacity r)%nat.

(** Weight 1 for a pending Release event of teller [k]. *)
Definition w_release_de (k : nat) (ev : Evento) : nat :=
  match ev with
  | Release k' => if (k' =? k)%nat then 1%nat else 0%nat
  | _ => 0%nat
  end.

(** The number of Release events of teller [k] on the heap. *)
Definition liberaciones {A : Azar} (k : nat) (m : Mundo A) : nat :=
  suma_cola (w_release_de k) (cola m).

(** Nobody waits at teller [k] beside a free slot, unless the slot was
    just released and its Release event is still to be processed. *)
Definition atendido {A : Azar} (k : nat) (m : Mundo A) : Prop :=
  forall r, nth_error (cajeros m) k = Some r ->
            queue r = [] \/
            (capacity r <= length (users r) + liberaciones k m)%nat.

(** ** Arrivals and waiting lines *)

(** The number of wake-ups of the arrival generator among the processed
    items: the number of arrivals generated. *)
Definition llegadas_generadas (h : list Entrada) : nat :=
  list_sum (map (fun e => match evento e with
                          | TimeoutGenerador _ _ => 1%nat
                          | _ => 0%nat
                          end) h).

(** 1 for the customer numbers 1..c, 0 for the others. *)
Definition cota_nombre (c n : nat) : nat :=
  if ((1 <=? n) && (n <=? c))%nat then 1%nat else 0%nat.

(** As [unicidad], with the generator's counter equal to the number of
    arrivals generated so far and customer numbers starting at 1. *)
Definition arribos {A : Azar} (h : list Entrada) (m : Mundo A) : Prop :=
  (suma_gen m <= 1)%nat /\
  todas (QE_gen (llegadas_generadas h)) (fun _ => True) m /\
  forall n, (veces n h + suma_nom n m <= cota_nombre (llegadas_generadas h) n)%nat.

(** The state after [n] more steps of the loop (or the last state
    before the loop stops). *)
Fixpoint avanzar {A : Azar} (n : nat) (m : Mundo A) : Mundo A :=
  match n with
  | O => m
  | S n' => match step m with
            | Sigue m' => avanzar n' m'
            | _ => m
            end
  end.

(** The waiting line of resource [r] and the customers holding a slot
    of [r] are in order of customer number, every customer holding a slot
    has a smaller number than every customer still waiting at [r], and
    all numbers are below [b]. *)
Definition en_orden (b : nat) (r : Resource) : Prop :=
  StronglySorted lt (map nombre (queue r)) /\
  StronglySorted lt (users r) /\
  (forall u p, In u (users r) -> In p (queue r) -> (u < nombre p)%nat) /\
  (forall u, In u (users r) -> (u < b)%nat) /\
  (forall p, In p (queue r) -> (nombre p < b)%nat).

(** The waiting line of [r] is in order of arrival time and nobody in it
    arrived after [t]. *)
Definition por_llegada (t : Q) (r : Resource) : Prop :=
  StronglySorted (fun p q => llegada p <= llegada q) (queue r) /\
  Forall (fun p => llegada p <= t) (queue r).

(** A customer waiting to start carries number [c]. *)
Definition QE_inicio (c : nat) (ev : Evento) : Prop :=
  match ev with
  | InitCliente _ n => n = c
  | _ => True
  end.

(** With the generator's counter at [c]: the lines are in order with all
    numbers at most [c], and while customer [c] has not started all
    numbers are below [c]. *)
Definition fila {A : Azar} (c : nat) (m : Mundo A) : Prop :=
  Forall (en_orden (S c)) (cajeros m) /\
  Forall (fun e => QE_inicio c (evento e)) (cola m) /\
  (Forall (fun e => sin_inicio (evento e)) (cola m) \/
   Forall (en_orden c) (cajeros m)).

(** The separated-queues run on [cinta_a] after six steps: customer 1
    holds teller 0 and customer 2 waits in its line. *)
Definition espera_en_cajero_0 : Mundo AzarRegular :=
  avanzar 6 (@arranque AzarRegular "colas_separadas" cinta_a).

(** Nine customers of the single-queue run, one second apart, with
    services of 1000 seconds: the first six are granted a slot on
    arrival and draw a service time, the next ones wait. *)
Definition cinta_c : list Q :=
  1 :: concat (repeat [1; 0.1; 1000] 6) ++ concat (repeat [1; 0.1] 4).

(** That run after 25 steps: customers 1 to 6 hold the six slots and
    customers 7, 8 and 9 wait. *)
Definition fila_de_tres : Mundo AzarRegular :=
  avanzar 25 (@arranque AzarRegular "cola_unica" cinta_c).

(** ** Turns at a teller *)

(** The customer granted a slot of teller [k] by item [e], if any. *)
Definition pedido_de (k : nat) (e : Entrada) : list nat :=
  match evento e with
  | Request k' p => if (k' =? k)%nat then [nombre p] else []
  | _ => []
  end.

(** The customers granted a slot of teller [k] by the items of [q], in
    the order of [q]. *)
Definition pedidos (k : nat) (q : list Entrada) : list nat :=
  flat_map (pedido_de k) q.

(** The customers waiting at teller [k], head of the line first. *)
Definition en_fila (k : nat) (rs : list Resource) : list nat :=
  match nth_error rs k with
  | Some r => map nombre (queue r)
  | None => []
  end.

(** The turns at teller [k]: the customers whose grant has been
    processed, then those granted and not yet processed in the order in
    which the heap will pop them, then those waiting. *)
Definition turnos {A : Azar} (k : nat) (h : list Entrada) (m : Mundo A) : list nat :=
  pedidos k h ++ pedidos k (cola m) ++ en_fila k (cajeros m).

(** A granted request on the heap was scheduled without delay, with
    NORMAL priority, by an earlier call. *)
Definition concesion_reciente {A : Azar} (m : Mundo A) (y : Entrada) : Prop :=
  match evento y with
  | Request _ _ =>
      tiempo y <= now m /\ prioridad y = NORMAL /\ (id_evento y < eid m)%nat
  | _ => True
  end.

(** The turns at teller [k] are in order of customer number and below
    [b]. *)
Definition por_turno {A : Azar} (k : nat) (h : list Entrada) (b : nat)
           (m : Mundo A) : Prop :=
  Forall (concesion_reciente m) (cola m) /\
  ordenada (cola m) /\
  StronglySorted lt (turnos k h m) /\
  Forall (fun n => (n < b)%nat) (turnos k h m).

(** The invariant of the turns at teller [k] along a run with history
    [h]. *)
Definition orden {A : Azar} (modo : string) (g : estado A) (k : nat)
           (h : list Entrada) (m : Mundo A) : Prop :=
  alcanzable modo g m /\
  arribos h m /\
  fila (llegadas_generadas h) m /\
  por_turno k h (S (llegadas_generadas h)) m /\
  (Forall (fun e => sin_inicio (evento e)) (cola m) \/
   Forall (fun n => (n < llegadas_generadas h)%nat) (turnos k h m)).

(** Every granted request on the heap names one of the [L] tellers. *)
Definition cajero_valido (L : nat) (e : Entrada) : Prop :=
  match evento e with
  | Request k _ => (k < L)%nat
  | _ => True
  end.

Definition cajeros_validos {A : Azar} (L : nat) (m : Mundo A) : Prop :=
  length (cajeros m) = L /\ Forall (cajero_valido L) (cola m).

(** Three customers of the separated-queues run: arrivals at 10, 105 and
    107, services of 100 seconds.  Customer 2 joins the line of teller
    0, which is busy with customer 1; customer 3 then finds that line
    longer than the others and goes to teller 1, which is free. *)
Definition cinta_d : list Q := [10; 95; 0.1; 100; 2; 0.1; 600; 0.1; 100; 100].

(** ** Accounting of arrivals *)

Definition w_pend (ev : Evento) : nat :=
  match ev with
  | InitCliente _ _ | Request _ _ => 1
  | _ => 0
  end.

(** The customers who have arrived and whose wait is not yet recorded:
    those about to start, those waiting in a line, and those granted a
    slot whose process has not resumed yet. *)
Definition pendientes {A : Azar} (m : Mundo A) : nat :=
  suma w_pend (fun _ => 1%nat) m.

(** The generator items on the heap carry the mode of the run. *)
Definition QE_modo (modo : string) (ev : Evento) : Prop :=
  match ev with
  | InitGenerador mo | TimeoutGenerador mo _ => mo = modo
  | _ => True
  end.

(** Every arrival generated so far is either recorded or pending. *)
Definition cuenta {A : Azar} (modo : string) (g : estado A)
           (h : list Entrada) (m : Mundo A) : Prop :=
  alcanzable modo g m /\
  todas (QE_modo modo) (fun _ => True) m /\
  (length (concedidos h) + pendientes m = llegadas_generadas h)%nat.

(** Six customers of the single-queue run, one second apart, whose
    services of 30000 seconds outlast the horizon; afterwards one arrival
    every 600 seconds, each of which waits until the horizon. *)
Definition cinta_e : list Q := 1 :: concat (repeat [1; 0.1; 30000] 6).

(** ** Who holds a slot *)

(** The customers holding a slot of teller [k]. *)
Definition users_de (k : nat) (rs : list Resource) : list nat :=
  match nth_error rs k with
  | Some r => users r
  | None => []
  end.

(** 1 for the items that stand for customer [n] being attended at
    teller [k]: its grant not yet processed, or its service hold. *)
Definition w_atencion (k n : nat) (ev : Evento) : nat :=
  match ev with
  | Request k' p => if ((k' =? k) && (nombre p =? n))%nat then 1 else 0
  | TimeoutServicio k' n' => if ((k' =? k) && (n' =? n))%nat then 1 else 0
  | _ => 0
  end.

(** Customer [n] holds as many slots of teller [k] as it has grants or
    service holds of [k] pending on the heap. *)
Definition ocupacion {A : Azar} (k n : nat) (m : Mundo A) : Prop :=
  count_occ Nat.eq_dec (users_de k (cajeros m)) n =
  suma_cola (w_atencion k n) (cola m).

(** * Properties *)

(** ** The order on heap items *)

Lemma antes_spec (a b : Entrada) :
  antes a b = true <->
  tiempo a < tiempo b \/
  (tiempo a == tiempo b /\
   ((prioridad a < prioridad b)%nat \/
    (prioridad a = prioridad b /\ (id_evento a < id_evento b)%nat))).
Proof.
  unfold antes.
  destruct (Qcompare_spec (tiempo a) (tiempo b)) as [He | Hl | Hg].
  - destruct (Nat.ltb_spec (prioridad a) (prioridad b)) as [Hp | Hp].
    + split; [intros _; right; split; [exact He | left; exact Hp] | reflexivity].
    + destruct (Nat.eqb_spec (prioridad a) (prioridad b)) as [Hq | Hq].
      * rewrite Nat.ltb_lt. split.
        -- intros Hi. right. split; [exact He | right; split; assumption].
        -- intros [Hl | [_ [Hl | [_ Hi]]]]; [lra | lia | exact Hi].
      * split; [discriminate |].
        intros [Hl | [_ [Hl | [Hl _]]]]; [lra | lia | lia].
  - split; [intros _; left; exact Hl | reflexivity].
  - split; [discriminate |].
    intros [Hl | [He _]]; lra.
Qed.

Lemma antes_false (a b : Entrada) :
  antes a b = false <->
  tiempo b < tiempo a \/
  (tiempo a == tiempo b /\
   ((prioridad b < prioridad a)%nat \/
    (prioridad a = prioridad b /\ (id_evento b <= id_evento a)%nat))).
Proof.
  rewrite <- Bool.not_true_iff_false, antes_spec.
  destruct (Qlt_le_dec (tiempo b) (tiempo a)) as [H | H].
  - split; [intros _; left; exact H | intros _ [K | [K _]]; lra].
  - destruct (Qlt_le_dec (tiempo a) (tiempo b)) as [H' | H'].
    + split; [intros K; exfalso; apply K; left; exact H' | intros [K | [K _]]; lra].
    + assert (He : tiempo a == tiempo b) by lra.
      split.
      * intros K. right. split; [exact He |].
        destruct (Nat.lt_trichotomy (prioridad a) (prioridad b)) as [L | [L | L]].
        -- exfalso. apply K. right. split; [exact He | left; exact L].
        -- right. split; [exact L |].
           destruct (Nat.le_gt_cases (id_evento b) (id_evento a)) as [M | M]; [exact M |].
           exfalso. apply K. right. split; [exact He | right; split; assumption].
        -- left. exact L.
      * intros [K | [_ K]] [L | [_ L]]; try lra; lia.
Qed.

Lemma antes_no_despues (a b : Entrada) : antes a b = true -> no_despues a b.
Proof.
  unfold no_despues. rewrite antes_spec, antes_false.
  intros [H | [He [H | [Hp H]]]].
  - left. exact H.
  - right. split; [lra | left; exact H].
  - right. split; [lra | right; split; [congruence | lia]].
Qed.

Lemma no_despues_trans (a b c : Entrada) :
  no_despues a b -> no_despues b c -> no_despues a c.
Proof.
  unfold no_despues. rewrite !antes_false.
  intros [H | [He H]] [K | [Ke K]].
  - left. lra.
  - left. lra.
  - left. lra.
  - right. split; [lra |]. lia.
Qed.

Lemma no_despues_tiempo (a b : Entrada) : no_despues a b -> tiempo a <= tiempo b.
Proof. unfold no_despues. rewrite antes_false. intros [H | [H _]]; lra. Qed.

Lemma heappush_In (x y : Entrada) (q : list Entrada) :
  In y (heappush x q) <-> y = x \/ In y q.
Proof.
  induction q as [| z q IH]; simpl.
  - split; [intros [H | []]; left; congruence | intros [H | []]; left; congruence].
  - destruct (antes x z); simpl.
    + split; [intros [H | H]; [left; congruence | right; exact H]
             | intros [H | H]; [left; congruence | right; exact H]].
    + rewrite IH. split.
      * intros [H | [H | H]]; auto.
      * intros [H | [H | H]]; auto.
Qed.

Lemma heappush_ordenada (x : Entrada) (q : list Entrada) :
  ordenada q -> ordenada (heappush x q).
Proof.
  unfold ordenada. induction q as [| y q IH]; simpl; intros Hs.
  - constructor; constructor.
  - inversion Hs as [| ? ? Hq Hy]; subst.
    destruct (antes x y) eqn:Hxy.
    + constructor; [exact Hs |].
      constructor; [apply antes_no_despues; exact Hxy |].
      rewrite Forall_forall in *. intros z Hz.
      apply no_despues_trans with y; [apply antes_no_despues; exact Hxy | auto].
    + constructor; [apply IH; exact Hq |].
      rewrite Forall_forall in *. intros z Hz.
      apply heappush_In in Hz. destruct Hz as [-> | Hz]; [exact Hxy | auto].
Qed.

Lemma heappush_Forall (P : Entrada -> Prop) (x : Entrada) (q : list Entrada) :
  Forall P (heappush x q) <-> P x /\ Forall P q.
Proof.
  rewrite !Forall_forall. split.
  - intros H. split.
    + apply H. apply heappush_In. left. reflexivity.
    + intros y Hy. apply H. apply heappush_In. right. exact Hy.
  - intros [Hx Hq] y Hy. apply heappush_In in Hy.
    destruct Hy as [-> | Hy]; [exact Hx | apply Hq; exact Hy].
Qed.

Lemma ordenada_cabeza (e : Entrada) (q : list Entrada) :
  ordenada (e :: q) -> ordenada q /\ Forall (no_despues e) q.
Proof. intros H. inversion H; subst. split; assumption. Qed.

(** ** The store of resources *)

Lemma reemplazar_length {T : Type} (k : nat) (x : T) (l : list T) :
  length (reemplazar k x l) = length l.
Proof.
  revert k. induction l as [| y l IH]; intros [| k]; simpl; try reflexivity.
  rewrite IH. reflexivity.
Qed.

Lemma reemplazar_Forall {T : Type} (P : T -> Prop) (k : nat) (x : T) (l : list T) :
  P x -> Forall P l -> Forall P (reemplazar k x l).
Proof.
  intros Hx Hl. revert k. induction Hl as [| y l Hy Hl IH]; intros [| k]; simpl.
  - constructor.
  - constructor.
  - constructor; assumption.
  - constructor; [assumption | apply IH].
Qed.

Lemma reemplazar_nth_error {T : Type} (k j : nat) (x : T) (l : list T) :
  nth_error (reemplazar k x l) j =
  if (j =? k)%nat then (if (k <? length l)%nat then Some x else None)
  else nth_error l j.
Proof.
  revert k j. induction l as [| y l IH]; intros k j; simpl.
  - destruct k, j; simpl; try reflexivity.
    destruct (j =? k)%nat; reflexivity.
  - destruct k as [| k], j as [| j]; simpl; try reflexivity.
    rewrite IH. reflexivity.
Qed.

Lemma nth_error_Forall {T : Type} (P : T -> Prop) (l : list T) (k : nat) (x : T) :
  Forall P l -> nth_error l k = Some x -> P x.
Proof.
  intros Hl Hk. rewrite Forall_forall in Hl. apply Hl.
  eapply nth_error_In. exact Hk.
Qed.

(** ** Clock and arrival-time invariant of a run *)

Section Tiempos.
Context {A : Azar}.

Lemma hasta_pendiente_push (x : Entrada) (q : list Entrada) :
  hasta_pendiente q -> hasta_pendiente (heappush x q).
Proof.
  intros [e [Hin He]]. exists e. split; [| exact He].
  apply heappush_In. right. exact Hin.
Qed.

Lemma Inv_now_le (m : Mundo A) : Inv m -> now m <= TIEMPO_SIMULACION.
Proof.
  intros H. destruct (inv_hasta m H) as [e [Hin [_ Ht]]].
  pose proof (inv_cola m H) as Hc. rewrite Forall_forall in Hc.
  destruct (Hc e Hin) as [Hle _]. lra.
Qed.

Lemma Inv_schedule (ev : Evento) (prio : nat) (delay : Q) (m : Mundo A) :
  0 <= delay ->
  (forall k p, ev = Request k p -> peticion_ok (now m) p) ->
  Inv m -> Inv (schedule ev prio delay m).
Proof.
  intros Hd Hev H. destruct H as [Ho Hn Hc Hr Hh He].
  constructor; simpl; try assumption.
  - apply heappush_ordenada. exact Ho.
  - apply heappush_Forall. split; [| exact Hc].
    split; simpl; [lra |].
    destruct ev; try exact I. eapply Hev. reflexivity.
  - apply hasta_pendiente_push. exact Hh.
Qed.

Lemma Inv_con_azar (g : estado A) (m : Mundo A) : Inv m -> Inv (con_azar g m).
Proof. intros [Ho Hn Hc Hr Hh He]. constructor; simpl; assumption. Qed.

Lemma Inv_con_cajeros (rs : list Resource) (m : Mundo A) :
  Forall (recurso_ok (now m)) rs -> Inv m -> Inv (con_cajeros rs m).
Proof. intros Hrs [Ho Hn Hc Hr Hh He]. constructor; simpl; assumption. Qed.

Lemma Inv_anotar (w : Q) (m : Mundo A) :
  espera_ok w -> Inv m -> Inv (anotar w m).
Proof.
  intros Hw [Ho Hn Hc Hr Hh He]. constructor; simpl; try assumption.
  apply Forall_app. split; [exact He | constructor; [exact Hw | constructor]].
Qed.

Lemma Inv_timeout (ev : Evento) (delay : Q) (m m' : Mundo A) :
  (forall k p, ev <> Request k p) ->
  timeout ev delay m = Some m' -> Inv m -> Inv m'.
Proof.
  unfold timeout. intros Hev Ht H.
  destruct (Qle_bool 0 delay) eqn:Hd; [| discriminate].
  injection Ht as <-. apply Qle_bool_iff in Hd.
  apply Inv_schedule; [exact Hd | | exact H].
  intros k p Hk. exfalso. exact (Hev k p Hk).
Qed.

Lemma Inv_proceso_falla (m : Mundo A) : Inv m -> Inv (proceso_falla m).
Proof.
  intros H. apply Inv_schedule; [lra | discriminate | exact H].
Qed.

Lemma Inv_proceso_termina (m : Mundo A) : Inv m -> Inv (proceso_termina m).
Proof.
  intros H. apply Inv_schedule; [lra | discriminate | exact H].
Qed.

Lemma Inv_trigger_put (k : nat) (m : Mundo A) : Inv m -> Inv (trigger_put k m).
Proof.
  intros H. unfold trigger_put.
  destruct (nth_error (cajeros m) k) as [r |] eqn:Hk; [| exact H].
  destruct (queue r) as [| p resto] eqn:Hq; [exact H |].
  destruct (length (users r) <? capacity r)%nat; [| exact H].
  pose proof (nth_error_Forall _ _ _ _ (inv_cajeros m H) Hk) as Hr.
  unfold recurso_ok in Hr. rewrite Hq in Hr. inversion Hr as [| ? ? Hp Hresto]; subst.
  apply Inv_schedule; [lra | |].
  - simpl. intros k' p' Heq. injection Heq as _ <-. exact Hp.
  - apply Inv_con_cajeros; [| exact H].
    apply reemplazar_Forall; [exact Hresto | exact (inv_cajeros m H)].
Qed.

Lemma Inv_request (k : nat) (p : Peticion) (m : Mundo A) :
  peticion_ok (now m) p -> Inv m -> Inv (request k p m).
Proof.
  intros Hp H. unfold request.
  destruct (nth_error (cajeros m) k) as [r |] eqn:Hk; [| exact H].
  apply Inv_trigger_put. apply Inv_con_cajeros; [| exact H].
  pose proof (nth_error_Forall _ _ _ _ (inv_cajeros m H) Hk) as Hr.
  apply reemplazar_Forall; [| exact (inv_cajeros m H)].
  unfold recurso_ok in *. simpl. apply Forall_app. split; [exact Hr |].
  constructor; [exact Hp | constructor].
Qed.

Lemma Inv_release (k n : nat) (m : Mundo A) : Inv m -> Inv (release k n m).
Proof.
  intros H. unfold release.
  destruct (nth_error (cajeros m) k) as [r |] eqn:Hk; [| exact H].
  apply Inv_schedule; [lra | discriminate |].
  apply Inv_con_cajeros; [| exact H].
  apply reemplazar_Forall; [| exact (inv_cajeros m H)].
  exact (nth_error_Forall _ _ _ _ (inv_cajeros m H) Hk).
Qed.

Lemma Inv_generador_clientes (modo : string) (i : nat) (m : Mundo A) :
  Inv m -> Inv (generador_clientes modo i m).
Proof.
  intros H. unfold generador_clientes.
  destruct (generar_tiempo_llegada (azar m)) as [d g].
  destruct (timeout _ d (con_azar g m)) as [m' |] eqn:Ht.
  - eapply Inv_timeout; [| exact Ht | apply Inv_con_azar; exact H]. discriminate.
  - apply Inv_proceso_falla. apply Inv_con_azar. exact H.
Qed.

Lemma Inv_despachar (modo : string) (i : nat) (m : Mundo A) :
  Inv m -> Inv (despachar modo i m).
Proof.
  intros H. unfold despachar, process.
  destruct (modo =? "cola_unica")%string;
    [apply Inv_schedule; [lra | discriminate | exact H] |].
  destruct (modo =? "colas_separadas")%string;
    [apply Inv_schedule; [lra | discriminate | exact H] | exact H].
Qed.

Lemma Inv_cliente_cola_unica (n : nat) (m : Mundo A) :
  Inv m -> Inv (cliente_cola_unica n m).
Proof.
  intros H. unfold cliente_cola_unica.
  destruct (generar_tipo_transaccion (azar m)) as [t g].
  apply Inv_request; [| apply Inv_con_azar; exact H].
  split; simpl; [exact (inv_now m H) | lra].
Qed.

Lemma Inv_cliente_colas_separadas (n : nat) (m : Mundo A) :
  Inv m -> Inv (cliente_colas_separadas n m).
Proof.
  intros H. unfold cliente_colas_separadas.
  destruct (generar_tipo_transaccion (azar m)) as [t g].
  destruct (min_por_cola (cajeros (con_azar g m))) as [k |].
  - apply Inv_request; [| apply Inv_con_azar; exact H].
    split; simpl; [exact (inv_now m H) | lra].
  - apply Inv_proceso_falla. apply Inv_con_azar. exact H.
Qed.

Lemma Inv_cliente_servicio (k : nat) (p : Peticion) (m : Mundo A) :
  peticion_ok (now m) p -> Inv m -> Inv (cliente_servicio k p m).
Proof.
  intros [Hp0 Hp1] H. unfold cliente_servicio.
  assert (Ha : Inv (anotar (now m - llegada p) m)).
  { apply Inv_anotar; [| exact H].
    pose proof (Inv_now_le m H). split; lra. }
  destruct (generar_tiempo_servicio (tipo p) (azar (anotar (now m - llegada p) m)))
    as [[s g] |].
  - destruct (timeout _ s _) as [m' |] eqn:Ht.
    + eapply Inv_timeout; [| exact Ht | apply Inv_con_azar; exact Ha]. discriminate.
    + apply Inv_proceso_falla, Inv_release, Inv_con_azar. exact Ha.
  - apply Inv_proceso_falla, Inv_release. exact Ha.
Qed.

Lemma peticion_ok_mono (t t' : Q) (p : Peticion) :
  t <= t' -> peticion_ok t p -> peticion_ok t' p.
Proof. unfold peticion_ok. intros Ht [H0 H1]. split; lra. Qed.

(** Popping an item other than the until-event keeps the invariant; the
    popped request, if any, carries an arrival time in the past. *)
Lemma Inv_heappop (m m' : Mundo A) (e : Entrada) :
  Inv m -> heappop m = Some (e, m') -> evento e <> Hasta ->
  Inv m' /\ now m' = tiempo e /\
  (forall k p, evento e = Request k p -> peticion_ok (now m') p).
Proof.
  intros [Ho Hn Hc Hr Hh He] Hp Hne. unfold heappop in Hp.
  destruct (cola m) as [| e0 resto] eqn:Hq; [discriminate |].
  injection Hp as <- <-.
  apply ordenada_cabeza in Ho. destruct Ho as [Ho Hmin].
  inversion Hc as [| ? ? [Hle Hev] Hc']; subst.
  split; [| split; [reflexivity |]].
  - constructor; simpl.
    + exact Ho.
    + lra.
    + rewrite Forall_forall in *. intros x Hx.
      destruct (Hc' x Hx) as [Hxt Hxe].
      split; [apply no_despues_tiempo; apply Hmin; exact Hx |].
      destruct (evento x); try exact I.
      eapply peticion_ok_mono; [exact Hle | exact Hxe].
    + rewrite Forall_forall in *. intros r Hin.
      unfold recurso_ok in *. specialize (Hr r Hin).
      rewrite Forall_forall in *. intros p Hp.
      eapply peticion_ok_mono; [exact Hle | apply Hr; exact Hp].
    + destruct Hh as [h [[Hh | Hh] [Hhe Hht]]].
      * subst h. contradiction.
      * exists h. auto.
    + exact He.
  - simpl. intros k p Hk. rewrite Hk in Hev.
    eapply peticion_ok_mono; [exact Hle | exact Hev].
Qed.

Lemma Inv_step (m m' : Mundo A) : Inv m -> step m = Sigue m' -> Inv m'.
Proof.
  intros H Hs. unfold step in Hs.
  destruct (heappop m) as [[e m1] |] eqn:Hp; [| discriminate].
  destruct (evento e) eqn:Hev; simpl in Hs; try discriminate;
    (destruct (Inv_heappop m m1 e H Hp) as [H1 [_ Hreq]]; [congruence |]).
  - injection Hs as <-. apply Inv_generador_clientes. exact H1.
  - injection Hs as <-. apply Inv_generador_clientes, Inv_despachar. exact H1.
  - destruct d; injection Hs as <-.
    + apply Inv_cliente_cola_unica. exact H1.
    + apply Inv_cliente_colas_separadas. exact H1.
  - injection Hs as <-. apply Inv_cliente_servicio; [| exact H1].
    eapply Hreq. exact Hev.
  - injection Hs as <-. apply Inv_proceso_termina, Inv_release. exact H1.
  - injection Hs as <-. apply Inv_trigger_put. exact H1.
  - injection Hs as <-. exact H1.
Qed.

End Tiempos.

(** ** Runs and invariants *)

Section Corridas.
Context {A : Azar}.

Lemma bucle_invariante (P : Mundo A -> Prop) :
  (forall m m', P m -> step m = Sigue m' -> P m') ->
  forall fuel m m', P m -> bucle fuel m = Fin m' ->
  exists m0, P m0 /\ step m0 = StopSimulation m'.
Proof.
  intros Hstep. induction fuel as [| fuel IH]; intros m m' HP Hb; simpl in Hb.
  - discriminate.
  - destruct (step m) as [m1 | m1 |] eqn:Hs.
    + eapply IH; [eapply Hstep; eassumption | exact Hb].
    + injection Hb as <-. exists m. split; assumption.
    + discriminate.
Qed.

(** More fuel does not change the outcome of a finished loop. *)
Lemma bucle_mas_combustible (fuel fuel' : nat) (m : Mundo A) (r : Resultado (Mundo A)) :
  (fuel <= fuel')%nat -> bucle fuel m = r -> r <> SinCombustible ->
  bucle fuel' m = r.
Proof.
  revert fuel' m. induction fuel as [| fuel IH]; intros fuel' m Hle Hb Hr; simpl in Hb.
  - congruence.
  - destruct fuel' as [| fuel']; [lia |]. simpl.
    destruct (step m) as [m1 | m1 |]; try exact Hb.
    apply IH; [lia | exact Hb | exact Hr].
Qed.

(** What a step that stops leaves behind. *)
Lemma step_StopSimulation (m m' : Mundo A) :
  step m = StopSimulation m' ->
  exists e, heappop m = Some (e, m') /\ evento e = Hasta.
Proof.
  unfold step. destruct (heappop m) as [[e m1] |]; [| discriminate].
  intros H. exists e.
  destruct (evento e) eqn:He; simpl in H; try discriminate.
  - injection H as <-. split; reflexivity.
  - destruct d; discriminate.
Qed.

Lemma heappop_campos (m m' : Mundo A) (e : Entrada) :
  heappop m = Some (e, m') ->
  cola m = e :: cola m' /\ now m' = tiempo e /\ eid m' = eid m /\
  cajeros m' = cajeros m /\ tiempos_espera m' = tiempos_espera m /\
  azar m' = azar m.
Proof.
  unfold heappop. destruct (cola m) as [| e0 resto]; [discriminate |].
  intros H. injection H as <- <-. simpl. repeat split; reflexivity.
Qed.

Lemma correr_banco_bucle (fuel : nat) (modo : string) (g : estado A) :
  correr_banco fuel modo g = bucle fuel (arranque modo g).
Proof. reflexivity. Qed.

Lemma Inv_arranque (modo : string) (g : estado A) : Inv (arranque modo g).
Proof.
  constructor; simpl.
  - repeat constructor.
  - lra.
  - repeat constructor; simpl; try lra. vm_compute. discriminate.
  - unfold construir_cajeros.
    destruct (modo =? "cola_unica")%string; simpl; repeat constructor.
  - eexists. split; [right; left; reflexivity |].
    split; [reflexivity |]. simpl. lra.
  - constructor.
Qed.

End Corridas.

(** ** Termination of a run *)

Lemma tipo_transaccion_rango (r : Q) :
  (0 <= tipo_transaccion TRANSACCIONES r <= 3)%Z.
Proof.
  unfold tipo_transaccion, TRANSACCIONES. cbn [recorrer length].
  repeat match goal with
         | |- context [Qle_flotante ?a ?b] => destruct (Qle_flotante a b)
         end; simpl; lia.
Qed.

Lemma peso_cola_heappush (N : nat) (x : Entrada) (q : list Entrada) :
  peso_cola N (heappush x q) = (peso N (evento x) + peso_cola N q)%nat.
Proof.
  unfold peso_cola. induction q as [| y q IH]; simpl.
  - reflexivity.
  - destruct (antes x y); simpl; [reflexivity |]. rewrite IH. lia.
Qed.

Lemma peso_cajeros_reemplazar (k : nat) (r x : Resource) (rs : list Resource) :
  nth_error rs k = Some r ->
  (peso_cajeros (reemplazar k x rs) + 4 * length (queue r) =
   peso_cajeros rs + 4 * length (queue x))%nat.
Proof.
  unfold peso_cajeros. revert k. induction rs as [| y rs IH]; intros [| k] H; simpl in *.
  - discriminate.
  - discriminate.
  - injection H as ->. lia.
  - specialize (IH k H). lia.
Qed.

Section Terminacion.
Context {A : Azar}.
Variables (delta : Q) (N : nat).
Hypothesis delta_pos : 0 < delta.
Hypothesis llegadas_N : TIEMPO_SIMULACION <= inject_Z (Z.of_nat N) * delta.
Hypothesis llegada_min : forall g, delta <= fst (expovariate A LAMBDA g).
Hypothesis servicio_min : forall lambd g, 0 <= fst (expovariate A lambd g).

Local Abbreviation potencial := (potencial N).
Local Abbreviation entrada_viva := (entrada_viva delta).
Local Abbreviation Vivo := (Vivo delta).
Local Abbreviation cota := (cota delta N).
Local Abbreviation vivo_cola := (vivo_cola delta).
Local Abbreviation vivo_cajeros := (vivo_cajeros delta).
Local Abbreviation vivo_no_vacio := (vivo_no_vacio delta).

Lemma cota_refl (m : Mundo A) : Vivo m -> cota 0 m m.
Proof. intros H. split; [exact H | split; [lia | reflexivity]]. Qed.

Lemma cota_trans (c1 c2 : nat) (m1 m2 m3 : Mundo A) :
  cota c1 m1 m2 -> cota c2 m2 m3 -> cota (c1 + c2) m1 m3.
Proof.
  intros [_ [H1 E1]] [V [H2 E2]]. split; [exact V | split; [lia | congruence]].
Qed.

Lemma cota_mas (c c' : nat) (m m' : Mundo A) :
  (c <= c')%nat -> cota c m m' -> cota c' m m'.
Proof. intros Hc [V [H E]]. split; [exact V | split; [lia | exact E]]. Qed.

Lemma cota_schedule (ev : Evento) (prio : nat) (delay : Q) (m : Mundo A) :
  entrada_viva (mkEntrada (now m + delay) prio (eid m) ev) ->
  Vivo m -> cota (peso N ev) m (schedule ev prio delay m).
Proof.
  intros Hev [Hc Hr Hne]. split; [| split; [| reflexivity]].
  - constructor; simpl; try assumption.
    apply heappush_Forall. split; assumption.
  - unfold potencial. simpl. rewrite peso_cola_heappush. simpl. lia.
Qed.

Lemma cota_con_azar (g : estado A) (m : Mundo A) : Vivo m -> cota 0 m (con_azar g m).
Proof.
  intros [Hc Hr Hne]. split; [constructor; assumption |].
  split; [unfold potencial; simpl; lia | reflexivity].
Qed.

Lemma cota_anotar (w : Q) (m : Mundo A) : Vivo m -> cota 0 m (anotar w m).
Proof.
  intros [Hc Hr Hne]. split; [constructor; assumption |].
  split; [unfold potencial; simpl; lia | reflexivity].
Qed.

Lemma reemplazar_no_vacio {T : Type} (k : nat) (x : T) (l : list T) :
  l <> [] -> reemplazar k x l <> [].
Proof. destruct l, k; simpl; congruence. Qed.

Lemma cota_trigger_put (k : nat) (m : Mundo A) : Vivo m -> cota 0 m (trigger_put k m).
Proof.
  intros H. unfold trigger_put.
  destruct (nth_error (cajeros m) k) as [r |] eqn:Hk; [| apply cota_refl; exact H].
  destruct (queue r) as [| p resto] eqn:Hq; [apply cota_refl; exact H |].
  destruct (length (users r) <? capacity r)%nat; [| apply cota_refl; exact H].
  pose proof (nth_error_Forall _ _ _ _ (vivo_cajeros m H) Hk) as Hr.
  unfold recurso_vivo in Hr. rewrite Hq in Hr. inversion Hr as [| ? ? Hp Hresto]; subst.
  destruct H as [Hc Hrs Hne].
  split; [| split; [| reflexivity]].
  - constructor; simpl.
    + apply heappush_Forall. split; [exact Hp | exact Hc].
    + apply reemplazar_Forall; [exact Hresto | exact Hrs].
    + apply reemplazar_no_vacio. exact Hne.
  - unfold potencial. simpl. rewrite peso_cola_heappush. simpl.
    pose proof (peso_cajeros_reemplazar k r
                  (mkResource (capacity r) (users r ++ [nombre p]) resto)
                  (cajeros m) Hk) as Hw.
    rewrite Hq in Hw. simpl in Hw. lia.
Qed.

Lemma cota_request (k : nat) (p : Peticion) (m : Mundo A) :
  tipo_ok p -> Vivo m -> cota 4 m (request k p m).
Proof.
  intros Hp H. unfold request.
  destruct (nth_error (cajeros m) k) as [r |] eqn:Hk;
    [| apply cota_mas with 0%nat; [lia | apply cota_refl; exact H]].
  pose proof (nth_error_Forall _ _ _ _ (vivo_cajeros m H) Hk) as Hr.
  apply (cota_trans 4 0) with
    (con_cajeros (reemplazar k (mkResource (capacity r) (users r) (queue r ++ [p]))
                             (cajeros m)) m).
  - destruct H as [Hc Hrs Hne]. split; [| split; [| reflexivity]].
    + constructor; simpl.
      * exact Hc.
      * apply reemplazar_Forall; [| exact Hrs].
        unfold recurso_vivo in *. simpl. apply Forall_app.
        split; [exact Hr | constructor; [exact Hp | constructor]].
      * apply reemplazar_no_vacio. exact Hne.
    + unfold potencial. simpl.
      pose proof (peso_cajeros_reemplazar k r
                    (mkResource (capacity r) (users r) (queue r ++ [p]))
                    (cajeros m) Hk) as Hw.
      simpl in Hw. rewrite length_app in Hw. simpl in Hw. lia.
  - apply cota_trigger_put.
    destruct H as [Hc Hrs Hne]. constructor; simpl.
    + exact Hc.
    + apply reemplazar_Forall; [| exact Hrs].
      unfold recurso_vivo in *. simpl. apply Forall_app.
      split; [exact Hr | constructor; [exact Hp | constructor]].
    + apply reemplazar_no_vacio. exact Hne.
Qed.

Lemma cota_release (k n : nat) (m : Mundo A) : Vivo m -> cota 1 m (release k n m).
Proof.
  intros H. unfold release.
  destruct (nth_error (cajeros m) k) as [r |] eqn:Hk;
    [| apply cota_mas with 0%nat; [lia | apply cota_refl; exact H]].
  pose proof (nth_error_Forall _ _ _ _ (vivo_cajeros m H) Hk) as Hr.
  destruct H as [Hc Hrs Hne]. split; [| split; [| reflexivity]].
  - constructor; simpl.
    + apply heappush_Forall. split; [exact I | exact Hc].
    + apply reemplazar_Forall; [exact Hr | exact Hrs].
    + apply reemplazar_no_vacio. exact Hne.
  - unfold potencial. simpl. rewrite peso_cola_heappush. simpl.
    pose proof (peso_cajeros_reemplazar k r
                  (mkResource (capacity r) (quitar n (users r)) (queue r))
                  (cajeros m) Hk) as Hw.
    simpl in Hw. lia.
Qed.

Lemma timeout_Some (ev : Evento) (d : Q) (m : Mundo A) :
  0 <= d -> timeout ev d m = Some (schedule ev NORMAL d m).
Proof.
  intros Hd. unfold timeout.
  apply Qle_bool_iff in Hd. rewrite Hd. reflexivity.
Qed.

Lemma cota_generador_clientes (modo : string) (i : nat) (m : Mundo A) :
  inject_Z (Z.of_nat i) * delta <= now m ->
  Vivo m -> cota (6 * (N - i) + 1) m (generador_clientes modo i m).
Proof.
  intros Hi H. unfold generador_clientes, generar_tiempo_llegada.
  pose proof (llegada_min (azar m)) as Hd.
  destruct (expovariate A LAMBDA (azar m)) as [d g]. simpl in Hd.
  rewrite timeout_Some by lra.
  apply (cota_trans 0 (peso N (TimeoutGenerador modo i))) with (con_azar g m).
  - apply cota_con_azar. exact H.
  - apply cota_schedule; [| apply cota_con_azar; exact H].
    unfold entrada_viva. cbn [evento tiempo now con_azar].
    rewrite Nat2Z.inj_succ. unfold Z.succ. rewrite inject_Z_plus.
    change (inject_Z 1) with 1. lra.
Qed.

Lemma cota_despachar (modo : string) (i : nat) (m : Mundo A) :
  Vivo m -> cota 5 m (despachar modo i m).
Proof.
  intros H. unfold despachar, process.
  destruct (modo =? "cola_unica")%string;
    [apply (cota_schedule (InitCliente Unica i)); [exact I | exact H] |].
  destruct (modo =? "colas_separadas")%string;
    [apply (cota_schedule (InitCliente Separadas i)); [exact I | exact H] |].
  apply cota_mas with 0%nat; [lia | apply cota_refl; exact H].
Qed.

Lemma cota_cliente_cola_unica (n : nat) (m : Mundo A) :
  Vivo m -> cota 4 m (cliente_cola_unica n m).
Proof.
  intros H. unfold cliente_cola_unica, generar_tipo_transaccion.
  destruct (random A (azar m)) as [r g].
  apply (cota_trans 0 4) with (con_azar g m).
  - apply cota_con_azar. exact H.
  - apply cota_request; [apply tipo_transaccion_rango | apply cota_con_azar; exact H].
Qed.

Lemma cota_cliente_colas_separadas (n : nat) (m : Mundo A) :
  Vivo m -> cota 4 m (cliente_colas_separadas n m).
Proof.
  intros H. unfold cliente_colas_separadas, generar_tipo_transaccion.
  destruct (random A (azar m)) as [r g].
  destruct (min_por_cola (cajeros (con_azar g m))) as [k |] eqn:Hmin.
  - apply (cota_trans 0 4) with (con_azar g m).
    + apply cota_con_azar. exact H.
    + apply cota_request; [apply tipo_transaccion_rango | apply cota_con_azar; exact H].
  - exfalso. simpl in Hmin. apply (vivo_no_vacio m H).
    destruct (cajeros m); [reflexivity | discriminate].
Qed.

Lemma generar_tiempo_servicio_Some (t : Z) (g : estado A) :
  (0 <= t <= 3)%Z ->
  exists lambd, generar_tiempo_servicio t g = Some (expovariate A lambd g).
Proof.
  intros Ht. unfold generar_tiempo_servicio.
  assert (Hc : t = 0%Z \/ t = 1%Z \/ t = 2%Z \/ t = 3%Z) by lia.
  destruct Hc as [-> | [-> | [-> | ->]]]; simpl; eexists; reflexivity.
Qed.

Lemma cota_cliente_servicio (k : nat) (p : Peticion) (m : Mundo A) :
  tipo_ok p -> Vivo m -> cota 3 m (cliente_servicio k p m).
Proof.
  intros Hp H. unfold cliente_servicio.
  set (m1 := anotar (now m - llegada p) m).
  destruct (generar_tiempo_servicio_Some (tipo p) (azar m1) Hp) as [lambd ->].
  pose proof (servicio_min lambd (azar m1)) as Hs.
  destruct (expovariate A lambd (azar m1)) as [s g]. simpl in Hs.
  rewrite timeout_Some by exact Hs.
  apply (cota_trans 0 3) with m1; [apply cota_anotar; exact H |].
  apply (cota_trans 0 3) with (con_azar g m1);
    [apply cota_con_azar, cota_anotar; exact H |].
  apply (cota_schedule (TimeoutServicio k (nombre p))); [exact I |].
  apply cota_con_azar, cota_anotar. exact H.
Qed.

Lemma cota_cliente_salida (k n : nat) (m : Mundo A) :
  Vivo m -> cota 2 m (cliente_salida k n m).
Proof.
  intros H. unfold cliente_salida, proceso_termina.
  apply (cota_trans 1 1) with (release k n m); [apply cota_release; exact H |].
  apply (cota_schedule ProcesoFin); [exact I |].
  apply cota_release. exact H.
Qed.

Lemma cota_heappop (m m1 : Mundo A) (e : Entrada) :
  Vivo m -> heappop m = Some (e, m1) ->
  Vivo m1 /\ entrada_viva e /\
  potencial m = (peso N (evento e) + potencial m1)%nat.
Proof.
  intros [Hc Hr Hne] Hp. unfold heappop in Hp.
  destruct (cola m) as [| e0 resto] eqn:Hq; [discriminate |].
  injection Hp as <- <-. inversion Hc; subst.
  split; [constructor; assumption |].
  split; [assumption |].
  unfold potencial, peso_cola. rewrite Hq. simpl. lia.
Qed.

Lemma llegadas_acotadas (i : nat) (t : Q) :
  inject_Z (Z.of_nat (S i)) * delta <= t -> t <= TIEMPO_SIMULACION -> (i < N)%nat.
Proof.
  intros H1 H2.
  assert (H : inject_Z (Z.of_nat (S i)) * delta <= inject_Z (Z.of_nat N) * delta) by lra.
  apply Qmult_le_r in H; [| exact delta_pos].
  rewrite <- Zle_Qle in H. lia.
Qed.

(** A step either stops the run or strictly lowers the potential. *)
Lemma step_progresa (m : Mundo A) :
  Inv m -> Vivo m ->
  (exists m', step m = StopSimulation m') \/
  (exists m', step m = Sigue m' /\ Vivo m' /\ (potencial m' < potencial m)%nat).
Proof.
  intros HI HV. unfold step.
  destruct (heappop m) as [[e m1] |] eqn:Hp.
  2:{ exfalso. destruct (inv_hasta m HI) as [h [Hin _]].
      unfold heappop in Hp. destruct (cola m); [destruct Hin | discriminate]. }
  destruct (cota_heappop m m1 e HV Hp) as [HV1 [He Hpot]].
  destruct (evento e) eqn:Hev; simpl.
  - left. eexists. reflexivity.
  - right. eexists. split; [reflexivity |].
    destruct (Inv_heappop m m1 e HI Hp) as [HI1 _]; [congruence |].
    destruct (cota_generador_clientes modo 0 m1) as [V [P _]];
      [pose proof (inv_now m1 HI1); change (inject_Z (Z.of_nat 0)) with 0; lra
      | exact HV1 |].
    split; [exact V |]. simpl in *. lia.
  - right. eexists. split; [reflexivity |].
    destruct (Inv_heappop m m1 e HI Hp) as [HI1 [Hnow _]]; [congruence |].
    unfold entrada_viva in He. rewrite Hev in He.
    pose proof (Inv_now_le m1 HI1) as Hle. rewrite Hnow in Hle.
    pose proof (llegadas_acotadas i (tiempo e) He Hle) as HiN.
    destruct (cota_despachar modo (S i) m1 HV1) as [V2 [P2 E2]].
    destruct (cota_generador_clientes modo (S i) (despachar modo (S i) m1))
      as [V [P _]]; [rewrite E2, Hnow; exact He | exact V2 |].
    split; [exact V |]. simpl in *. lia.
  - right. destruct d; eexists; (split; [reflexivity |]).
    + destruct (cota_cliente_cola_unica n m1 HV1) as [V [P _]].
      split; [exact V |]. simpl in *. lia.
    + destruct (cota_cliente_colas_separadas n m1 HV1) as [V [P _]].
      split; [exact V |]. simpl in *. lia.
  - right. eexists. split; [reflexivity |].
    unfold entrada_viva in He. rewrite Hev in He.
    destruct (cota_cliente_servicio k p m1 He HV1) as [V [P _]].
    split; [exact V |]. simpl in *. lia.
  - right. eexists. split; [reflexivity |].
    destruct (cota_cliente_salida k n m1 HV1) as [V [P _]].
    split; [exact V |]. simpl in *. lia.
  - right. eexists. split; [reflexivity |].
    destruct (cota_trigger_put k m1 HV1) as [V [P _]].
    split; [exact V |]. simpl in *. lia.
  - right. eexists. split; [reflexivity |].
    split; [exact HV1 |]. simpl in *. lia.
  - exfalso. unfold entrada_viva in He. rewrite Hev in He. exact He.
Qed.

Lemma bucle_termina (fuel : nat) (m : Mundo A) :
  Inv m -> Vivo m -> (potencial m < fuel)%nat ->
  exists m', bucle fuel m = Fin m'.
Proof.
  revert m. induction fuel as [| fuel IH]; intros m HI HV Hp; [lia |].
  simpl. destruct (step_progresa m HI HV) as [[m' Hs] | [m' [Hs [HV' Hlt]]]].
  - rewrite Hs. exists m'. reflexivity.
  - rewrite Hs. apply IH; [eapply Inv_step; eassumption | exact HV' | lia].
Qed.

Lemma Vivo_arranque (modo : string) (g : estado A) : Vivo (arranque modo g).
Proof.
  constructor; simpl.
  - repeat constructor.
  - unfold construir_cajeros.
    destruct (modo =? "cola_unica")%string; simpl; repeat constructor.
  - unfold construir_cajeros.
    destruct (modo =? "cola_unica")%string; simpl; discriminate.
Qed.

Lemma potencial_arranque (modo : string) (g : estado A) :
  potencial (arranque modo g) = (6 * N + 3)%nat.
Proof.
  unfold potencial, arranque, preparar, process, schedule.
  cbn [cola cajeros now eid]. rewrite !peso_cola_heappush.
  unfold construir_cajeros.
  destruct (modo =? "cola_unica")%string;
    cbn [evento peso repeat NUM_CAJEROS];
    change (peso_cola N []) with 0%nat;
    match goal with
    | |- context [peso_cajeros ?l] =>
        change (peso_cajeros l) with 0%nat
    end; lia.
Qed.

(** With arrivals at least [delta] apart and non-negative service times,
    [6 * N + 4] steps are enough for [env.run] to return. *)
Lemma correr_banco_termina (fuel : nat) (modo : string) (g : estado A) :
  (6 * N + 4 <= fuel)%nat -> exists m, correr_banco fuel modo g = Fin m.
Proof.
  intros Hf. rewrite correr_banco_bucle.
  apply bucle_termina; [apply Inv_arranque | apply Vivo_arranque |].
  rewrite potencial_arranque. lia.
Qed.

End Terminacion.

(** ** The categorical draw *)

(** The literals of the program's table as floats, and the running sums
    of the walk: 0.15, 0.43999999999999995, 0.76 and 1.0. *)
Lemma flotante_TRANSACCIONES :
  map (fun fila => flotante (fst fila)) TRANSACCIONES =
  [ S754_finite false 5404319552844595 (-55);
    S754_finite false 5224175567749775 (-54);
    S754_finite false 5764607523034235 (-54);
    S754_finite false 8646911284551352 (-55) ].
Proof. vm_compute. reflexivity. Qed.

Lemma acumulada_TRANSACCIONES :
  acumulada TRANSACCIONES 1 = S754_finite false 5404319552844595 (-55) /\
  acumulada TRANSACCIONES 2 = S754_finite false 7926335344172072 (-54) /\
  acumulada TRANSACCIONES 3 = S754_finite false 6845471433603154 (-53) /\
  acumulada TRANSACCIONES 4 = S754_finite false 4503599627370496 (-52).
Proof. repeat split; vm_compute; reflexivity. Qed.

Lemma Qle_bool_Qeq (r a b : Q) : a == b -> Qle_bool r a = Qle_bool r b.
Proof.
  intros Hab.
  destruct (Qle_bool r a) eqn:Ha, (Qle_bool r b) eqn:Hb; try reflexivity.
  - apply Qle_bool_iff in Ha. rewrite Hab in Ha. apply Qle_bool_iff in Ha. congruence.
  - apply Qle_bool_iff in Hb. rewrite <- Hab in Hb. apply Qle_bool_iff in Hb. congruence.
Qed.

Lemma Qle_flotante_finito (r : Q) (s : bool) (m : positive) (e : Z) (q : Q) :
  valor (S754_finite s m e) == q ->
  Qle_flotante r (S754_finite s m e) = Qle_bool r q.
Proof. intros H. unfold Qle_flotante. apply Qle_bool_Qeq. exact H. Qed.

(** The tests of the walk on the program's table. *)
Lemma Qle_flotante_TRANSACCIONES (r : Q) :
  Qle_flotante r (acumulada TRANSACCIONES 1) = Qle_bool r umbral_1 /\
  Qle_flotante r (acumulada TRANSACCIONES 2) = Qle_bool r umbral_2 /\
  Qle_flotante r (acumulada TRANSACCIONES 3) = Qle_bool r umbral_3 /\
  Qle_flotante r (acumulada TRANSACCIONES 4) = Qle_bool r 1.
Proof.
  destruct acumulada_TRANSACCIONES as [E1 [E2 [E3 E4]]].
  rewrite E1, E2, E3, E4.
  repeat split; apply Qle_flotante_finito; vm_compute; reflexivity.
Qed.

Lemma recorrer_sufijo (pre suf : list (Q * Q)) (r : Q) :
  recorrer suf r (acumulada (pre ++ suf) (length pre)) (Z.of_nat (length pre)) =
  option_map Z.of_nat
    (find (fun i => Qle_flotante r (acumulada (pre ++ suf) (S i)))
          (seq (length pre) (length suf))).
Proof.
  revert pre. induction suf as [| [p x] suf IH]; intros pre;
    cbn [recorrer length seq find acumulada].
  - reflexivity.
  - rewrite nth_middle. cbn [fst].
    destruct (Qle_flotante r
                (suma64 (acumulada (pre ++ (p, x) :: suf) (length pre)) (flotante p))).
    + reflexivity.
    + specialize (IH (pre ++ [(p, x)])).
      rewrite <- app_assoc in IH. cbn [app] in IH.
      rewrite length_app in IH. cbn [length] in IH.
      replace (length pre + 1)%nat with (S (length pre)) in IH by lia.
      rewrite Nat2Z.inj_succ in IH. unfold Z.succ in IH.
      cbn [acumulada] in IH. rewrite nth_middle in IH. cbn [fst] in IH.
      exact IH.
Qed.

Lemma recorrer_primer_indice (tabla : list (Q * Q)) (r : Q) :
  recorrer tabla r cero64 0%Z = option_map Z.of_nat (primer_indice_spec tabla r).
Proof. exact (recorrer_sufijo [] tabla r). Qed.

Lemma primer_indice_minimo (tabla : list (Q * Q)) (r : Q) (n a i : nat) :
  find (fun i => Qle_flotante r (acumulada tabla (S i))) (seq a n) = Some i ->
  (a <= i < a + n)%nat /\
  Qle_flotante r (acumulada tabla (S i)) = true /\
  (forall j, (a <= j < i)%nat -> Qle_flotante r (acumulada tabla (S j)) = false).
Proof.
  revert a. induction n as [| n IH]; intros a H; cbn [find seq] in H;
    [discriminate |].
  destruct (Qle_flotante r (acumulada tabla (S a))) eqn:Ha.
  - injection H as <-. split; [lia |].
    split; [exact Ha | intros j Hj; lia].
  - destruct (IH (S a) H) as [Hr [Hle Hmin]].
    split; [lia |]. split; [exact Hle |].
    intros j Hj.
    destruct (Nat.eq_dec j a) as [-> | Hne]; [exact Ha | apply Hmin; lia].
Qed.

(** C3.  The categorical draw walks the table accumulating the
    probabilities, as Python does in binary64, and returns the first
    index whose cumulative probability is at least the drawn value [r]:
    the test succeeds at that index and fails at every earlier one.  On
    the program's table a draw of 0.10 gives index 0, 0.20 gives index 1
    and 0.99 gives index 3; the cumulative probabilities compared with
    [r] are the floats 0.15, 0.43999999999999995, 0.76 and 1.0, so that
    a draw equal to the float 0.15 + 0.29 + 0.32 gives index 2.
    [generar_tipo_transaccion] applies this walk to [TRANSACCIONES] with
    [r] drawn from [random.random()]. *)
Theorem generar_tipo_transaccion_primer_indice :
  (forall tabla r,
      recorrer tabla r cero64 0%Z =
      option_map Z.of_nat (primer_indice_spec tabla r)) /\
  (forall tabla r i,
      primer_indice_spec tabla r = Some i ->
      tipo_transaccion tabla r = Z.of_nat i /\
      (i < length tabla)%nat /\
      Qle_flotante r (acumulada tabla (S i)) = true /\
      (forall j, (j < i)%nat -> Qle_flotante r (acumulada tabla (S j)) = false)) /\
  tipo_transaccion [(0.15, 45); (0.29, 75); (0.32, 120); (0.24, 180)] 0.10 = 0%Z /\
  tipo_transaccion [(0.15, 45); (0.29, 75); (0.32, 120); (0.24, 180)] 0.20 = 1%Z /\
  tipo_transaccion [(0.15, 45); (0.29, 75); (0.32, 120); (0.24, 180)] 0.99 = 3%Z /\
  (forall r,
      Qle_flotante r (acumulada TRANSACCIONES 1) = Qle_bool r umbral_1 /\
      Qle_flotante r (acumulada TRANSACCIONES 2) = Qle_bool r umbral_2 /\
      Qle_flotante r (acumulada TRANSACCIONES 3) = Qle_bool r umbral_3 /\
      Qle_flotante r (acumulada TRANSACCIONES 4) = Qle_bool r 1) /\
  umbral_2 < 0.44 /\ 0.76 < umbral_3 /\
  tipo_transaccion TRANSACCIONES umbral_3 = 2%Z /\
  (forall (A : Azar) (g : estado A),
      generar_tipo_transaccion g =
      (tipo_transaccion TRANSACCIONES (fst (random A g)), snd (random A g))).
Proof.
  split; [exact recorrer_primer_indice |].
  split.
  - intros tabla r i Hi. unfold tipo_transaccion.
    rewrite recorrer_primer_indice, Hi. cbn [option_map].
    split; [reflexivity |].
    destruct (primer_indice_minimo tabla r _ _ _ Hi) as [Hr [Hle Hmin]].
    split; [lia |]. split; [exact Hle |].
    intros j Hj. apply Hmin. lia.
  - split; [vm_compute; reflexivity |].
    split; [vm_compute; reflexivity |].
    split; [vm_compute; reflexivity |].
    split.
    + exact Qle_flotante_TRANSACCIONES.
    + split; [reflexivity |]. split; [reflexivity |].
      split; [vm_compute; reflexivity |].
      intros A g. unfold generar_tipo_transaccion.
      destruct (random A g); reflexivity.
Qed.

(** C7.  When the walk exhausts the table without the cumulative
    probability reaching [r], the draw returns the last index,
    [len(tabla) - 1], and raises nothing. *)
Theorem generar_tipo_transaccion_respaldo (tabla : list (Q * Q)) (r : Q) :
  (forall i, (i < length tabla)%nat ->
             Qle_flotante r (acumulada tabla (S i)) = false) ->
  recorrer tabla r cero64 0%Z = None /\
  tipo_transaccion tabla r = (Z.of_nat (length tabla) - 1)%Z.
Proof.
  intros H.
  assert (Hn : recorrer tabla r cero64 0%Z = None).
  { rewrite recorrer_primer_indice. unfold primer_indice_spec.
    destruct (find _ _) as [i |] eqn:Hf; [| reflexivity].
    apply find_some in Hf. destruct Hf as [Hin Hle].
    apply in_seq in Hin.
    rewrite (H i) in Hle by lia. discriminate. }
  split; [exact Hn |]. unfold tipo_transaccion. rewrite Hn. reflexivity.
Qed.

Lemma generar_tipo_transaccion_respaldo_ej :
  (forall i, (i < length tabla_incompleta)%nat ->
             Qle_flotante 0.95 (acumulada tabla_incompleta (S i)) = false) /\
  recorrer tabla_incompleta 0.95 cero64 0%Z = None /\
  tipo_transaccion tabla_incompleta 0.95 = 1%Z.
Proof.
  assert (H : forall i, (i < length tabla_incompleta)%nat ->
                        Qle_flotante 0.95 (acumulada tabla_incompleta (S i)) = false).
  { intros [| [| i]] Hi;
      [vm_compute; reflexivity | vm_compute; reflexivity | simpl in Hi; lia]. }
  split; [exact H |].
  exact (generar_tipo_transaccion_respaldo tabla_incompleta 0.95 H).
Defined.

(** ** Bounds on the recorded waits *)

(** C8.  Every wait recorded by a run lies between 0 and the horizon
    [TIEMPO_SIMULACION], whatever the mode and whatever the [random]
    module draws. *)
Theorem esperas_acotadas (A : Azar) (fuel : nat) (modo : string)
        (g : estado A) (m : Mundo A) :
  correr_banco fuel modo g = Fin m ->
  Forall (fun w => 0 <= w /\ w <= TIEMPO_SIMULACION) (tiempos_espera m).
Proof.
  rewrite correr_banco_bucle. intros Hb.
  destruct (bucle_invariante Inv Inv_step fuel _ _ (Inv_arranque modo g) Hb)
    as [m0 [HI Hs]].
  apply step_StopSimulation in Hs. destruct Hs as [e [Hp _]].
  apply heappop_campos in Hp. destruct Hp as [_ [_ [_ [_ [Ht _]]]]].
  rewrite Ht. exact (inv_esperas m0 HI).
Qed.

Lemma esperas_acotadas_ej :
  exists m,
    @correr_banco AzarRegular 500 "colas_separadas" cinta_a = Fin m /\
    Forall (fun w => 0 <= w /\ w <= TIEMPO_SIMULACION) (tiempos_espera m).
Proof.
  eexists. split.
  - vm_compute. reflexivity.
  - apply (esperas_acotadas AzarRegular 500 "colas_separadas" cinta_a).
    vm_compute. reflexivity.
Defined.

(** ** The summary *)

(** C9.  A run that records no wait reports zero customers, a mean wait
    of 0 and a maximum wait of 0. *)
Theorem resumen_sin_clientes (A : Azar) (fuel : nat) (modo : string)
        (g : estado A) (m : Mundo A) :
  correr_banco fuel modo g = Fin m ->
  tiempos_espera m = [] ->
  simular_banco fuel modo g =
  Fin ({| modo_ := modo; clientes := 0; espera_promedio := 0; espera_maxima := 0 |},
       azar m).
Proof.
  intros Hc He. unfold simular_banco. rewrite Hc, He. reflexivity.
Qed.

(** With the tellers idle and every arrival later than the horizon. *)
Lemma resumen_sin_clientes_ej :
  exists m,
    @correr_banco (AzarCinta [] 30000) 10 "cola_unica" [] = Fin m /\
    tiempos_espera m = [] /\
    @simular_banco (AzarCinta [] 30000) 10 "cola_unica" [] =
    Fin ({| modo_ := "cola_unica"; clientes := 0;
            espera_promedio := 0; espera_maxima := 0 |}, azar m).
Proof.
  eexists. split; [vm_compute; reflexivity |].
  split; [reflexivity |].
  apply (resumen_sin_clientes (AzarCinta [] 30000) 10 "cola_unica" []);
    vm_compute; reflexivity.
Defined.

(** ** Invariants carried by the scheduling operations alone *)

Section Conserva.
Context {A : Azar}.
Variable P : Mundo A -> Prop.
Hypothesis P_schedule :
  forall ev prio d m,
    ev <> Hasta -> 0 <= d -> prio = prioridad_de ev ->
    P m -> P (schedule ev prio d m).
Hypothesis P_con_cajeros : forall rs m, P m -> P (con_cajeros rs m).
Hypothesis P_con_azar : forall g m, P m -> P (con_azar g m).
Hypothesis P_anotar : forall w m, P m -> P (anotar w m).

Lemma conserva_timeout (ev : Evento) (d : Q) (m m' : Mundo A) :
  ev <> Hasta -> prioridad_de ev = NORMAL ->
  timeout ev d m = Some m' -> P m -> P m'.
Proof.
  unfold timeout. intros Hev Hprio Ht H.
  destruct (Qle_bool 0 d) eqn:Hd; [| discriminate].
  injection Ht as <-. apply Qle_bool_iff in Hd.
  apply P_schedule; [assumption | assumption | symmetry; assumption | assumption].
Qed.

Lemma conserva_trigger_put (k : nat) (m : Mundo A) : P m -> P (trigger_put k m).
Proof.
  intros H. unfold trigger_put.
  destruct (nth_error (cajeros m) k) as [r |]; [| exact H].
  destruct (queue r) as [| p resto]; [exact H |].
  destruct (length (users r) <? capacity r)%nat; [| exact H].
  apply P_schedule; [discriminate | lra | reflexivity | apply P_con_cajeros; exact H].
Qed.

Lemma conserva_request (k : nat) (p : Peticion) (m : Mundo A) :
  P m -> P (request k p m).
Proof.
  intros H. unfold request.
  destruct (nth_error (cajeros m) k) as [r |]; [| exact H].
  apply conserva_trigger_put, P_con_cajeros. exact H.
Qed.

Lemma conserva_release (k n : nat) (m : Mundo A) : P m -> P (release k n m).
Proof.
  intros H. unfold release.
  destruct (nth_error (cajeros m) k) as [r |]; [| exact H].
  apply P_schedule; [discriminate | lra | reflexivity | apply P_con_cajeros; exact H].
Qed.

Lemma conserva_proceso_falla (m : Mundo A) : P m -> P (proceso_falla m).
Proof. intros H. apply P_schedule; [discriminate | lra | reflexivity | exact H]. Qed.

Lemma conserva_generador_clientes (modo : string) (i : nat) (m : Mundo A) :
  P m -> P (generador_clientes modo i m).
Proof.
  intros H. unfold generador_clientes.
  destruct (generar_tiempo_llegada (azar m)) as [d g].
  destruct (timeout _ d (con_azar g m)) as [m' |] eqn:Ht.
  - eapply conserva_timeout; [| | exact Ht | apply P_con_azar; exact H];
      [discriminate | reflexivity].
  - apply conserva_proceso_falla, P_con_azar. exact H.
Qed.

Lemma conserva_despachar (modo : string) (i : nat) (m : Mundo A) :
  P m -> P (despachar modo i m).
Proof.
  intros H. unfold despachar, process.
  destruct (modo =? "cola_unica")%string;
    [apply P_schedule; [discriminate | lra | reflexivity | exact H] |].
  destruct (modo =? "colas_separadas")%string;
    [apply P_schedule; [discriminate | lra | reflexivity | exact H] | exact H].
Qed.

Lemma conserva_cliente_servicio (k : nat) (p : Peticion) (m : Mundo A) :
  P m -> P (cliente_servicio k p m).
Proof.
  intros H. unfold cliente_servicio.
  destruct (generar_tiempo_servicio _ _) as [[s g] |].
  - destruct (timeout _ s _) as [m' |] eqn:Ht.
    + eapply conserva_timeout; [| | exact Ht | apply P_con_azar, P_anotar; exact H];
        [discriminate | reflexivity].
    + apply conserva_proceso_falla, conserva_release, P_con_azar, P_anotar. exact H.
  - apply conserva_proceso_falla, conserva_release, P_anotar. exact H.
Qed.

(** The callbacks of any event keep such an invariant. *)
Lemma conserva_callbacks (ev : Evento) (m m' : Mundo A) :
  callbacks ev m = Sigue m' -> P m -> P m'.
Proof.
  intros Hc H. destruct ev; simpl in Hc; try discriminate.
  - injection Hc as <-. apply conserva_generador_clientes. exact H.
  - injection Hc as <-. apply conserva_generador_clientes, conserva_despachar. exact H.
  - destruct d; injection Hc as <-.
    + unfold cliente_cola_unica.
      destruct (generar_tipo_transaccion (azar m)) as [t g].
      apply conserva_request, P_con_azar. exact H.
    + unfold cliente_colas_separadas.
      destruct (generar_tipo_transaccion (azar m)) as [t g].
      destruct (min_por_cola _) as [k |].
      * apply conserva_request, P_con_azar. exact H.
      * apply conserva_proceso_falla, P_con_azar. exact H.
  - injection Hc as <-. apply conserva_cliente_servicio. exact H.
  - injection Hc as <-. unfold cliente_salida, proceso_termina.
    apply P_schedule; [discriminate | lra | reflexivity | apply conserva_release; exact H].
  - injection Hc as <-. apply conserva_trigger_put. exact H.
  - injection Hc as <-. exact H.
Qed.

End Conserva.

(** ** Event ids and the until-event *)

Section Horizonte.
Context {A : Azar}.

Lemma Ids_schedule (ev : Evento) (prio : nat) (d : Q) (m : Mundo A) :
  ev <> Hasta -> 0 <= d -> prio = prioridad_de ev ->
  Ids m -> Ids (schedule ev prio d m).
Proof.
  intros Hev _ _ [He Hc]. split; simpl; [lia |].
  apply heappush_Forall. split; [| exact Hc].
  unfold entrada_ids. simpl. destruct ev; try (left; exact He). congruence.
Qed.

Lemma Ids_step (m m' : Mundo A) : Ids m -> step m = Sigue m' -> Ids m'.
Proof.
  intros H Hs. unfold step in Hs.
  destruct (heappop m) as [[e m1] |] eqn:Hp; [| discriminate].
  apply (conserva_callbacks Ids Ids_schedule) with (ev := evento e) (m := m1);
    try (intros; assumption); try exact Hs.
  apply heappop_campos in Hp. destruct Hp as [Hq [_ [He _]]].
  destruct H as [H2 Hc]. rewrite Hq in Hc. inversion Hc; subst.
  split; [lia | assumption].
Qed.

Lemma Ids_arranque (modo : string) (g : estado A) : Ids (arranque modo g).
Proof.
  split; [simpl; lia |].
  unfold arranque, preparar, process, schedule. cbn [cola now eid].
  rewrite !heappush_Forall. unfold entrada_ids. cbn [evento tiempo prioridad id_evento].
  split; [repeat split; lra |].
  split; [right; reflexivity | constructor].
Qed.

(** An item popped while the until-event is pending lies strictly before
    the horizon. *)
Lemma antes_del_horizonte (m m1 : Mundo A) (e : Entrada) :
  Inv m -> Ids m -> heappop m = Some (e, m1) -> evento e <> Hasta ->
  tiempo e < TIEMPO_SIMULACION.
Proof.
  intros HI [_ Hids] Hp Hne.
  apply heappop_campos in Hp. destruct Hp as [Hq _].
  pose proof (inv_ord m HI) as Ho. rewrite Hq in Ho, Hids.
  apply ordenada_cabeza in Ho. destruct Ho as [_ Hmin].
  destruct (inv_hasta m HI) as [h [Hin [Hh Hht]]].
  rewrite Hq in Hin. destruct Hin as [-> | Hin]; [contradiction |].
  inversion Hids as [| ? ? He Hrest]; subst.
  rewrite Forall_forall in Hmin, Hrest.
  pose proof (Hmin h Hin) as Hle. pose proof (Hrest h Hin) as Hhid.
  unfold entrada_ids in Hhid, He. rewrite Hh in Hhid.
  destruct Hhid as [Hp [Hi _]].
  unfold no_despues in Hle. apply antes_false in Hle.
  destruct Hle as [Hlt | [Heq Hle]]; [lra |].
  assert (Hid : (id_evento e <= 1)%nat).
  { unfold URGENT in Hp. destruct Hle as [Hle | [_ Hle]]; lia. }
  destruct (evento e); try contradiction; destruct He as [He | He];
    try lia; exact He.
Qed.

End Horizonte.

(** ** The run loop *)

Section Alcanzables.
Context {A : Azar}.

Lemma alcanzable_Inv (modo : string) (g : estado A) (m : Mundo A) :
  alcanzable modo g m -> Inv m /\ Ids m.
Proof.
  induction 1 as [| m m' _ [HI HJ] Hs].
  - split; [apply Inv_arranque | apply Ids_arranque].
  - split; [eapply Inv_step | eapply Ids_step]; eassumption.
Qed.

Lemma correr_banco_alcanzable (fuel : nat) (modo : string) (g : estado A)
      (m : Mundo A) :
  correr_banco fuel modo g = Fin m ->
  exists m0, alcanzable modo g m0 /\ step m0 = StopSimulation m.
Proof.
  rewrite correr_banco_bucle. intros Hb.
  apply (bucle_invariante (alcanzable modo g)) with (fuel := fuel) (m := arranque modo g).
  - intros m1 m2 H1 Hs. eapply alc_step; eassumption.
  - apply alc_arranque.
  - exact Hb.
Qed.

Lemma traza_antes_del_horizonte (fuel : nat) (m m' : Mundo A) :
  Inv m -> Ids m -> bucle fuel m = Fin m' ->
  Forall (fun e => evento e = Hasta \/ tiempo e < TIEMPO_SIMULACION) (traza fuel m).
Proof.
  revert m. induction fuel as [| fuel IH]; intros m HI HJ Hb; simpl in *.
  - discriminate.
  - destruct (cola m) as [| e resto] eqn:Hq; [constructor |].
    assert (Hp : heappop m = Some (e, mkMundo (tiempo e) resto (eid m) (cajeros m)
                                             (tiempos_espera m) (azar m))).
    { unfold heappop. rewrite Hq. reflexivity. }
    constructor.
    + destruct (evento e) eqn:He; try (left; reflexivity); right;
        eapply antes_del_horizonte; try eassumption; congruence.
    + destruct (step m) as [m1 | m1 |] eqn:Hs; try constructor.
      apply IH; [eapply Inv_step | eapply Ids_step | ]; eassumption.
Qed.

End Alcanzables.

(** With one arrival every 600 seconds the 48th arrival falls on the
    horizon, 28800, and is left on the heap; at time 1200 the Initialize
    event of the second customer (id 7) is processed before the end of
    the first customer's service (id 6). *)
Lemma run_horizonte_contraejemplo :
  ~ horizonte_procesado AzarRegular /\ ~ desempate_por_insercion AzarRegular.
Proof.
  split.
  - intros H.
    assert (E : exists m e,
               @correr_banco AzarRegular 500 "cola_unica" [] = Fin m /\
               In e (cola m) /\ tiempo e == TIEMPO_SIMULACION).
    { vm_compute. eexists. eexists.
      split; [reflexivity |]. split; [left; reflexivity | reflexivity]. }
    destruct E as (m & e & E1 & E2 & E3).
    specialize (H _ _ _ _ E1 e E2). lra.
  - intros H.
    assert (E : exists t1 e1 e2 t2,
               traza 10 (@arranque AzarRegular "cola_unica" []) = t1 ++ e1 :: e2 :: t2 /\
               tiempo e1 == tiempo e2 /\ id_evento e1 = 7%nat /\ id_evento e2 = 6%nat).
    { exists (firstn 5 (traza 10 (@arranque AzarRegular "cola_unica" []))).
      vm_compute. eexists. eexists. eexists.
      split; [reflexivity |]. repeat split. }
    destruct E as (t1 & e1 & e2 & t2 & E1 & E2 & E3 & E4).
    specialize (H _ _ _ _ _ _ _ E1 E2). lia.
Qed.

(** C6, as the program has it.  Each step pops the item that is least
    for (time, priority, event id), sets the clock to its time and runs
    its callbacks; the loop stops exactly when the popped item is the
    until-event.  When [env.run] returns the clock is at the horizon,
    every item processed before the until-event lies strictly before the
    horizon, and every item left on the heap lies at the horizon or
    later. *)
Theorem run_hasta_el_horizonte (A : Azar) (modo : string) (g : estado A) :
  (forall m e m1,
      alcanzable modo g m -> heappop m = Some (e, m1) ->
      (forall e', In e' (cola m1) ->
         tiempo e < tiempo e' \/
         (tiempo e == tiempo e' /\
          ((prioridad e < prioridad e')%nat \/
           (prioridad e = prioridad e' /\ (id_evento e <= id_evento e')%nat)))) /\
      now m <= tiempo e /\ now m1 = tiempo e /\
      step m = callbacks (evento e) m1 /\
      (evento e = Hasta <-> step m = StopSimulation m1)) /\
  (forall fuel m,
      correr_banco fuel modo g = Fin m ->
      now m == TIEMPO_SIMULACION /\
      Forall (fun e => evento e = Hasta \/ tiempo e < TIEMPO_SIMULACION)
             (traza fuel (arranque modo g)) /\
      Forall (fun e => TIEMPO_SIMULACION <= tiempo e) (cola m)).
Proof.
  split.
  - intros m e m1 Halc Hp.
    destruct (alcanzable_Inv modo g m Halc) as [HI HJ].
    pose proof (heappop_campos m m1 e Hp) as [Hq [Hnow _]].
    pose proof (inv_ord m HI) as Ho. rewrite Hq in Ho.
    apply ordenada_cabeza in Ho. destruct Ho as [_ Hmin].
    rewrite Forall_forall in Hmin.
    split; [| split; [| split; [exact Hnow | split]]].
    + intros e' He'. specialize (Hmin e' He').
      unfold no_despues in Hmin. apply antes_false in Hmin.
      destruct Hmin as [Hlt | [Heq Hle]]; [left; exact Hlt |].
      right. split; [lra |]. destruct Hle as [Hle | [Hle1 Hle2]]; [left; exact Hle |].
      right. split; [congruence | exact Hle2].
    + pose proof (inv_cola m HI) as Hc. rewrite Hq in Hc.
      inversion Hc as [| ? ? [Hle _] _]; subst. exact Hle.
    + unfold step. rewrite Hp. reflexivity.
    + unfold step. rewrite Hp. split.
      * intros ->. reflexivity.
      * destruct (evento e); simpl; try discriminate; try reflexivity.
        destruct d; discriminate.
  - intros fuel m Hc.
    destruct (correr_banco_alcanzable fuel modo g m Hc) as [m0 [Halc Hs]].
    destruct (alcanzable_Inv modo g m0 Halc) as [HI [_ HJ]].
    apply step_StopSimulation in Hs. destruct Hs as [h [Hp Hh]].
    pose proof (heappop_campos m0 m h Hp) as [Hq [Hnow _]].
    rewrite Hq in HJ. inversion HJ as [| ? ? Hhid _]; subst.
    unfold entrada_ids in Hhid. rewrite Hh in Hhid. destruct Hhid as [_ [_ Hht]].
    split; [rewrite Hnow; exact Hht |].
    split.
    + rewrite correr_banco_bucle in Hc.
      eapply traza_antes_del_horizonte;
        [apply Inv_arranque | apply Ids_arranque | exact Hc].
    + pose proof (inv_ord m0 HI) as Ho. rewrite Hq in Ho.
      apply ordenada_cabeza in Ho. destruct Ho as [_ Hmin].
      rewrite Forall_forall in *. intros e He.
      specialize (Hmin e He). apply no_despues_tiempo in Hmin. lra.
Qed.

(** ** The recorded waits and the processed grants *)

(** Unfolds the scheduling operations down to [schedule] and the field
    updates, splitting on every test on the way. *)
Ltac desplegar :=
  unfold cliente_cola_unica, cliente_colas_separadas, cliente_servicio,
    cliente_salida, generador_clientes, despachar, request, release,
    trigger_put, proceso_falla, proceso_termina, process, timeout in *;
  repeat match goal with
         | |- context [Qle_bool ?a ?b] => destruct (Qle_bool a b) eqn:?
         | |- context [match ?x with _ => _ end] => destruct x eqn:?
         | |- context [if ?x then _ else _] => destruct x eqn:?
         end.

Section Esperas.
Context {A : Azar}.

Lemma tiempos_espera_callbacks (ev : Evento) (m m' : Mundo A) :
  callbacks ev m = Sigue m' ->
  tiempos_espera m' =
  tiempos_espera m ++
  match ev with Request _ p => [now m - llegada p] | _ => [] end.
Proof.
  intros Hc. destruct ev; simpl in Hc; try discriminate;
    try (destruct d); injection Hc as <-;
    desplegar; simpl; rewrite ?app_nil_r; reflexivity.
Qed.

Lemma tiempos_espera_step (m m1 m' : Mundo A) (e : Entrada) :
  heappop m = Some (e, m1) -> step m = Sigue m' ->
  tiempos_espera m' = tiempos_espera m ++ espera_de e.
Proof.
  intros Hp Hs. unfold step in Hs. rewrite Hp in Hs.
  apply tiempos_espera_callbacks in Hs.
  apply heappop_campos in Hp. destruct Hp as [_ [Hn [_ [_ [Ht _]]]]].
  rewrite Hs, Ht, Hn. unfold espera_de. destruct (evento e); reflexivity.
Qed.

Lemma tiempos_espera_bucle (fuel : nat) (m m' : Mundo A) :
  bucle fuel m = Fin m' ->
  tiempos_espera m' = tiempos_espera m ++ esperas_de (traza fuel m).
Proof.
  revert m. induction fuel as [| fuel IH]; intros m Hb; simpl in Hb.
  - discriminate.
  - simpl. destruct (step m) as [m1 | m1 |] eqn:Hs.
    + unfold step in Hs. destruct (heappop m) as [[e m0] |] eqn:Hp; [| discriminate].
      pose proof (heappop_campos m m0 e Hp) as [Hq _]. rewrite Hq.
      assert (Hs' : step m = Sigue m1) by (unfold step; rewrite Hp; exact Hs).
      rewrite (IH m1 Hb), (tiempos_espera_step m m0 m1 e Hp Hs').
      unfold esperas_de. simpl. rewrite app_assoc. reflexivity.
    + injection Hb as <-.
      apply step_StopSimulation in Hs. destruct Hs as [e [Hp He]].
      pose proof (heappop_campos m m1 e Hp) as [Hq [_ [_ [_ [Ht _]]]]].
      rewrite Hq, Ht. unfold esperas_de, espera_de. simpl. rewrite He.
      simpl. rewrite app_nil_r. reflexivity.
    + discriminate.
Qed.

Lemma tiempos_espera_correr (fuel : nat) (modo : string) (g : estado A) (m : Mundo A) :
  correr_banco fuel modo g = Fin m ->
  tiempos_espera m = esperas_de (traza fuel (arranque modo g)).
Proof.
  rewrite correr_banco_bucle. intros Hb.
  apply tiempos_espera_bucle in Hb. exact Hb.
Qed.

End Esperas.

(** ** Properties of every processed item *)

Lemma traza_invariante {A : Azar} (P : Mundo A -> Prop) (Q : Entrada -> Prop) :
  (forall m m', P m -> step m = Sigue m' -> P m') ->
  (forall m e m1, P m -> heappop m = Some (e, m1) -> Q e) ->
  forall fuel m, P m -> Forall Q (traza fuel m).
Proof.
  intros Hstep Hq. induction fuel as [| fuel IH]; intros m HP; simpl.
  - constructor.
  - destruct (cola m) as [| e resto] eqn:Hc; [constructor |].
    constructor.
    + eapply Hq; [exact HP |]. unfold heappop. rewrite Hc. reflexivity.
    + destruct (step m) as [m1 | m1 |] eqn:Hs; try constructor.
      apply IH. eapply Hstep; eassumption.
Qed.

(** ** An unrecognised mode *)

Section ModoDesconocido.
Context {A : Azar}.
Variable modo : string.
Hypothesis no_unica : modo <> "cola_unica"%string.
Hypothesis no_separadas : modo <> "colas_separadas"%string.

Local Abbreviation evento_generador := (evento_generador modo).
Local Abbreviation sin_clientes := (sin_clientes modo).

Lemma construir_cajeros_desconocido :
  construir_cajeros modo = repeat (mkResource 1 [] []) NUM_CAJEROS.
Proof.
  unfold construir_cajeros.
  destruct (String.eqb_spec modo "cola_unica"); [contradiction | reflexivity].
Qed.

Lemma despachar_desconocido (i : nat) (m : Mundo A) : despachar modo i m = m.
Proof.
  unfold despachar.
  destruct (String.eqb_spec modo "cola_unica"); [contradiction |].
  destruct (String.eqb_spec modo "colas_separadas"); [contradiction | reflexivity].
Qed.

Lemma sin_clientes_generador (i : nat) (m : Mundo A) :
  sin_clientes m -> sin_clientes (generador_clientes modo i m).
Proof.
  intros [Hc [Ht Hr]]. unfold sin_clientes.
  desplegar; simpl; (split; [| split; assumption]);
    apply heappush_Forall; (split; [simpl; auto | exact Hc]).
Qed.

Lemma sin_clientes_step (m m' : Mundo A) :
  sin_clientes m -> step m = Sigue m' -> sin_clientes m'.
Proof.
  intros [Hc [Ht Hr]] Hs. unfold step in Hs.
  destruct (heappop m) as [[e m1] |] eqn:Hp; [| discriminate].
  pose proof (heappop_campos m m1 e Hp) as [Hq [_ [_ [Hr1 [Ht1 _]]]]].
  rewrite Hq in Hc. inversion Hc as [| ? ? He Hc1]; subst.
  assert (H1 : sin_clientes m1).
  { split; [exact Hc1 | split; congruence]. }
  destruct (evento e) eqn:Hev; simpl in He, Hs; try contradiction; try discriminate.
  - injection Hs as <-. subst modo0. apply sin_clientes_generador. exact H1.
  - injection Hs as <-. subst modo0. rewrite despachar_desconocido.
    apply sin_clientes_generador. exact H1.
Qed.

Lemma sin_clientes_arranque (g : estado A) : sin_clientes (arranque modo g).
Proof.
  split; [| split; [reflexivity | apply construir_cajeros_desconocido]].
  unfold arranque, preparar, process, schedule. cbn [cola].
  rewrite !heappush_Forall. simpl. auto.
Qed.

End ModoDesconocido.



(** ** What the driver returns *)




(** ** Invariants stated item by item *)

Section Todas.
Context {A : Azar}.
Variables (QE : Evento -> Prop) (QP : Peticion -> Prop).
Hypothesis QP_QE : forall k p, QP p -> QE (Request k p).
Hypothesis QE_fallo : QE ProcesoFallo.
Hypothesis QE_fin : QE ProcesoFin.
Hypothesis QE_release : forall k, QE (Release k).
Hypothesis QE_servicio : forall k n, QE (TimeoutServicio k n).

Local Abbreviation todas := (todas QE QP).
Local Abbreviation nuevos := (nuevos QE QP).

Lemma todas_schedule (ev : Evento) (prio : nat) (d : Q) (m : Mundo A) :
  QE ev -> todas m -> todas (schedule ev prio d m).
Proof.
  intros Hev [Hc Hr]. split; simpl; [| exact Hr].
  apply heappush_Forall. split; [exact Hev | exact Hc].
Qed.

Lemma todas_trigger_put (k : nat) (m : Mundo A) : todas m -> todas (trigger_put k m).
Proof.
  intros H. unfold trigger_put.
  destruct (nth_error (cajeros m) k) as [r |] eqn:Hk; [| exact H].
  destruct (queue r) as [| p resto] eqn:Hq; [exact H |].
  destruct (length (users r) <? capacity r)%nat; [| exact H].
  destruct H as [Hc Hr].
  pose proof (nth_error_Forall _ _ _ _ Hr Hk) as Hrk. simpl in Hrk.
  rewrite Hq in Hrk. inversion Hrk as [| ? ? Hp Hresto]; subst.
  apply todas_schedule; [apply QP_QE; exact Hp |].
  split; simpl; [exact Hc |].
  apply reemplazar_Forall; [exact Hresto | exact Hr].
Qed.

Lemma todas_request (k : nat) (p : Peticion) (m : Mundo A) :
  QP p -> todas m -> todas (request k p m).
Proof.
  intros Hp H. unfold request.
  destruct (nth_error (cajeros m) k) as [r |] eqn:Hk; [| exact H].
  apply todas_trigger_put. destruct H as [Hc Hr].
  pose proof (nth_error_Forall _ _ _ _ Hr Hk) as Hrk. simpl in Hrk.
  split; simpl; [exact Hc |].
  apply reemplazar_Forall; [| exact Hr]. simpl.
  apply Forall_app. split; [exact Hrk | constructor; [exact Hp | constructor]].
Qed.

Lemma todas_release (k n : nat) (m : Mundo A) : todas m -> todas (release k n m).
Proof.
  intros H. unfold release.
  destruct (nth_error (cajeros m) k) as [r |] eqn:Hk; [| exact H].
  destruct H as [Hc Hr].
  pose proof (nth_error_Forall _ _ _ _ Hr Hk) as Hrk. simpl in Hrk.
  apply todas_schedule; [apply QE_release |].
  split; simpl; [exact Hc |].
  apply reemplazar_Forall; [exact Hrk | exact Hr].
Qed.

Lemma todas_generador_clientes (modo : string) (i : nat) (m : Mundo A) :
  QE (TimeoutGenerador modo i) -> todas m -> todas (generador_clientes modo i m).
Proof.
  intros Hev H. unfold generador_clientes.
  destruct (generar_tiempo_llegada (azar m)) as [d g].
  unfold timeout. destruct (Qle_bool 0 d).
  - apply todas_schedule; [exact Hev | exact H].
  - apply todas_schedule; [exact QE_fallo | exact H].
Qed.

Lemma todas_despachar (modo : string) (i : nat) (m : Mundo A) :
  (forall d, QE (InitCliente d i)) -> todas m -> todas (despachar modo i m).
Proof.
  intros Hev H. unfold despachar, process.
  destruct (modo =? "cola_unica")%string; [apply todas_schedule; [apply Hev | exact H] |].
  destruct (modo =? "colas_separadas")%string;
    [apply todas_schedule; [apply Hev | exact H] | exact H].
Qed.

Lemma todas_cliente_servicio (k : nat) (p : Peticion) (m : Mundo A) :
  todas m -> todas (cliente_servicio k p m).
Proof.
  intros H. unfold cliente_servicio.
  assert (Ha : todas (anotar (now m - llegada p) m)) by exact H.
  destruct (generar_tiempo_servicio _ _) as [[s g] |].
  - unfold timeout. destruct (Qle_bool 0 s).
    + apply todas_schedule; [apply QE_servicio | exact Ha].
    + apply todas_schedule; [exact QE_fallo |]. apply todas_release. exact Ha.
  - apply todas_schedule; [exact QE_fallo |]. apply todas_release. exact Ha.
Qed.

Lemma todas_callbacks (ev : Evento) (m m' : Mundo A) :
  callbacks ev m = Sigue m' -> nuevos ev (now m) -> todas m -> todas m'.
Proof.
  intros Hc Hn H. destruct ev; simpl in Hc, Hn; try discriminate.
  - injection Hc as <-. apply todas_generador_clientes; assumption.
  - injection Hc as <-. destruct Hn as [Hn1 Hn2].
    apply todas_generador_clientes; [exact Hn2 |].
    apply todas_despachar; assumption.
  - destruct d; injection Hc as <-.
    + unfold cliente_cola_unica.
      destruct (generar_tipo_transaccion (azar m)) as [t g].
      apply todas_request; [apply Hn | exact H].
    + unfold cliente_colas_separadas.
      destruct (generar_tipo_transaccion (azar m)) as [t g].
      destruct (min_por_cola _) as [k |].
      * apply todas_request; [apply Hn | exact H].
      * apply todas_schedule; [exact QE_fallo | exact H].
  - injection Hc as <-. apply todas_cliente_servicio. exact H.
  - injection Hc as <-. unfold cliente_salida, proceso_termina.
    apply todas_schedule; [exact QE_fin |]. apply todas_release. exact H.
  - injection Hc as <-. apply todas_trigger_put. exact H.
  - injection Hc as <-. exact H.
Qed.

Lemma todas_heappop (m m1 : Mundo A) (e : Entrada) :
  heappop m = Some (e, m1) -> todas m -> QE (evento e) /\ todas m1.
Proof.
  intros Hp [Hc Hr].
  pose proof (heappop_campos m m1 e Hp) as [Hq [_ [_ [Hr1 _]]]].
  rewrite Hq in Hc. inversion Hc; subst.
  split; [assumption |]. split; [assumption | rewrite Hr1; exact Hr].
Qed.

End Todas.

Lemma todas_impl {A : Azar} (QE QE' : Evento -> Prop) (QP QP' : Peticion -> Prop)
      (m : Mundo A) :
  (forall e, In e (cola m) -> QE (evento e) -> QE' (evento e)) ->
  (forall p, QP p -> QP' p) ->
  todas QE QP m -> todas QE' QP' m.
Proof.
  intros HE HP [Hc Hr]. split.
  - rewrite Forall_forall in *. intros e He. apply HE; [exact He | apply Hc; exact He].
  - eapply Forall_impl; [| exact Hr]. intros r Hq.
    eapply Forall_impl; [| exact Hq]. exact HP.
Qed.

(** ** Counting items *)

Section Sumas.
Context {A : Azar}.
Variables (wE : Evento -> nat) (wP : Peticion -> nat) (wN : nat -> nat).
Hypothesis w_request : forall k p, (wE (Request k p) <= wP p)%nat.
Hypothesis w_nombre : forall p, (wP p <= wN (nombre p))%nat.
Hypothesis w_fallo : wE ProcesoFallo = 0%nat.
Hypothesis w_fin : wE ProcesoFin = 0%nat.
Hypothesis w_release : forall k, wE (Release k) = 0%nat.
Hypothesis w_servicio : forall k n, wE (TimeoutServicio k n) = 0%nat.

Local Abbreviation suma_cola := (suma_cola wE).
Local Abbreviation suma_cajeros := (suma_cajeros wP).
Local Abbreviation suma := (suma wE wP).
Local Abbreviation peso_inicio := (peso_inicio wE).
Local Abbreviation ganancia := (ganancia wE wN).

Lemma suma_cola_heappush (x : Entrada) (q : list Entrada) :
  suma_cola (heappush x q) = (wE (evento x) + suma_cola q)%nat.
Proof.
  clear w_request w_nombre w_fallo w_fin w_release w_servicio.
  unfold suma_cola. induction q as [| y q IH]; simpl.
  - reflexivity.
  - destruct (antes x y); simpl; [reflexivity |]. rewrite IH. lia.
Qed.

Lemma suma_cajeros_reemplazar (k : nat) (r x : Resource) (rs : list Resource) :
  nth_error rs k = Some r ->
  (suma_cajeros (reemplazar k x rs) + list_sum (map wP (queue r)) =
   suma_cajeros rs + list_sum (map wP (queue x)))%nat.
Proof.
  clear w_request w_nombre w_fallo w_fin w_release w_servicio.
  unfold suma_cajeros. revert k. induction rs as [| y rs IH]; intros [| k] H; simpl in *.
  - discriminate.
  - discriminate.
  - injection H as ->. lia.
  - specialize (IH k H). lia.
Qed.

Lemma suma_schedule (ev : Evento) (prio : nat) (d : Q) (m : Mundo A) :
  suma (schedule ev prio d m) = (wE ev + suma m)%nat.
Proof.
  clear w_request w_nombre w_fallo w_fin w_release w_servicio.
  unfold suma. simpl. rewrite suma_cola_heappush. simpl. lia. Qed.

Lemma suma_trigger_put (k : nat) (m : Mundo A) :
  (suma (trigger_put k m) <= suma m)%nat.
Proof.
  unfold trigger_put.
  destruct (nth_error (cajeros m) k) as [r |] eqn:Hk; [| lia].
  destruct (queue r) as [| p resto] eqn:Hq; [lia |].
  destruct (length (users r) <? capacity r)%nat; [| lia].
  rewrite suma_schedule. unfold suma. simpl.
  pose proof (suma_cajeros_reemplazar k r
                (mkResource (capacity r) (users r ++ [nombre p]) resto)
                (cajeros m) Hk) as Hw.
  rewrite Hq in Hw. simpl in Hw. pose proof (w_request k p). lia.
Qed.

Lemma suma_request (k : nat) (p : Peticion) (m : Mundo A) :
  (suma (request k p m) <= suma m + wP p)%nat.
Proof.
  unfold request.
  destruct (nth_error (cajeros m) k) as [r |] eqn:Hk; [| lia].
  etransitivity; [apply suma_trigger_put |].
  unfold suma. simpl.
  pose proof (suma_cajeros_reemplazar k r
                (mkResource (capacity r) (users r) (queue r ++ [p]))
                (cajeros m) Hk) as Hw.
  simpl in Hw. rewrite map_app, list_sum_app in Hw. simpl in Hw. lia.
Qed.

Lemma suma_release (k n : nat) (m : Mundo A) : suma (release k n m) = suma m.
Proof.
  unfold release.
  destruct (nth_error (cajeros m) k) as [r |] eqn:Hk; [| reflexivity].
  rewrite suma_schedule, w_release. unfold suma. simpl.
  pose proof (suma_cajeros_reemplazar k r
                (mkResource (capacity r) (quitar n (users r)) (queue r))
                (cajeros m) Hk) as Hw.
  simpl in Hw. lia.
Qed.

Lemma suma_generador_clientes (modo : string) (i : nat) (m : Mundo A) :
  (suma (generador_clientes modo i m) <= suma m + wE (TimeoutGenerador modo i))%nat.
Proof.
  unfold generador_clientes.
  destruct (generar_tiempo_llegada (azar m)) as [d g].
  unfold timeout, proceso_falla. destruct (Qle_bool 0 d); rewrite suma_schedule.
  - unfold suma. simpl. lia.
  - rewrite w_fallo. unfold suma. simpl. lia.
Qed.

Lemma suma_despachar (modo : string) (i : nat) (m : Mundo A) :
  (suma (despachar modo i m) <= suma m + peso_inicio i)%nat.
Proof.
  unfold despachar, process, peso_inicio.
  destruct (modo =? "cola_unica")%string; [rewrite suma_schedule; lia |].
  destruct (modo =? "colas_separadas")%string; [rewrite suma_schedule; lia | lia].
Qed.

Lemma suma_cliente_servicio (k : nat) (p : Peticion) (m : Mundo A) :
  (suma (cliente_servicio k p m) <= suma m)%nat.
Proof.
  unfold cliente_servicio.
  destruct (generar_tiempo_servicio _ _) as [[s g] |].
  - unfold timeout, proceso_falla. destruct (Qle_bool 0 s); rewrite suma_schedule.
    + rewrite w_servicio. unfold suma. simpl. lia.
    + rewrite w_fallo, suma_release. unfold suma. simpl. lia.
  - unfold proceso_falla. rewrite suma_schedule, w_fallo, suma_release.
    unfold suma. simpl. lia.
Qed.

Lemma suma_callbacks (ev : Evento) (m m' : Mundo A) :
  callbacks ev m = Sigue m' -> (suma m' <= suma m + ganancia ev)%nat.
Proof.
  intros Hc. destruct ev; simpl in Hc; try discriminate.
  - injection Hc as <-. apply suma_generador_clientes.
  - injection Hc as <-. simpl.
    pose proof (suma_generador_clientes modo (S i) (despachar modo (S i) m)).
    pose proof (suma_despachar modo (S i) m). lia.
  - destruct d; injection Hc as <-; simpl.
    + unfold cliente_cola_unica.
      destruct (generar_tipo_transaccion (azar m)) as [t g].
      etransitivity; [apply suma_request |].
      pose proof (w_nombre (mkPeticion n (now m) t)) as Hw. simpl in Hw.
      unfold suma. simpl. lia.
    + unfold cliente_colas_separadas.
      destruct (generar_tipo_transaccion (azar m)) as [t g].
      destruct (min_por_cola _) as [k |].
      * etransitivity; [apply suma_request |].
        pose proof (w_nombre (mkPeticion n (now m) t)) as Hw. simpl in Hw.
        unfold suma. simpl. lia.
      * unfold proceso_falla. rewrite suma_schedule, w_fallo. unfold suma. simpl. lia.
  - injection Hc as <-. simpl. pose proof (suma_cliente_servicio k p m). lia.
  - injection Hc as <-. simpl. unfold cliente_salida, proceso_termina.
    rewrite suma_schedule, w_fin, suma_release. lia.
  - injection Hc as <-. simpl. pose proof (suma_trigger_put k m). lia.
  - injection Hc as <-. simpl. lia.
Qed.

Lemma suma_heappop (m m1 : Mundo A) (e : Entrada) :
  heappop m = Some (e, m1) -> suma m = (wE (evento e) + suma m1)%nat.
Proof.
  clear w_request w_nombre w_fallo w_fin w_release w_servicio. intros Hp.
  pose proof (heappop_campos m m1 e Hp) as [Hq [_ [_ [Hr _]]]].
  unfold suma, suma_cola. rewrite Hq, Hr. simpl. lia.
Qed.

Lemma suma_cola_cero (q : list Entrada) :
  suma_cola q = 0%nat -> Forall (fun e => wE (evento e) = 0%nat) q.
Proof.
  clear w_request w_nombre w_fallo w_fin w_release w_servicio.
  unfold suma_cola. induction q as [| e q IH]; simpl; intros H.
  - constructor.
  - constructor; [lia | apply IH; lia].
Qed.

End Sumas.

(** ** Histories: the items processed so far *)

Section Historias.
Context {A : Azar}.

Lemma bucle_historia (P : list Entrada -> Mundo A -> Prop) :
  (forall h m e m1 m',
      P h m -> heappop m = Some (e, m1) -> step m = Sigue m' -> P (h ++ [e]) m') ->
  forall fuel h m m',
    P h m -> bucle fuel m = Fin m' ->
    exists t m0 e,
      traza fuel m = t ++ [e] /\ P (h ++ t) m0 /\
      heappop m0 = Some (e, m') /\ evento e = Hasta.
Proof.
  intros Hstep. induction fuel as [| fuel IH]; intros h m m' HP Hb; simpl in Hb.
  - discriminate.
  - simpl. destruct (step m) as [m1 | m1 |] eqn:Hs.
    + pose proof Hs as Hs'. unfold step in Hs'.
      destruct (heappop m) as [[e m0] |] eqn:Hp; [| discriminate].
      pose proof (heappop_campos m m0 e Hp) as [Hq _]. rewrite Hq.
      destruct (IH (h ++ [e]) m1 m' (Hstep h m e m0 m1 HP Hp Hs) Hb)
        as [t [mf [ef [Ht [HPf [Hpf Hef]]]]]].
      exists (e :: t), mf, ef. rewrite Ht. split; [reflexivity |].
      rewrite <- app_assoc in HPf. split; [exact HPf | split; assumption].
    + injection Hb as <-.
      apply step_StopSimulation in Hs. destruct Hs as [e [Hp He]].
      pose proof (heappop_campos m m1 e Hp) as [Hq _]. rewrite Hq.
      exists [], m, e. rewrite app_nil_r. repeat split; assumption.
    + discriminate.
Qed.

Lemma snoc_medio {T : Type} (h t1 t2 : list T) (x e : T) :
  h ++ [x] = t1 ++ e :: t2 ->
  (t2 = [] /\ e = x /\ t1 = h) \/ (exists t2', t2 = t2' ++ [x] /\ h = t1 ++ e :: t2').
Proof.
  destruct t2 as [| y t2] using rev_ind; intros H.
  - left. apply app_inj_tail in H. destruct H as [-> ->]. auto.
  - right. exists t2.
    change (t1 ++ e :: t2 ++ [y]) with (t1 ++ (e :: t2) ++ [y]) in H.
    rewrite app_assoc in H. apply app_inj_tail in H. destruct H as [-> ->].
    split; reflexivity.
Qed.

Lemma iniciado_mas (h : list Entrada) (e : Entrada) (p : Peticion) :
  iniciado h p -> iniciado (h ++ [e]) p.
Proof.
  intros [e0 [d [Hin He]]]. exists e0, d. split; [| exact He].
  apply in_or_app. left. exact Hin.
Qed.

Lemma llegadas_step (h : list Entrada) (m m1 m' : Mundo A) (e : Entrada) :
  llegadas h m -> heappop m = Some (e, m1) -> step m = Sigue m' ->
  llegadas (h ++ [e]) m'.
Proof.
  intros [Ht Hc] Hp Hs. unfold step in Hs. rewrite Hp in Hs.
  destruct (todas_heappop _ _ m m1 e Hp Ht) as [He Ht1].
  pose proof (heappop_campos m m1 e Hp) as [_ [Hnow _]].
  split.
  - apply (todas_callbacks (QE_ini (h ++ [e])) (iniciado (h ++ [e])))
      with (ev := evento e) (m := m1); try exact I; try exact Hs.
    + intros k p Hi. exact Hi.
    + intros k. exact I.
    + intros k n. exact I.
    + destruct (evento e) eqn:Hev; simpl; try exact I; try (split; intros; exact I).
      intros ti. exists e, d. split; [apply in_or_app; right; left; reflexivity |].
      split; [exact Hev | simpl; symmetry; exact Hnow].
    + eapply todas_impl; [| | exact Ht1].
      * intros e0 _ H0. destruct (evento e0); try exact I.
        apply iniciado_mas. exact H0.
      * intros p. apply iniciado_mas.
  - intros t1 x t2 k p Heq Hx.
    apply snoc_medio in Heq. destruct Heq as [[_ [-> ->]] | [t2' [_ ->]]].
    + rewrite Hx in He. exact He.
    + eapply Hc; [reflexivity | exact Hx].
Qed.

Lemma llegadas_arranque (modo : string) (g : estado A) :
  llegadas [] (arranque modo g).
Proof.
  split.
  - split.
    + unfold arranque, preparar, process, schedule. cbn [cola].
      rewrite !heappush_Forall. simpl. auto.
    + simpl. unfold construir_cajeros.
      destruct (modo =? "cola_unica")%string; simpl; repeat constructor.
  - intros t1 e t2 k p Heq _. destruct t1; discriminate.
Qed.

End Historias.

(** ** One grant per customer *)

Section Unicidad.
Context {A : Azar}.

Lemma suma_gen_callbacks (ev : Evento) (m m' : Mundo A) :
  callbacks ev m = Sigue m' -> (suma_gen m' <= suma_gen m + w_gen ev)%nat.
Proof.
  intros Hc. unfold suma_gen.
  pose proof (@suma_callbacks A w_gen (fun _ => 0%nat) (fun _ => 0%nat)
                (fun _ _ => Nat.le_refl 0) (fun _ => Nat.le_refl 0)
                eq_refl eq_refl (fun _ => eq_refl) (fun _ _ => eq_refl)
                ev m m' Hc) as H.
  destruct ev; simpl in *; lia.
Qed.

Lemma suma_nom_callbacks (n : nat) (ev : Evento) (m m' : Mundo A) :
  callbacks ev m = Sigue m' ->
  (suma_nom n m' <= suma_nom n m +
                    match ev with
                    | TimeoutGenerador _ i => if (S i =? n)%nat then 1 else 0
                    | InitCliente _ n' => if (n' =? n)%nat then 1 else 0
                    | _ => 0
                    end)%nat.
Proof.
  intros Hc. unfold suma_nom.
  pose proof (@suma_callbacks A (w_nom n) (wP_nom n) (wN_nom n)
                (fun _ _ => Nat.le_refl _) (fun _ => Nat.le_refl _)
                eq_refl eq_refl (fun _ => eq_refl) (fun _ _ => eq_refl)
                ev m m' Hc) as H.
  destruct ev; simpl in *; try lia.
  - unfold peso_inicio in H. simpl in H.
    destruct (S i =? n)%nat; simpl in H; lia.
  - unfold wN_nom in H. exact H.
Qed.

Lemma veces_snoc (n : nat) (h : list Entrada) (e : Entrada) :
  veces n (h ++ [e]) =
  (veces n h + match evento e with
               | Request _ p => if (nombre p =? n)%nat then 1 else 0
               | _ => 0
               end)%nat.
Proof.
  unfold veces, concedidos. rewrite flat_map_app, count_occ_app. simpl.
  rewrite app_nil_r.
  destruct (evento e); simpl; try reflexivity.
  destruct (Nat.eq_dec (nombre p) n) as [Heq | Hne].
  - apply Nat.eqb_eq in Heq. rewrite Heq. reflexivity.
  - apply Nat.eqb_neq in Hne. rewrite Hne. reflexivity.
Qed.

Lemma unicidad_step (h : list Entrada) (m m1 m' : Mundo A) (e : Entrada) :
  unicidad h m -> heappop m = Some (e, m1) -> step m = Sigue m' ->
  unicidad (h ++ [e]) m'.
Proof.
  intros [c [Hg [Ht Hn]]] Hp Hs. unfold step in Hs. rewrite Hp in Hs.
  destruct (todas_heappop _ _ m m1 e Hp Ht) as [He Ht1].
  pose proof (suma_heappop w_gen (fun _ => 0%nat) m m1 e Hp) as Hg1.
  fold (suma_gen m) in Hg1. fold (suma_gen m1) in Hg1.
  pose proof (suma_gen_callbacks _ _ _ Hs) as Hg2.
  assert (Hn1 : forall n, suma_nom n m = (w_nom n (evento e) + suma_nom n m1)%nat).
  { intros n. apply suma_heappop. exact Hp. }
  assert (Hn2 := fun n => suma_nom_callbacks n _ _ _ Hs).
  assert (Hv := fun n => veces_snoc n h e).
  destruct (evento e) eqn:Hev; simpl in Hs; try discriminate.
  - (* InitGenerador *)
    exists c. simpl in He, Hg1, Hg2. split; [lia |]. split.
    + apply (todas_callbacks (QE_gen c) (fun _ => True))
        with (ev := InitGenerador modo) (m := m1); simpl; auto.
    + intros n. specialize (Hn n). specialize (Hn1 n). specialize (Hn2 n).
      rewrite Hv. simpl in *. lia.
  - (* TimeoutGenerador *)
    simpl in He. subst i. exists (S c). simpl in Hg1, Hg2. split; [lia |]. split.
    + assert (Ht1' : todas (QE_gen (S c)) (fun _ => True) m1).
      { assert (Hz : suma_cola w_gen (cola m1) = 0%nat).
        { unfold suma_gen, suma in Hg1, Hg. lia. }
        apply suma_cola_cero in Hz. rewrite Forall_forall in Hz.
        eapply todas_impl; [| | exact Ht1]; [| auto].
        intros e0 Hin _. specialize (Hz e0 Hin).
        destruct (evento e0); simpl in *; try exact I; discriminate Hz. }
      apply (todas_callbacks (QE_gen (S c)) (fun _ => True))
        with (ev := TimeoutGenerador modo c) (m := m1); simpl; auto.
    + intros n. specialize (Hn n). specialize (Hn1 n). specialize (Hn2 n).
      rewrite Hv. cbn [w_nom] in Hn1.
      destruct (Nat.eqb_spec (S c) n) as [<- | Hne].
      * replace (S c <=? c)%nat with false in Hn
          by (symmetry; apply Nat.leb_gt; lia).
        rewrite Nat.leb_refl. lia.
      * destruct (Nat.leb_spec n c) as [Hle | Hgt].
        -- replace (n <=? S c)%nat with true by (symmetry; apply Nat.leb_le; lia). lia.
        -- replace (n <=? S c)%nat with false by (symmetry; apply Nat.leb_gt; lia). lia.
  - (* InitCliente *)
    exists c. simpl in Hg1, Hg2. split; [lia |]. split.
    + apply (todas_callbacks (QE_gen c) (fun _ => True))
        with (ev := InitCliente d n) (m := m1); simpl; auto.
    + intros n0. specialize (Hn n0). specialize (Hn1 n0). specialize (Hn2 n0).
      rewrite Hv. simpl in *. lia.
  - (* Request *)
    exists c. simpl in Hg1, Hg2. split; [lia |]. split.
    + apply (todas_callbacks (QE_gen c) (fun _ => True))
        with (ev := Request k p) (m := m1); simpl; auto.
    + intros n0. specialize (Hn n0). specialize (Hn1 n0). specialize (Hn2 n0).
      rewrite Hv. simpl in *. lia.
  - exists c. simpl in Hg1, Hg2. split; [lia |]. split.
    + apply (todas_callbacks (QE_gen c) (fun _ => True))
        with (ev := TimeoutServicio k n) (m := m1); simpl; auto.
    + intros n0. specialize (Hn n0). specialize (Hn1 n0). specialize (Hn2 n0).
      rewrite Hv. simpl in *. lia.
  - exists c. simpl in Hg1, Hg2. split; [lia |]. split.
    + apply (todas_callbacks (QE_gen c) (fun _ => True))
        with (ev := Release k) (m := m1); simpl; auto.
    + intros n0. specialize (Hn n0). specialize (Hn1 n0). specialize (Hn2 n0).
      rewrite Hv. simpl in *. lia.
  - exists c. simpl in Hg1, Hg2. split; [lia |]. split.
    + apply (todas_callbacks (QE_gen c) (fun _ => True))
        with (ev := ProcesoFin) (m := m1); simpl; auto.
    + intros n0. specialize (Hn n0). specialize (Hn1 n0). specialize (Hn2 n0).
      rewrite Hv. simpl in *. lia.
Qed.

Lemma unicidad_arranque (modo : string) (g : estado A) :
  unicidad [] (arranque modo g).
Proof.
  exists 0%nat.
  assert (Hc : forall wP, suma_cajeros wP (construir_cajeros modo) = 0%nat).
  { intros wP. unfold construir_cajeros.
    destruct (modo =? "cola_unica")%string; reflexivity. }
  split; [| split].
  - unfold suma_gen, suma, arranque, preparar, process, schedule. cbn [cola cajeros].
    rewrite !suma_cola_heappush, Hc. simpl. lia.
  - split.
    + unfold arranque, preparar, process, schedule. cbn [cola].
      rewrite !heappush_Forall. simpl. auto.
    + simpl. unfold construir_cajeros.
      destruct (modo =? "cola_unica")%string; simpl; repeat constructor.
  - intros n. unfold suma_nom, suma, arranque, preparar, process, schedule.
    cbn [cola cajeros]. rewrite !suma_cola_heappush, Hc. simpl.
    destruct (n <=? 0)%nat; lia.
Qed.

Lemma unicidad_NoDup (h : list Entrada) (m : Mundo A) :
  unicidad h m -> NoDup (concedidos h).
Proof.
  intros [c [_ [_ Hn]]]. apply (NoDup_count_occ Nat.eq_dec). intros n.
  specialize (Hn n). unfold veces in Hn. destruct (n <=? c)%nat; lia.
Qed.

End Unicidad.

(** ** One wait per grant *)

Lemma correr_banco_historia {A : Azar} (fuel : nat) (modo : string)
      (g : estado A) (m : Mundo A) :
  correr_banco fuel modo g = Fin m ->
  NoDup (concedidos (traza fuel (arranque modo g))) /\
  concesiones_iniciadas (traza fuel (arranque modo g)).
Proof.
  rewrite correr_banco_bucle. intros Hb.
  destruct (bucle_historia (fun h (m : Mundo A) => llegadas h m /\ unicidad h m)) with
    (fuel := fuel) (h := @nil Entrada) (m := arranque modo g) (m' := m)
    as [t [m0 [e [Ht [[[_ Hl] Hu] [_ He]]]]]].
  - intros h m1 e m2 m3 [H1 H2] Hp Hs.
    split; [eapply llegadas_step | eapply unicidad_step]; eassumption.
  - split; [apply llegadas_arranque | apply unicidad_arranque].
  - exact Hb.
  - simpl in Hl, Hu. rewrite Ht. split.
    + unfold concedidos. rewrite flat_map_app. simpl. rewrite He. simpl.
      rewrite app_nil_r. exact (unicidad_NoDup t m0 Hu).
    + intros t1 x t2 k p Heq Hx.
      apply snoc_medio in Heq. destruct Heq as [[_ [-> _]] | [t2' [_ ->]]].
      * congruence.
      * eapply Hl; [reflexivity | exact Hx].
Qed.

Lemma esperas_concedidos_length (t : list Entrada) :
  length (esperas_de t) = length (concedidos t).
Proof.
  unfold esperas_de, concedidos, espera_de.
  induction t as [| x t IH]; simpl; [reflexivity |].
  rewrite !length_app, IH. destruct (evento x); reflexivity.
Qed.

(** C5.  Processing a granted request appends exactly one wait, the
    time of the grant minus the customer's arrival time, and only then
    requests the service hold; processing any other item appends
    nothing.  Hence the waits returned by a run are, in order, those of
    the grants processed before the horizon; no customer is granted
    twice; each grant follows the start of its customer, whose time is
    the recorded arrival time. *)
Theorem muestra_por_concesion (A : Azar) (modo : string) (g : estado A) :
  (forall m e m1 m',
      alcanzable modo g m -> heappop m = Some (e, m1) -> step m = Sigue m' ->
      match evento e with
      | Request k p =>
          tiempos_espera m' = tiempos_espera m ++ [tiempo e - llegada p] /\
          (forall s g',
              generar_tiempo_servicio (tipo p) (azar m) = Some (s, g') ->
              0 <= s ->
              m' = schedule (TimeoutServicio k (nombre p)) NORMAL s
                     (con_azar g' (anotar (tiempo e - llegada p) m1)))
      | _ => tiempos_espera m' = tiempos_espera m
      end) /\
  (forall fuel m,
      correr_banco fuel modo g = Fin m ->
      tiempos_espera m = esperas_de (traza fuel (arranque modo g)) /\
      length (tiempos_espera m) = length (concedidos (traza fuel (arranque modo g))) /\
      NoDup (concedidos (traza fuel (arranque modo g))) /\
      concesiones_iniciadas (traza fuel (arranque modo g)) /\
      Forall (fun e => evento e = Hasta \/ tiempo e < TIEMPO_SIMULACION)
             (traza fuel (arranque modo g))).
Proof.
  split.
  - intros m e m1 m' Halc Hp Hs.
    pose proof (tiempos_espera_step m m1 m' e Hp Hs) as Ht.
    unfold espera_de in Ht.
    pose proof (heappop_campos m m1 e Hp) as [_ [Hnow [_ [_ [_ Haz]]]]].
    destruct (evento e) eqn:Hev; try (rewrite Ht, app_nil_r; reflexivity).
    + split; [exact Ht |].
      intros s g' Hg Hs0. unfold step in Hs. rewrite Hp, Hev in Hs. simpl in Hs.
      injection Hs as <-. unfold cliente_servicio. simpl.
      rewrite Haz, Hg. rewrite Hnow. rewrite timeout_Some by exact Hs0. reflexivity.
  - intros fuel m Hc.
    pose proof (tiempos_espera_correr fuel modo g m Hc) as Ht.
    destruct (correr_banco_historia fuel modo g m Hc) as [Hn Hi].
    split; [exact Ht |]. split; [| split; [exact Hn | split; [exact Hi |]]].
    + rewrite Ht. apply esperas_concedidos_length.
    + rewrite correr_banco_bucle in Hc.
      eapply traza_antes_del_horizonte;
        [apply Inv_arranque | apply Ids_arranque | exact Hc].
Qed.

(** ** Shortest-queue routing *)

(** [min_desde] scans the resources [i], [i+1], ... of a pool whose
    queue lengths are given by [largo_de]; [mejor] is the first minimum
    among the resources before [i]. *)
Lemma min_desde_spec (largo_de : nat -> nat) (rs : list Resource) (i mejor : nat) :
  (forall j r, nth_error rs j = Some r -> largo_de (i + j)%nat = length (queue r)) ->
  (mejor < i)%nat ->
  (forall j, (j < i)%nat -> (largo_de mejor <= largo_de j)%nat) ->
  (forall j, (j < mejor)%nat -> (largo_de mejor < largo_de j)%nat) ->
  let k := min_desde rs i mejor (largo_de mejor) in
  (k < i + length rs)%nat /\
  (forall j, (j < i + length rs)%nat -> (largo_de k <= largo_de j)%nat) /\
  (forall j, (j < k)%nat -> (largo_de k < largo_de j)%nat).
Proof.
  revert i mejor. induction rs as [| r rs IH]; intros i mejor Hrs Hm Hle Hlt; simpl.
  - rewrite Nat.add_0_r. split; [exact Hm | split; assumption].
  - assert (Hr : largo_de i = length (queue r)).
    { rewrite <- (Hrs 0%nat r eq_refl). f_equal. lia. }
    assert (Hrs' : forall j r', nth_error rs j = Some r' ->
                                largo_de (S i + j)%nat = length (queue r')).
    { intros j r' Hj. rewrite <- (Hrs (S j) r' Hj). f_equal. lia. }
    rewrite <- Hr.
    destruct (Nat.ltb_spec (largo_de i) (largo_de mejor)) as [Hlt' | Hge].
    + destruct (IH (S i) i Hrs') as [H1 [H2 H3]].
      * lia.
      * intros j Hj. destruct (Nat.eq_dec j i) as [-> | Hne]; [lia |].
        specialize (Hle j ltac:(lia)). lia.
      * intros j Hj. specialize (Hle j Hj). lia.
      * split; [lia | split; [| exact H3]].
        intros j Hj. apply H2. lia.
    + destruct (IH (S i) mejor Hrs') as [H1 [H2 H3]].
      * lia.
      * intros j Hj. destruct (Nat.eq_dec j i) as [-> | Hne]; [lia |].
        apply Hle. lia.
      * exact Hlt.
      * split; [lia | split; [| exact H3]].
        intros j Hj. apply H2. lia.
Qed.

Lemma min_por_cola_spec (rs : list Resource) :
  rs <> [] ->
  exists k,
    min_por_cola rs = Some k /\ (k < length rs)%nat /\
    (forall j, (j < length rs)%nat -> (largo_cola rs k <= largo_cola rs j)%nat) /\
    (forall j, (j < k)%nat -> (largo_cola rs k < largo_cola rs j)%nat).
Proof.
  destruct rs as [| r rs]; [congruence |]. intros _.
  eexists. split; [reflexivity |].
  change (length (queue r)) with (largo_cola (r :: rs) 0).
  apply (min_desde_spec (largo_cola (r :: rs)) rs 1 0).
  - intros j r' Hj. unfold largo_cola. simpl.
    rewrite (nth_error_nth _ _ _ Hj). reflexivity.
  - lia.
  - intros j Hj. replace j with 0%nat by lia. lia.
  - intros j Hj. lia.
Qed.

Section Rutas.
Context {A : Azar}.
Variables n k : nat.

Lemma en_cajero_schedule (ev : Evento) (prio : nat) (d : Q) (m : Mundo A) :
  en_cajero (schedule ev prio d m) n k ->
  en_cajero m n k \/ evento_de ev n k.
Proof.
  intros [H | [e [Hin He]]].
  - left. left. exact H.
  - simpl in Hin. apply heappush_In in Hin. destruct Hin as [-> | Hin].
    + right. exact He.
    + left. right. exists e. split; assumption.
Qed.

Lemma en_cola_reemplazar (k0 : nat) (r x : Resource) (rs : list Resource) :
  nth_error rs k0 = Some r ->
  en_cola (reemplazar k0 x rs) n k ->
  (k = k0 /\ exists p, In p (queue x) /\ nombre p = n) \/ (k <> k0 /\ en_cola rs n k).
Proof.
  intros Hk0 [r' [p [Hk [Hin Hn]]]].
  rewrite reemplazar_nth_error in Hk.
  destruct (Nat.eqb_spec k k0) as [-> | Hne].
  - left. split; [reflexivity |].
    destruct (k0 <? length rs)%nat; [| discriminate].
    injection Hk as <-. exists p. split; assumption.
  - right. split; [exact Hne |]. exists r', p. repeat split; assumption.
Qed.

Lemma en_cajero_trigger_put (k0 : nat) (m : Mundo A) :
  en_cajero (trigger_put k0 m) n k -> en_cajero m n k.
Proof.
  unfold trigger_put.
  destruct (nth_error (cajeros m) k0) as [r |] eqn:Hk; [| auto].
  destruct (queue r) as [| p resto] eqn:Hq; [auto |].
  destruct (length (users r) <? capacity r)%nat; [| auto].
  intros H. apply en_cajero_schedule in H. destruct H as [[H | H] | H].
  - simpl in H. apply (en_cola_reemplazar k0 r) in H; [| exact Hk].
    destruct H as [[-> [p' [Hin Hn]]] | [_ H]].
    + left. exists r, p'. rewrite Hq. simpl in Hin.
      repeat split; [exact Hk | right; exact Hin | exact Hn].
    + left. exact H.
  - right. exact H.
  - destruct H as [H | [p' [Heq Hn]]]; [discriminate |].
    injection Heq as <- <-. left. exists r, p. rewrite Hq.
    repeat split; [exact Hk | left; reflexivity | exact Hn].
Qed.

Lemma en_cajero_request (k0 : nat) (p : Peticion) (m : Mundo A) :
  en_cajero (request k0 p m) n k ->
  en_cajero m n k \/ (k = k0 /\ nombre p = n).
Proof.
  unfold request.
  destruct (nth_error (cajeros m) k0) as [r |] eqn:Hk; [| auto].
  intros H. apply en_cajero_trigger_put in H. destruct H as [H | H].
  - simpl in H. apply (en_cola_reemplazar k0 r) in H; [| exact Hk].
    destruct H as [[-> [p' [Hin Hn]]] | [_ H]].
    + simpl in Hin. apply in_app_or in Hin. destruct Hin as [Hin | [<- | []]].
      * left. left. exists r, p'. repeat split; assumption.
      * right. split; [reflexivity | exact Hn].
    + left. left. exact H.
  - left. right. exact H.
Qed.

Lemma en_cajero_release (k0 n0 : nat) (m : Mundo A) :
  en_cajero (release k0 n0 m) n k -> en_cajero m n k.
Proof.
  unfold release.
  destruct (nth_error (cajeros m) k0) as [r |] eqn:Hk; [| auto].
  intros H. apply en_cajero_schedule in H. destruct H as [[H | H] | H].
  - simpl in H. apply (en_cola_reemplazar k0 r) in H; [| exact Hk].
    destruct H as [[-> [p' [Hin Hn]]] | [_ H]].
    + left. exists r, p'. repeat split; assumption.
    + left. exact H.
  - right. exact H.
  - destruct H as [H | [p' [Heq _]]]; discriminate.
Qed.

Lemma en_cajero_otro (ev : Evento) (prio : nat) (d : Q) (m : Mundo A) :
  (forall k' n', ev <> TimeoutServicio k' n') ->
  (forall k' p, ev <> Request k' p) ->
  en_cajero (schedule ev prio d m) n k -> en_cajero m n k.
Proof.
  intros H1 H2 H. apply en_cajero_schedule in H.
  destruct H as [H | [H | [p [H _]]]]; [exact H | |].
  - exfalso. exact (H1 _ _ H).
  - exfalso. exact (H2 _ _ H).
Qed.

Lemma en_cajero_generador_clientes (modo : string) (i : nat) (m : Mundo A) :
  en_cajero (generador_clientes modo i m) n k -> en_cajero m n k.
Proof.
  unfold generador_clientes.
  destruct (generar_tiempo_llegada (azar m)) as [d g].
  unfold timeout, proceso_falla. destruct (Qle_bool 0 d); intros H;
    apply en_cajero_otro in H; try discriminate; exact H.
Qed.

Lemma en_cajero_despachar (modo : string) (i : nat) (m : Mundo A) :
  en_cajero (despachar modo i m) n k -> en_cajero m n k.
Proof.
  unfold despachar, process.
  destruct (modo =? "cola_unica")%string;
    [intros H; apply en_cajero_otro in H; try discriminate; exact H |].
  destruct (modo =? "colas_separadas")%string;
    [intros H; apply en_cajero_otro in H; try discriminate; exact H | auto].
Qed.

Lemma en_cajero_cliente_servicio (k0 : nat) (p : Peticion) (m : Mundo A) :
  en_cajero (cliente_servicio k0 p m) n k ->
  en_cajero m n k \/ (k = k0 /\ nombre p = n).
Proof.
  unfold cliente_servicio.
  destruct (generar_tiempo_servicio _ _) as [[s g] |].
  - unfold timeout, proceso_falla. destruct (Qle_bool 0 s); intros H.
    + apply en_cajero_schedule in H. destruct H as [H | [H | [p' [H _]]]].
      * left. exact H.
      * injection H as <- <-. right. split; reflexivity.
      * discriminate.
    + apply en_cajero_otro in H; try discriminate.
      apply en_cajero_release in H. left. exact H.
  - unfold proceso_falla. intros H.
    apply en_cajero_otro in H; try discriminate.
    apply en_cajero_release in H. left. exact H.
Qed.

(** After the callbacks of an event, customer [n] is bound to teller
    [k] only if it was before, or the event is the customer's grant at
    [k], or the event is the customer's start and [k] is the teller
    chosen there. *)
Lemma en_cajero_callbacks (ev : Evento) (m m' : Mundo A) :
  callbacks ev m = Sigue m' ->
  en_cajero m' n k ->
  en_cajero m n k \/
  match ev with
  | InitCliente Unica n' => n' = n /\ k = 0%nat
  | InitCliente Separadas n' => n' = n /\ min_por_cola (cajeros m) = Some k
  | Request k' p => k' = k /\ nombre p = n
  | _ => False
  end.
Proof.
  intros Hc H. destruct ev; simpl in Hc; try discriminate.
  - injection Hc as <-. left. apply en_cajero_generador_clientes in H. exact H.
  - injection Hc as <-. left.
    apply en_cajero_generador_clientes, en_cajero_despachar in H. exact H.
  - destruct d; injection Hc as <-.
    + unfold cliente_cola_unica in H.
      destruct (generar_tipo_transaccion (azar m)) as [t g].
      apply en_cajero_request in H. destruct H as [H | [-> H]].
      * left. exact H.
      * right. split; [exact H | reflexivity].
    + unfold cliente_colas_separadas in H.
      destruct (generar_tipo_transaccion (azar m)) as [t g].
      simpl in H. destruct (min_por_cola (cajeros m)) as [k0 |].
      * apply en_cajero_request in H. destruct H as [H | [-> H]].
        -- left. exact H.
        -- right. split; [exact H | reflexivity].
      * left. apply en_cajero_otro in H; try discriminate. exact H.
  - injection Hc as <-. apply en_cajero_cliente_servicio in H.
    destruct H as [H | [-> H]]; [left; exact H | right; split; [reflexivity | exact H]].
  - injection Hc as <-. left. unfold cliente_salida, proceso_termina in H.
    apply en_cajero_otro in H; try discriminate.
    apply en_cajero_release in H. exact H.
  - injection Hc as <-. left. apply en_cajero_trigger_put in H. exact H.
  - injection Hc as <-. left. exact H.
Qed.

Lemma en_cajero_step (m m1 m' : Mundo A) (e : Entrada) :
  heappop m = Some (e, m1) -> step m = Sigue m' ->
  en_cajero m' n k ->
  en_cajero m n k \/
  (evento e = InitCliente Unica n /\ k = 0%nat) \/
  (evento e = InitCliente Separadas n /\ min_por_cola (cajeros m) = Some k).
Proof.
  intros Hp Hs H. unfold step in Hs. rewrite Hp in Hs.
  pose proof (heappop_campos m m1 e Hp) as [Hq [_ [_ [Hr _]]]].
  assert (Hm1 : en_cajero m1 n k -> en_cajero m n k).
  { intros [H1 | [e1 [Hin He1]]].
    - left. rewrite <- Hr. exact H1.
    - right. exists e1. rewrite Hq. split; [right; exact Hin | exact He1]. }
  apply (en_cajero_callbacks _ _ _ Hs) in H. destruct H as [H | H].
  - left. apply Hm1. exact H.
  - destruct (evento e) eqn:Hev; try contradiction.
    + destruct d; destruct H as [-> H]; right.
      * left. split; [reflexivity | exact H].
      * right. split; [reflexivity | rewrite <- Hr; exact H].
    + destruct H as [-> H]. left. right. exists e. rewrite Hq.
      split; [left; reflexivity |]. right. exists p. split; assumption.
Qed.

End Rutas.

Section RutasAdelante.
Context {A : Azar}.

Lemma cajeros_callbacks_length (ev : Evento) (m m' : Mundo A) :
  callbacks ev m = Sigue m' -> length (cajeros m') = length (cajeros m).
Proof.
  intros Hc. destruct ev; simpl in Hc; try discriminate;
    try (destruct d); injection Hc as <-;
    desplegar; cbn [cajeros schedule con_cajeros con_azar anotar];
    rewrite ?reemplazar_length; cbn [cajeros schedule con_cajeros con_azar anotar];
    rewrite ?reemplazar_length; reflexivity.
Qed.

Lemma alcanzable_cajeros (modo : string) (g : estado A) (m : Mundo A) :
  alcanzable modo g m -> length (cajeros m) = length (construir_cajeros modo).
Proof.
  induction 1 as [| m m' _ IH Hs]; [reflexivity |].
  unfold step in Hs. destruct (heappop m) as [[e m1] |] eqn:Hp; [| discriminate].
  pose proof (heappop_campos m m1 e Hp) as [_ [_ [_ [Hr _]]]].
  rewrite (cajeros_callbacks_length _ _ _ Hs), Hr. exact IH.
Qed.

Lemma en_cajero_trigger_put_adelante (n k k0 : nat) (m : Mundo A) :
  en_cajero m n k -> en_cajero (trigger_put k0 m) n k.
Proof.
  intros H. unfold trigger_put.
  destruct (nth_error (cajeros m) k0) as [r |] eqn:Hk; [| exact H].
  destruct (queue r) as [| p resto] eqn:Hq; [exact H |].
  destruct (length (users r) <? capacity r)%nat; [| exact H].
  destruct H as [[r' [p' [Hk' [Hin Hn]]]] | [e [Hin He]]].
  - destruct (Nat.eq_dec k k0) as [-> | Hne].
    + rewrite Hk in Hk'. injection Hk' as <-. rewrite Hq in Hin.
      destruct Hin as [<- | Hin].
      * right. eexists. split; [apply heappush_In; left; reflexivity |].
        right. exists p. split; [reflexivity | exact Hn].
      * left. eexists. exists p'. simpl. rewrite reemplazar_nth_error, Nat.eqb_refl.
        assert (Hlt : (k0 <? length (cajeros m))%nat = true).
        { apply Nat.ltb_lt. apply nth_error_Some. congruence. }
        rewrite Hlt. split; [reflexivity | split; [exact Hin | exact Hn]].
    + left. exists r', p'. simpl. rewrite reemplazar_nth_error.
      destruct (Nat.eqb_spec k k0); [contradiction |].
      repeat split; assumption.
  - right. exists e. split; [| exact He].
    simpl. apply heappush_In. right. exact Hin.
Qed.

Lemma en_cajero_request_adelante (k : nat) (p : Peticion) (m : Mundo A) :
  (k < length (cajeros m))%nat -> en_cajero (request k p m) (nombre p) k.
Proof.
  intros Hlt. unfold request.
  destruct (nth_error (cajeros m) k) as [r |] eqn:Hk.
  - apply en_cajero_trigger_put_adelante. left.
    eexists. exists p. simpl. rewrite reemplazar_nth_error, Nat.eqb_refl.
    apply Nat.ltb_lt in Hlt. rewrite Hlt.
    split; [reflexivity |]. split; [| reflexivity].
    simpl. apply in_or_app. right. left. reflexivity.
  - apply nth_error_None in Hk. lia.
Qed.

End RutasAdelante.

(** ** A customer starts as soon as it is created *)

Lemma heappush_cabeza (x : Entrada) (q : list Entrada) :
  (forall y, In y q -> antes x y = true) -> heappush x q = x :: q.
Proof.
  destruct q as [| y q]; simpl; intros H; [reflexivity |].
  rewrite (H y (or_introl eq_refl)). reflexivity.
Qed.

Section Inmediato.
Context {A : Azar}.

Lemma Clases_step (m m' : Mundo A) : Clases m -> step m = Sigue m' -> Clases m'.
Proof.
  intros H Hs. unfold step in Hs.
  destruct (heappop m) as [[e m1] |] eqn:Hp; [| discriminate].
  apply (conserva_callbacks Clases) with (ev := evento e) (m := m1);
    try (intros; assumption); try exact Hs.
  - intros ev prio d m0 _ _ Hprio H0. unfold Clases. simpl.
    apply heappush_Forall. split; [exact Hprio | exact H0].
  - apply heappop_campos in Hp. destruct Hp as [Hq _].
    unfold Clases in *. rewrite Hq in H. inversion H; assumption.
Qed.

Lemma Clases_arranque (modo : string) (g : estado A) : Clases (arranque modo g).
Proof.
  unfold Clases, arranque, preparar, process, schedule. cbn [cola].
  rewrite !heappush_Forall. repeat split. constructor.
Qed.

(** The heap after the generator has created a customer and suspended
    again: the customer's Initialize event is at the head. *)
Lemma inicio_en_cabeza (modo : string) (d : Disciplina) (i : nat) (m1 : Mundo A) :
  (forall y, In y (cola m1) ->
     now m1 <= tiempo y /\ entrada_clase y /\ sin_inicio (evento y) /\
     (evento y = Hasta -> now m1 < tiempo y)) ->
  exists resto,
    cola (generador_clientes modo i (process (InitCliente d i) m1)) =
      mkEntrada (now m1 + 0) URGENT (eid m1) (InitCliente d i) :: resto /\
    Forall (fun x => sin_inicio (evento x)) resto.
Proof.
  intros Hq.
  set (ini := mkEntrada (now m1 + 0) URGENT (eid m1) (InitCliente d i)).
  assert (Hcab : heappush ini (cola m1) = ini :: cola m1).
  { apply heappush_cabeza. intros y Hy.
    destruct (Hq y Hy) as [Ht [Hc [Hs Hh]]]. apply antes_spec. simpl.
    unfold entrada_clase in Hc.
    destruct (evento y) eqn:Hev; simpl in Hs, Hc; try contradiction;
      try (destruct (Qlt_le_dec (now m1) (tiempo y));
           [left; lra | right; split; [lra | left; unfold URGENT, NORMAL in *; lia]]).
    left. specialize (Hh eq_refl). lra. }
  assert (Hsin : Forall (fun x => sin_inicio (evento x)) (cola m1)).
  { rewrite Forall_forall. intros y Hy. apply (Hq y Hy). }
  assert (Hgen : forall ev dl,
             sin_inicio ev -> 0 <= dl ->
             exists resto,
               heappush (mkEntrada (now m1 + dl) NORMAL (S (eid m1)) ev)
                        (heappush ini (cola m1)) = ini :: resto /\
               Forall (fun x => sin_inicio (evento x)) resto).
  { intros ev dl Hev Hdl. rewrite Hcab. simpl.
    assert (Ha : antes (mkEntrada (now m1 + dl) NORMAL (S (eid m1)) ev) ini = false).
    { apply antes_false. simpl.
      destruct (Qlt_le_dec 0 dl); [left; lra |].
      right. split; [lra | left; unfold URGENT, NORMAL; lia]. }
    rewrite Ha. eexists. split; [reflexivity |].
    apply heappush_Forall. split; [exact Hev | exact Hsin]. }
  unfold generador_clientes, process.
  destruct (generar_tiempo_llegada _) as [dl g].
  unfold timeout, proceso_falla. destruct (Qle_bool 0 dl) eqn:Hdl.
  - apply Qle_bool_iff in Hdl. cbn [schedule cola con_azar now eid].
    apply Hgen; [exact I | exact Hdl].
  - cbn [schedule cola con_azar now eid]. apply Hgen; [exact I | lra].
Qed.

Lemma resto_sin_inicio_step (m m' : Mundo A) :
  Inv m -> Ids m -> Clases m -> resto_sin_inicio m ->
  step m = Sigue m' -> resto_sin_inicio m'.
Proof.
  intros HI HJ HC HK Hs. pose proof Hs as Hs'. unfold step in Hs.
  destruct (heappop m) as [[e m1] |] eqn:Hp; [| discriminate].
  pose proof (heappop_campos m m1 e Hp) as [Hq [Hnow _]].
  unfold resto_sin_inicio in HK. rewrite Hq in HK. simpl in HK.
  assert (Ht1 : todas sin_inicio (fun _ => True) m1).
  { split; [exact HK |]. rewrite Forall_forall. intros r _.
    rewrite Forall_forall. intros p _. exact I. }
  assert (Htodo : forall m0 : Mundo A,
             todas sin_inicio (fun _ => True) m0 -> resto_sin_inicio m0).
  { intros m0 [Hc _]. unfold resto_sin_inicio.
    destruct (cola m0); [constructor | inversion Hc; assumption]. }
  destruct (evento e) eqn:Hev; simpl in Hs; try discriminate.
  - apply Htodo.
    apply (todas_callbacks sin_inicio (fun _ => True))
      with (ev := InitGenerador modo) (m := m1); simpl; auto.
  - injection Hs as <-. unfold despachar.
    assert (Hhay : forall d,
               resto_sin_inicio
                 (generador_clientes modo (S i) (process (InitCliente d (S i)) m1))).
    { intros d.
      destruct (inicio_en_cabeza modo d (S i) m1) as [resto [Hc Hr]].
      - intros y Hy.
        destruct (Inv_heappop m m1 e HI Hp) as [HI1 _]; [congruence |].
        pose proof (inv_cola m1 HI1) as Hc1. rewrite Forall_forall in Hc1.
        destruct (Hc1 y Hy) as [Hle _].
        unfold Clases in HC. rewrite Hq in HC. inversion HC as [| ? ? _ HC1]; subst.
        rewrite Forall_forall in HC1, HK.
        split; [exact Hle |]. split; [apply HC1; exact Hy |].
        split; [apply HK; exact Hy |].
        intros Hh.
        assert (Hlt : tiempo e < TIEMPO_SIMULACION).
        { apply (antes_del_horizonte m m1 e HI HJ Hp). congruence. }
        destruct HJ as [_ HJ]. rewrite Hq in HJ.
        inversion HJ as [| ? ? _ HJ1]; subst. rewrite Forall_forall in HJ1.
        pose proof (HJ1 y Hy) as Hy1. unfold entrada_ids in Hy1. rewrite Hh in Hy1.
        destruct Hy1 as [_ [_ Hyt]].
        rewrite Hnow. lra.
      - unfold resto_sin_inicio. rewrite Hc. exact Hr. }
    destruct (modo =? "cola_unica")%string; [apply Hhay |].
    destruct (modo =? "colas_separadas")%string; [apply Hhay |].
    apply Htodo. apply todas_generador_clientes; try exact I. exact Ht1.
  - apply Htodo.
    apply (todas_callbacks sin_inicio (fun _ => True))
      with (ev := InitCliente d n) (m := m1); simpl; auto.
  - apply Htodo.
    apply (todas_callbacks sin_inicio (fun _ => True))
      with (ev := Request k p) (m := m1); simpl; auto.
  - apply Htodo.
    apply (todas_callbacks sin_inicio (fun _ => True))
      with (ev := TimeoutServicio k n) (m := m1); simpl; auto.
  - apply Htodo.
    apply (todas_callbacks sin_inicio (fun _ => True))
      with (ev := Release k) (m := m1); simpl; auto.
  - apply Htodo.
    apply (todas_callbacks sin_inicio (fun _ => True))
      with (ev := ProcesoFin) (m := m1); simpl; auto.
Qed.

Lemma alcanzable_inmediato (modo : string) (g : estado A) (m : Mundo A) :
  alcanzable modo g m -> Clases m /\ resto_sin_inicio m.
Proof.
  induction 1 as [| m m' Halc [HC HK] Hs].
  - split; [apply Clases_arranque |].
    unfold resto_sin_inicio, arranque, preparar, process, schedule. cbn [cola].
    vm_compute. repeat constructor.
  - destruct (alcanzable_Inv modo g m Halc) as [HI HJ].
    split; [eapply Clases_step; eassumption |].
    eapply resto_sin_inicio_step; eassumption.
Qed.

(** When the generator wakes up in a recognised mode, the Initialize
    event of the customer it creates is the next item processed, at the
    same clock value, and the resources are as the generator left
    them. *)
Lemma inicio_inmediato (modo : string) (g : estado A) (m m1 m' : Mundo A)
      (e : Entrada) (modo' : string) (i : nat) (d : Disciplina) :
  alcanzable modo g m -> heappop m = Some (e, m1) ->
  evento e = TimeoutGenerador modo' i ->
  despachar modo' (S i) m1 = process (InitCliente d (S i)) m1 ->
  step m = Sigue m' ->
  exists resto,
    cola m' = mkEntrada (tiempo e + 0) URGENT (eid m) (InitCliente d (S i)) :: resto /\
    cajeros m' = cajeros m.
Proof.
  intros Halc Hp Hev Hdesp Hs.
  destruct (alcanzable_Inv modo g m Halc) as [HI HJ].
  destruct (alcanzable_inmediato modo g m Halc) as [HC HK].
  pose proof (heappop_campos m m1 e Hp) as [Hq [Hnow [Heid [Hr _]]]].
  unfold step in Hs. rewrite Hp, Hev in Hs. simpl in Hs. injection Hs as <-.
  rewrite Hdesp.
  destruct (inicio_en_cabeza modo' d (S i) m1) as [resto [Hc _]].
  - intros y Hy.
    destruct (Inv_heappop m m1 e HI Hp) as [HI1 _]; [congruence |].
    pose proof (inv_cola m1 HI1) as Hc1. rewrite Forall_forall in Hc1.
    destruct (Hc1 y Hy) as [Hle _].
    unfold Clases in HC. rewrite Hq in HC. inversion HC as [| ? ? _ HC1]; subst.
    unfold resto_sin_inicio in HK. rewrite Hq in HK. simpl in HK.
    rewrite Forall_forall in HC1, HK.
    split; [exact Hle |]. split; [apply HC1; exact Hy |].
    split; [apply HK; exact Hy |].
    intros Hh.
    assert (Hlt : tiempo e < TIEMPO_SIMULACION).
    { apply (antes_del_horizonte m m1 e HI HJ Hp). congruence. }
    destruct HJ as [_ HJ]. rewrite Hq in HJ.
    inversion HJ as [| ? ? _ HJ1]; subst. rewrite Forall_forall in HJ1.
    pose proof (HJ1 y Hy) as Hy1. unfold entrada_ids in Hy1. rewrite Hh in Hy1.
    destruct Hy1 as [_ [_ Hyt]].
    rewrite Hnow. lra.
  - exists resto. rewrite Hc, Hnow, Heid. split; [reflexivity |].
    rewrite <- Hr. unfold generador_clientes, process.
    destruct (generar_tiempo_llegada _) as [dl g0].
    unfold timeout, proceso_falla. destruct (Qle_bool 0 dl); reflexivity.
Qed.

End Inmediato.

(** C4.  [min(cajeros, key=...)] returns the first resource with the
    fewest pending requests; for queue lengths 2, 0, 1 it is the resource
    at index 1.  A separated-queues customer created by the generator
    starts at once: its Initialize event is the next item processed, at
    the same clock value and with the resources unchanged.  At its start
    the customer's request joins the resource chosen by that rule.
    Afterwards a customer is bound to a teller only if it already was,
    or if the step is the customer's own start and the teller is the one
    chosen there: no later step moves a customer to another teller. *)
Theorem cola_mas_corta (A : Azar) :
  (forall rs, rs <> [] ->
     exists k,
       min_por_cola rs = Some k /\ (k < length rs)%nat /\
       (forall j, (j < length rs)%nat -> (largo_cola rs k <= largo_cola rs j)%nat) /\
       (forall j, (j < k)%nat -> (largo_cola rs k < largo_cola rs j)%nat)) /\
  (forall r0 r1 r2,
     length (queue r0) = 2%nat -> length (queue r1) = 0%nat ->
     length (queue r2) = 1%nat ->
     min_por_cola [r0; r1; r2] = Some 1%nat) /\
  (forall modo (g : estado A) m e m1 m' i,
     alcanzable modo g m -> heappop m = Some (e, m1) ->
     evento e = TimeoutGenerador "colas_separadas" i -> step m = Sigue m' ->
     exists resto,
       cola m' = mkEntrada (tiempo e + 0) URGENT (eid m)
                           (InitCliente Separadas (S i)) :: resto /\
       cajeros m' = cajeros m) /\
  (forall modo (g : estado A) m e m1 m' n,
     alcanzable modo g m -> heappop m = Some (e, m1) ->
     evento e = InitCliente Separadas n -> step m = Sigue m' ->
     exists k ti,
       min_por_cola (cajeros m) = Some k /\
       m' = request k (mkPeticion n (tiempo e) ti)
                    (con_azar (snd (random A (azar m))) m1) /\
       en_cajero m' n k) /\
  (forall (m m1 m' : Mundo A) e n k,
     heappop m = Some (e, m1) -> step m = Sigue m' ->
     en_cajero m' n k ->
     en_cajero m n k \/
     (evento e = InitCliente Unica n /\ k = 0%nat) \/
     (evento e = InitCliente Separadas n /\ min_por_cola (cajeros m) = Some k)).
Proof.
  split; [exact min_por_cola_spec |].
  split.
  { intros r0 r1 r2 H0 H1 H2. unfold min_por_cola. simpl.
    rewrite H0, H1, H2. reflexivity. }
  split.
  { intros modo g m e m1 m' i Halc Hp Hev Hs.
    apply (inicio_inmediato modo g m m1 m' e "colas_separadas" i Separadas);
      try assumption. reflexivity. }
  split; [| intros m m1 m' e n k; apply en_cajero_step].
  intros modo g m e m1 m' n Halc Hp Hev Hs.
  pose proof (alcanzable_cajeros modo g m Halc) as Hlen.
  pose proof (heappop_campos m m1 e Hp) as [_ [Hnow [_ [Hr [_ Haz]]]]].
  assert (Hne : cajeros m <> []).
  { intros Hnil. rewrite Hnil in Hlen. unfold construir_cajeros in Hlen.
    destruct (modo =? "cola_unica")%string; discriminate. }
  destruct (min_por_cola_spec (cajeros m) Hne) as [k [Hk [Hlt _]]].
  unfold step in Hs. rewrite Hp, Hev in Hs. simpl in Hs. injection Hs as <-.
  unfold cliente_colas_separadas, generar_tipo_transaccion.
  rewrite Haz. destruct (random A (azar m)) as [r g'] eqn:Hrand.
  cbn [cajeros con_azar]. rewrite Hr, Hk.
  exists k, (tipo_transaccion TRANSACCIONES r).
  split; [reflexivity |]. rewrite Hnow. cbn [snd].
  split; [reflexivity |].
  apply (en_cajero_request_adelante k (mkPeticion n (tiempo e) _)).
  simpl. rewrite Hr. exact Hlt.
Qed.

(** ** The theorems on concrete runs *)

(** A draw of 0.5 on the program's table: the cumulative probabilities
    0.15 and 0.43999999999999995 are below it, 0.76 is not. *)
Lemma generar_tipo_transaccion_primer_indice_ej :
  primer_indice_spec TRANSACCIONES 0.5 = Some 2%nat /\
  tipo_transaccion TRANSACCIONES 0.5 = 2%Z /\
  Qle_flotante 0.5 (acumulada TRANSACCIONES 3) = true.
Proof.
  assert (H : primer_indice_spec TRANSACCIONES 0.5 = Some 2%nat)
    by (vm_compute; reflexivity).
  split; [exact H |].
  destruct generar_tipo_transaccion_primer_indice as [_ [Hgen _]].
  destruct (Hgen TRANSACCIONES 0.5 2%nat H) as [Ht [_ [Hle _]]].
  split; [exact Ht | exact Hle].
Defined.

(** The separated-queues run on [cinta_a]: 50 waits, one per grant. *)
Lemma muestra_por_concesion_ej :
  exists m,
    @correr_banco AzarRegular 500 "colas_separadas" cinta_a = Fin m /\
    tiempos_espera m =
      esperas_de (traza 500 (@arranque AzarRegular "colas_separadas" cinta_a)) /\
    NoDup (concedidos (traza 500 (@arranque AzarRegular "colas_separadas" cinta_a))).
Proof.
  eexists. split; [vm_compute; reflexivity |].
  destruct (muestra_por_concesion AzarRegular "colas_separadas" cinta_a) as [_ H].
  destruct (H 500%nat _ ltac:(vm_compute; reflexivity)) as [H1 [_ [H2 _]]].
  split; [exact H1 | exact H2].
Defined.

(** The shared-queue run with one arrival every 600 seconds stops with
    the clock at 28800 and the 48th arrival still on the heap. *)
Lemma run_hasta_el_horizonte_ej :
  exists m,
    @correr_banco AzarRegular 500 "cola_unica" [] = Fin m /\
    now m == TIEMPO_SIMULACION /\
    Forall (fun e => TIEMPO_SIMULACION <= tiempo e) (cola m).
Proof.
  eexists. split; [vm_compute; reflexivity |].
  destruct (run_hasta_el_horizonte AzarRegular "cola_unica" []) as [_ H].
  destruct (H 500%nat _ ltac:(vm_compute; reflexivity)) as [H1 [_ H2]].
  split; [exact H1 | exact H2].
Defined.

Lemma cola_mas_corta_ej :
  tres_cajeros <> [] /\
  min_por_cola tres_cajeros = Some 1%nat /\
  exists k,
    min_por_cola tres_cajeros = Some k /\
    (forall j, (j < 3)%nat -> (largo_cola tres_cajeros k <= largo_cola tres_cajeros j)%nat).
Proof.
  assert (Hne : tres_cajeros <> []) by discriminate.
  split; [exact Hne |].
  destruct (cola_mas_corta AzarRegular) as [Hmin [Hej _]].
  split; [apply Hej; reflexivity |].
  destruct (Hmin tres_cajeros Hne) as [k [Hk [_ [Hle _]]]].
  exists k. split; [exact Hk | exact Hle].
Defined.

(** * Further properties of the program *)

(** ** The categorical draw and the service time *)

Lemma recorrer_rango (tabla : list (Q * Q)) (r : Q) (acum : spec_float) (i j : Z) :
  recorrer tabla r acum i = Some j ->
  (i <= j < i + Z.of_nat (length tabla))%Z.
Proof.
  revert acum i. induction tabla as [| [p x] tabla IH]; intros acum i H;
    cbn [recorrer] in H.
  - discriminate.
  - destruct (Qle_flotante r (suma64 acum (flotante p))).
    + injection H as <-. simpl length. lia.
    + apply IH in H. simpl length. lia.
Qed.

Lemma indexar_valido {T : Type} (l : list T) (i : Z) :
  (0 <= i < Z.of_nat (length l))%Z -> exists x, indexar l i = Some x.
Proof.
  intros Hi. unfold indexar.
  destruct (Z.leb_spec 0 i) as [_ | H]; [| lia].
  destruct (nth_error l (Z.to_nat i)) as [x |] eqn:Hn; [exists x; reflexivity |].
  apply nth_error_None in Hn. lia.
Qed.

(** X1.  The index returned by the walk is a valid index of the table it
    walked: [tabla[tipo]] cannot raise IndexError.  Only the empty table
    gives -1, which no indexing accepts. *)
Theorem tipo_transaccion_indice_valido (tabla : list (Q * Q)) (r : Q) :
  match tabla with
  | [] => tipo_transaccion tabla r = (-1)%Z /\
          indexar tabla (tipo_transaccion tabla r) = None
  | _ :: _ => (0 <= tipo_transaccion tabla r < Z.of_nat (length tabla))%Z /\
              exists fila, indexar tabla (tipo_transaccion tabla r) = Some fila
  end.
Proof.
  destruct tabla as [| f tabla]; [split; reflexivity |].
  assert (H : (0 <= tipo_transaccion (f :: tabla) r
               < Z.of_nat (length (f :: tabla)))%Z).
  { unfold tipo_transaccion.
    destruct (recorrer (f :: tabla) r cero64 0) as [j |] eqn:Hr.
    - apply recorrer_rango in Hr. lia.
    - simpl length. lia. }
  split; [exact H | apply indexar_valido; exact H].
Qed.

(** X2.  Whatever [random.random()] returns, the service time of the drawn
    type is drawn without error, as [expovariate(1 / media)] with the
    mean of the row selected by the thresholds of the walk, the floats
    0.15, 0.43999999999999995 and 0.76: a draw equal to the third
    threshold, which is above the decimal 0.76, selects the mean 120.0. *)
Theorem servicio_del_tipo_sorteado (A : Azar) (g : estado A) :
  (let (tipo, g') := generar_tipo_transaccion g in
   g' = snd (random A g) /\
   generar_tiempo_servicio tipo g' =
   Some (expovariate A (1 / media_de (fst (random A g))) g')) /\
  0.76 < umbral_3 /\ media_de umbral_3 = 120.0.
Proof.
  split; [| split; reflexivity].
  unfold generar_tipo_transaccion. destruct (random A g) as [r g']. cbn [fst snd].
  split; [reflexivity |].
  destruct (Qle_flotante_TRANSACCIONES r) as [E1 [E2 [E3 E4]]].
  unfold tipo_transaccion. rewrite recorrer_primer_indice.
  unfold primer_indice_spec, media_de.
  change (length TRANSACCIONES) with 4%nat. cbn [seq find].
  rewrite E1, E2, E3, E4.
  destruct (Qle_bool r umbral_1); [reflexivity |].
  destruct (Qle_bool r umbral_2); [reflexivity |].
  destruct (Qle_bool r umbral_3); [reflexivity |].
  destruct (Qle_bool r 1); reflexivity.
Qed.

(** X3.  [generar_tiempo_servicio] returns exactly for the indices Python
    accepts on a four-row table, -4 to 3 (negative ones count from the
    end); any other index raises.  No row has a zero mean, so the
    division never fails. *)
Theorem generar_tiempo_servicio_dominio (A : Azar) (tipo : Z) (g : estado A) :
  (generar_tiempo_servicio tipo g = None <-> (tipo < -4 \/ 3 < tipo)%Z) /\
  (forall x, generar_tiempo_servicio tipo g = Some x ->
             exists media, In media [45.0; 75.0; 120.0; 180.0] /\
                           x = expovariate A (1 / media) g) /\
  generar_tiempo_servicio (-1)%Z g = Some (expovariate A (1 / 180.0) g).
Proof.
  assert (Hcasos : (tipo < -4 \/ 3 < tipo)%Z \/
                   tipo = (-4)%Z \/ tipo = (-3)%Z \/ tipo = (-2)%Z \/ tipo = (-1)%Z \/
                   tipo = 0%Z \/ tipo = 1%Z \/ tipo = 2%Z \/ tipo = 3%Z) by lia.
  split; [| split; [| reflexivity]].
  - destruct Hcasos as [H | H].
    + split; [intros _; exact H |]. intros _.
      unfold generar_tiempo_servicio, indexar.
      destruct (Z.leb_spec 0 tipo) as [H0 | H0].
      * destruct (nth_error TRANSACCIONES (Z.to_nat tipo)) eqn:Hn; [| reflexivity].
        assert (Hlt : (Z.to_nat tipo < length TRANSACCIONES)%nat)
          by (apply nth_error_Some; congruence).
        simpl in Hlt. lia.
      * simpl length. destruct (Z.leb_spec (- Z.of_nat 4) tipo); [lia | reflexivity].
    + split; [| lia].
      decompose [or] H; subst tipo; discriminate.
  - intros x Hx. destruct Hcasos as [H | H].
    + exfalso.
      unfold generar_tiempo_servicio, indexar in Hx.
      destruct (Z.leb_spec 0 tipo) as [H0 | H0].
      * destruct (nth_error TRANSACCIONES (Z.to_nat tipo)) eqn:Hn; [| discriminate].
        assert (Hlt : (Z.to_nat tipo < length TRANSACCIONES)%nat)
          by (apply nth_error_Some; congruence).
        simpl in Hlt. lia.
      * simpl length in Hx.
        destruct (Z.leb_spec (- Z.of_nat 4) tipo); [lia | discriminate].
    + decompose [or] H; subst tipo; simpl in Hx; injection Hx as <-;
        eexists; (split; [| reflexivity]); simpl; auto.
Qed.

(** ** Routing looks at the waiting lines only *)

Lemma min_desde_largos (rs rs' : list Resource) (i mejor largo : nat) :
  largos rs = largos rs' ->
  min_desde rs i mejor largo = min_desde rs' i mejor largo.
Proof.
  revert rs' i mejor largo.
  induction rs as [| r rs IH]; intros [| r' rs'] i mejor largo H;
    simpl in H; try discriminate; [reflexivity |].
  injection H as Hr Hrs. simpl. rewrite Hr.
  destruct (length (queue r') <? largo)%nat; apply IH; exact Hrs.
Qed.

Lemma min_desde_sin_espera (rs : list Resource) (i mejor : nat) :
  Forall (fun r => queue r = []) rs -> min_desde rs i mejor 0 = mejor.
Proof.
  intros H. revert i. induction H as [| r rs Hr _ IH]; intros i; simpl.
  - reflexivity.
  - apply IH.
Qed.

(** X4.  The teller chosen for a customer depends on the lengths of the
    waiting lines alone, not on whether the tellers are serving: two
    pools with the same line lengths give the same choice, and when
    nobody waits anywhere the choice is the first teller, busy or not. *)
Theorem ruta_ignora_ocupacion (rs rs' : list Resource) :
  largos rs = largos rs' ->
  min_por_cola rs = min_por_cola rs' /\
  (Forall (fun r => queue r = []) rs ->
   min_por_cola rs = match rs with [] => None | _ :: _ => Some 0%nat end).
Proof.
  intros H. split.
  - destruct rs as [| r rs], rs' as [| r' rs']; simpl in H; try discriminate;
      [reflexivity |].
    injection H as Hr Hrs. unfold min_por_cola. rewrite Hr.
    rewrite (min_desde_largos rs rs' _ _ _ Hrs). reflexivity.
  - intros Hv. destruct rs as [| r rs]; [reflexivity |].
    inversion Hv as [| ? ? Hr Hrs]; subst. unfold min_por_cola. rewrite Hr. simpl.
    rewrite min_desde_sin_espera by exact Hrs. reflexivity.
Qed.

(** ** The summary of a run *)

Lemma fold_left_Qplus_cotas (l : list Q) (a M : Q) :
  Forall (fun w => 0 <= w /\ w <= M) l ->
  a <= fold_left Qplus l a /\
  fold_left Qplus l a <= a + inject_Z (Z.of_nat (length l)) * M.
Proof.
  intros H. revert a. induction H as [| w l [Hw0 HwM] _ IH]; intros a.
  - cbn [fold_left length]. change (inject_Z (Z.of_nat 0)) with 0. split; lra.
  - cbn [fold_left length]. destruct (IH (a + w)) as [H1 H2].
    split; [lra |].
    rewrite Nat2Z.inj_succ. unfold Z.succ. rewrite inject_Z_plus.
    change (inject_Z 1) with 1. lra.
Qed.

Lemma fold_left_Qmax_cotas (l : list Q) (x : Q) :
  x <= fold_left Qmax l x /\
  Forall (fun w => w <= fold_left Qmax l x) l /\
  In (fold_left Qmax l x) (x :: l).
Proof.
  revert x. induction l as [| y l IH]; intros x; simpl.
  - split; [lra | split; [constructor | left; reflexivity]].
  - destruct (IH (Qmax x y)) as [H1 [H2 H3]].
    pose proof (Q.le_max_l x y) as Hl. pose proof (Q.le_max_r x y) as Hr.
    split; [lra |]. split; [constructor; [lra | exact H2] |].
    destruct H3 as [H3 | H3]; [| right; right; exact H3].
    rewrite <- H3. unfold Qmax, GenericMinMax.gmax.
    destruct (x ?= y); [left | right; left | left]; reflexivity.
Qed.

Lemma estadisticas_cotas (modo : string) (l : list Q) (M : Q) :
  0 <= M ->
  Forall (fun w => 0 <= w /\ w <= M) l ->
  0 <= promedio l /\ promedio l <= maximo l /\ maximo l <= M /\
  (l = [] \/ In (maximo l) l) /\
  Forall (fun w => w <= maximo l) l.
Proof.
  intros HM H. destruct l as [| x l].
  - simpl. repeat split; try lra; auto.
  - destruct (fold_left_Qmax_cotas l x) as [Hx [Hl Hin]].
    assert (Hmax : Forall (fun w => w <= maximo (x :: l)) (x :: l)).
    { constructor; [exact Hx | exact Hl]. }
    assert (HmaxM : maximo (x :: l) <= M).
    { rewrite Forall_forall in H. apply (H (maximo (x :: l))). exact Hin. }
    assert (Hcota : Forall (fun w => 0 <= w /\ w <= maximo (x :: l)) (x :: l)).
    { rewrite Forall_forall in *. intros w Hw. split; [apply H; exact Hw | apply Hmax; exact Hw]. }
    destruct (fold_left_Qplus_cotas (x :: l) 0 (maximo (x :: l)) Hcota) as [H0 H1].
    assert (Hn : 0 < inject_Z (Z.of_nat (length (x :: l)))).
    { rewrite <- (Zlt_Qlt 0). simpl length. lia. }
    split; [| split; [| split; [exact HmaxM | split; [right; exact Hin | exact Hmax]]]].
    + unfold promedio, np_mean. apply Qle_shift_div_l; [exact Hn | lra].
    + unfold promedio, np_mean. apply Qle_shift_div_r; [exact Hn |].
      rewrite (Qmult_comm (maximo (x :: l))). lra.
Qed.

Lemma simular_banco_Fin (A : Azar) (fuel : nat) (modo : string)
      (g : estado A) (r : Resumen) (g' : estado A) :
  simular_banco fuel modo g = Fin (r, g') ->
  exists m,
    correr_banco fuel modo g = Fin m /\ azar m = g' /\
    r = estadisticas modo (tiempos_espera m) /\
    Forall (fun w => 0 <= w /\ w <= TIEMPO_SIMULACION) (tiempos_espera m).
Proof.
  unfold simular_banco. intros H.
  destruct (correr_banco fuel modo g) as [m | |] eqn:Hc; try discriminate.
  injection H as <- <-. exists m. repeat split.
  rewrite correr_banco_bucle in Hc.
  destruct (bucle_invariante Inv Inv_step fuel _ _ (Inv_arranque modo g) Hc)
    as [m0 [HI Hs]].
  apply step_StopSimulation in Hs. destruct Hs as [e [Hp _]].
  apply heappop_campos in Hp. destruct Hp as [_ [_ [_ [_ [Ht _]]]]].
  rewrite Ht. exact (inv_esperas m0 HI).
Qed.

(** X5.  The summary returned by the driver is consistent with the recorded
    waits: the count is their number, the mean lies between 0 and the
    maximum, the maximum is at most the horizon, bounds every recorded
    wait and, when there is one, is one of them. *)
Theorem resumen_coherente (A : Azar) (fuel : nat) (modo : string)
        (g : estado A) (r : Resumen) (g' : estado A) :
  simular_banco fuel modo g = Fin (r, g') ->
  modo_ r = modo /\
  0 <= espera_promedio r /\ espera_promedio r <= espera_maxima r /\
  espera_maxima r <= TIEMPO_SIMULACION /\
  exists m,
    correr_banco fuel modo g = Fin m /\ azar m = g' /\
    clientes r = length (tiempos_espera m) /\
    Forall (fun w => w <= espera_maxima r) (tiempos_espera m) /\
    (tiempos_espera m = [] \/ In (espera_maxima r) (tiempos_espera m)).
Proof.
  intros H. destruct (simular_banco_Fin A fuel modo g r g' H) as [m [Hc [Hg [-> Hw]]]].
  destruct (estadisticas_cotas modo (tiempos_espera m) TIEMPO_SIMULACION)
    as [H0 [H1 [H2 [H3 H4]]]]; [vm_compute; discriminate | exact Hw |].
  simpl. split; [reflexivity |]. split; [exact H0 |]. split; [exact H1 |].
  split; [exact H2 |]. exists m. repeat split; assumption.
Qed.

Lemma resumen_coherente_ej :
  exists r g',
    @simular_banco AzarRegular 500 "colas_separadas" cinta_a = Fin (r, g') /\
    0 <= espera_promedio r /\ espera_promedio r <= espera_maxima r /\
    espera_maxima r <= TIEMPO_SIMULACION.
Proof.
  eexists. eexists. split; [vm_compute; reflexivity |].
  destruct (resumen_coherente AzarRegular 500 "colas_separadas" cinta_a _ _
              ltac:(vm_compute; reflexivity)) as [_ [H0 [H1 [H2 _]]]].
  split; [exact H0 | split; [exact H1 | exact H2]].
Defined.

Lemma ruta_ignora_ocupacion_ej :
  largos [mkResource 1 [7%nat] []; mkResource 1 [] []] =
  largos [mkResource 1 [] []; mkResource 1 [] []] /\
  min_por_cola [mkResource 1 [7%nat] []; mkResource 1 [] []] = Some 0%nat.
Proof.
  assert (H : largos [mkResource 1 [7%nat] []; mkResource 1 [] []] =
              largos [mkResource 1 [] []; mkResource 1 [] []]) by reflexivity.
  split; [exact H |].
  destruct (ruta_ignora_ocupacion _ _ H) as [_ H2].
  apply H2. repeat constructor.
Defined.

(** ** The main program *)

Lemma simular_banco_termina (A : Azar) (delta : Q) (N : nat) (fuel : nat)
      (modo : string) (g : estado A) :
  0 < delta ->
  TIEMPO_SIMULACION <= inject_Z (Z.of_nat N) * delta ->
  (forall g, delta <= fst (expovariate A LAMBDA g)) ->
  (forall lambd g, 0 <= fst (expovariate A lambd g)) ->
  (6 * N + 4 <= fuel)%nat ->
  exists r g', simular_banco fuel modo g = Fin (r, g').
Proof.
  intros Hd HN Hll Hserv Hf.
  destruct (correr_banco_termina delta N Hd HN Hll Hserv fuel modo g Hf) as [m Hm].
  unfold simular_banco. rewrite Hm. eexists. eexists. reflexivity.
Qed.



(** ** The clock *)

Lemma now_callbacks (A : Azar) (ev : Evento) (m m' : Mundo A) :
  callbacks ev m = Sigue m' -> now m' = now m.
Proof.
  intros Hc. destruct ev; simpl in Hc; try discriminate;
    try (destruct d); injection Hc as <-;
    desplegar; reflexivity.
Qed.

Lemma traza_tiempos (A : Azar) (fuel : nat) (m : Mundo A) :
  Inv m ->
  Forall (fun e => now m <= tiempo e) (traza fuel m) /\
  StronglySorted (fun a b => tiempo a <= tiempo b) (traza fuel m).
Proof.
  revert m. induction fuel as [| fuel IH]; intros m HI; simpl.
  - split; constructor.
  - destruct (cola m) as [| e resto] eqn:Hq; [split; constructor |].
    assert (Hp : heappop m = Some (e, mkMundo (tiempo e) resto (eid m) (cajeros m)
                                             (tiempos_espera m) (azar m))).
    { unfold heappop. rewrite Hq. reflexivity. }
    assert (Hle : now m <= tiempo e).
    { pose proof (inv_cola m HI) as Hc. rewrite Hq in Hc.
      inversion Hc as [| ? ? [Hle _] _]; subst. exact Hle. }
    destruct (step m) as [m1 | m1 |] eqn:Hs;
      try (split; constructor; solve [assumption | constructor]).
    destruct (IH m1 (Inv_step m m1 HI Hs)) as [H1 H2].
    assert (Hnow : now m1 = tiempo e).
    { unfold step in Hs. rewrite Hp in Hs. apply now_callbacks in Hs. exact Hs. }
    rewrite Hnow in H1. split.
    + constructor; [exact Hle |].
      eapply Forall_impl; [| exact H1]. intros x Hx. simpl in Hx. lra.
    + constructor; assumption.
Qed.

(** X7.  The simulation clock never runs backwards: the times of the items
    processed by a run, complete or not, are non-negative and
    non-decreasing. *)
Theorem reloj_monotono (A : Azar) (fuel : nat) (modo : string) (g : estado A) :
  Forall (fun e => 0 <= tiempo e) (traza fuel (arranque modo g)) /\
  StronglySorted (fun a b => tiempo a <= tiempo b) (traza fuel (arranque modo g)).
Proof.
  destruct (traza_tiempos A fuel (arranque modo g) (Inv_arranque modo g)) as [H1 H2].
  split; [| exact H2].
  eapply Forall_impl; [| exact H1]. intros e He. simpl in He. exact He.
Qed.

(** ** Teller capacity *)

Section PorCajero.
Context {A : Azar}.
Variable R : Resource -> Prop.
Variable nuevo : Peticion -> Prop.
Hypothesis R_encolar :
  forall r p, nuevo p -> R r ->
              R (mkResource (capacity r) (users r) (queue r ++ [p])).
Hypothesis R_conceder :
  forall r p resto,
    R r -> queue r = p :: resto -> (length (users r) < capacity r)%nat ->
    R (mkResource (capacity r) (users r ++ [nombre p]) resto).
Hypothesis R_liberar :
  forall r n, R r -> R (mkResource (capacity r) (quitar n (users r)) (queue r)).

Lemma por_cajero_trigger_put (k : nat) (m : Mundo A) :
  Forall R (cajeros m) -> Forall R (cajeros (trigger_put k m)).
Proof.
  intros H. unfold trigger_put.
  destruct (nth_error (cajeros m) k) as [r |] eqn:Hk; [| exact H].
  destruct (queue r) as [| p resto] eqn:Hq; [exact H |].
  destruct (Nat.ltb_spec (length (users r)) (capacity r)) as [Hlt | _]; [| exact H].
  cbn [cajeros schedule con_cajeros].
  apply reemplazar_Forall; [| exact H].
  apply R_conceder; [exact (nth_error_Forall _ _ _ _ H Hk) | exact Hq | exact Hlt].
Qed.

Lemma por_cajero_request (k : nat) (p : Peticion) (m : Mundo A) :
  nuevo p -> Forall R (cajeros m) -> Forall R (cajeros (request k p m)).
Proof.
  intros Hp H. unfold request.
  destruct (nth_error (cajeros m) k) as [r |] eqn:Hk; [| exact H].
  apply por_cajero_trigger_put. cbn [cajeros con_cajeros].
  apply reemplazar_Forall; [| exact H].
  apply R_encolar; [exact Hp | exact (nth_error_Forall _ _ _ _ H Hk)].
Qed.

Lemma por_cajero_release (k n : nat) (m : Mundo A) :
  Forall R (cajeros m) -> Forall R (cajeros (release k n m)).
Proof.
  intros H. unfold release.
  destruct (nth_error (cajeros m) k) as [r |] eqn:Hk; [| exact H].
  cbn [cajeros schedule con_cajeros].
  apply reemplazar_Forall; [| exact H].
  apply R_liberar. exact (nth_error_Forall _ _ _ _ H Hk).
Qed.

Lemma cajeros_generador_clientes (modo : string) (i : nat) (m : Mundo A) :
  cajeros (generador_clientes modo i m) = cajeros m.
Proof.
  unfold generador_clientes. destruct (generar_tiempo_llegada (azar m)) as [d g].
  unfold timeout, proceso_falla. destruct (Qle_bool 0 d); reflexivity.
Qed.

Lemma cajeros_despachar (modo : string) (i : nat) (m : Mundo A) :
  cajeros (despachar modo i m) = cajeros m.
Proof.
  unfold despachar, process.
  destruct (modo =? "cola_unica")%string; [reflexivity |].
  destruct (modo =? "colas_separadas")%string; reflexivity.
Qed.

(** The callbacks of an event keep a property of every resource that
    enqueueing, granting and releasing keep. *)
Lemma por_cajero_callbacks (ev : Evento) (m m' : Mundo A) :
  callbacks ev m = Sigue m' ->
  (forall d n ti, ev = InitCliente d n -> nuevo (mkPeticion n (now m) ti)) ->
  Forall R (cajeros m) -> Forall R (cajeros m').
Proof.
  intros Hc Hn H. destruct ev; simpl in Hc; try discriminate.
  - injection Hc as <-. rewrite cajeros_generador_clientes. exact H.
  - injection Hc as <-. rewrite cajeros_generador_clientes, cajeros_despachar. exact H.
  - destruct d; injection Hc as <-.
    + unfold cliente_cola_unica.
      destruct (generar_tipo_transaccion (azar m)) as [t g].
      apply por_cajero_request; [eapply Hn; reflexivity | exact H].
    + unfold cliente_colas_separadas.
      destruct (generar_tipo_transaccion (azar m)) as [t g].
      destruct (min_por_cola _) as [k |].
      * apply por_cajero_request; [eapply Hn; reflexivity | exact H].
      * exact H.
  - injection Hc as <-. unfold cliente_servicio.
    destruct (generar_tiempo_servicio _ _) as [[s g] |].
    + unfold timeout, proceso_falla. destruct (Qle_bool 0 s); [exact H |].
      cbn [cajeros schedule]. apply por_cajero_release. exact H.
    + unfold proceso_falla. cbn [cajeros schedule]. apply por_cajero_release. exact H.
  - injection Hc as <-. unfold cliente_salida, proceso_termina.
    cbn [cajeros schedule]. apply por_cajero_release. exact H.
  - injection Hc as <-. apply por_cajero_trigger_put. exact H.
  - injection Hc as <-. exact H.
Qed.

End PorCajero.

Lemma quitar_length (n : nat) (l : list nat) :
  (length (quitar n l) <= length l <= S (length (quitar n l)))%nat.
Proof.
  induction l as [| x l IH]; simpl; [lia |].
  destruct (x =? n)%nat; simpl; lia.
Qed.

Lemma alcanzable_cajero_ok (A : Azar) (modo : string) (g : estado A) (m : Mundo A) :
  alcanzable modo g m -> Forall (cajero_ok modo) (cajeros m).
Proof.
  induction 1 as [| m m' _ IH Hs].
  - simpl. unfold construir_cajeros, cajero_ok, capacidad_de.
    destruct (modo =? "cola_unica")%string; simpl; repeat constructor; simpl; lia.
  - unfold step in Hs. destruct (heappop m) as [[e m1] |] eqn:Hp; [| discriminate].
    pose proof (heappop_campos m m1 e Hp) as [_ [_ [_ [Hr _]]]].
    apply (por_cajero_callbacks (cajero_ok modo) (fun _ => True))
      with (ev := evento e) (m := m1); try exact Hs; try (intros; exact I).
    + intros r p _ [Hc Hu]. split; simpl; assumption.
    + intros r p resto [Hc Hu] _ Hlt. split; simpl; [exact Hc |].
      rewrite length_app. simpl. lia.
    + intros r n [Hc Hu]. split; simpl; [exact Hc |].
      pose proof (quitar_length n (users r)). lia.
    + rewrite Hr. exact IH.
Qed.

Lemma usuarios_acotados (c : nat) (rs : list Resource) :
  Forall (fun r => (length (users r) <= c)%nat) rs ->
  (list_sum (map (fun r => length (users r)) rs) <= c * length rs)%nat.
Proof.
  induction 1 as [| r rs Hr _ IH]; simpl; [lia |]. simpl in Hr. nia.
Qed.

(** X8.  At every point of a run the tellers are as the driver built them
    (one resource of capacity 6 for "cola_unica", six of capacity 1
    otherwise), no resource has more users than its capacity, and so in
    either mode at most [NUM_CAJEROS] customers hold a slot at once. *)
Theorem cajeros_dentro_de_capacidad (A : Azar) (modo : string) (g : estado A)
        (m : Mundo A) :
  alcanzable modo g m ->
  length (cajeros m) = (if (modo =? "cola_unica")%string then 1 else 6)%nat /\
  Forall (fun r => capacity r = (if (modo =? "cola_unica")%string then 6 else 1)%nat /\
                   (length (users r) <= capacity r)%nat) (cajeros m) /\
  (list_sum (map (fun r => length (users r)) (cajeros m)) <= NUM_CAJEROS)%nat.
Proof.
  intros H.
  assert (Hl : length (cajeros m) =
               (if (modo =? "cola_unica")%string then 1 else 6)%nat).
  { rewrite (alcanzable_cajeros modo g m H). unfold construir_cajeros.
    destruct (modo =? "cola_unica")%string; reflexivity. }
  pose proof (alcanzable_cajero_ok A modo g m H) as Hok.
  split; [exact Hl |]. split; [exact Hok |].
  assert (Hu : Forall (fun r => (length (users r) <= capacidad_de modo)%nat)
                      (cajeros m)).
  { eapply Forall_impl; [| exact Hok]. intros r [Hc Hle]. simpl. lia. }
  apply usuarios_acotados in Hu. rewrite Hl in Hu.
  unfold capacidad_de, NUM_CAJEROS in *.
  destruct (modo =? "cola_unica")%string; lia.
Qed.

(** ** Nobody waits beside a free slot *)

Section Atendidos.
Context {A : Azar}.
Variable k : nat.

Lemma liberaciones_schedule (ev : Evento) (prio : nat) (d : Q) (m : Mundo A) :
  liberaciones k (schedule ev prio d m) = (w_release_de k ev + liberaciones k m)%nat.
Proof. unfold liberaciones. simpl. apply suma_cola_heappush. Qed.

Lemma atendido_mas (m m' : Mundo A) :
  cajeros m' = cajeros m -> (liberaciones k m <= liberaciones k m')%nat ->
  atendido k m -> atendido k m'.
Proof.
  intros Hc Hl H r Hr. rewrite Hc in Hr.
  destruct (H r Hr) as [Hq | Hle]; [left; exact Hq | right; lia].
Qed.

Lemma atendido_schedule (ev : Evento) (prio : nat) (d : Q) (m : Mundo A) :
  atendido k m -> atendido k (schedule ev prio d m).
Proof.
  apply atendido_mas; [reflexivity |]. rewrite liberaciones_schedule. lia.
Qed.

Lemma atendido_trigger_put (k0 : nat) (m : Mundo A) :
  atendido k m -> atendido k (trigger_put k0 m).
Proof.
  intros H. unfold trigger_put.
  destruct (nth_error (cajeros m) k0) as [r |] eqn:Hk; [| exact H].
  destruct (queue r) as [| p resto] eqn:Hq; [exact H |].
  destruct (length (users r) <? capacity r)%nat; [| exact H].
  intros r' Hr'. unfold liberaciones. cbn [cajeros schedule con_cajeros cola] in *.
  rewrite suma_cola_heappush. cbn [evento w_release_de]. simpl plus.
  rewrite reemplazar_nth_error in Hr'.
  destruct (Nat.eqb_spec k k0) as [-> | Hne].
  - destruct (k0 <? length (cajeros m))%nat; [| discriminate].
    injection Hr' as <-. simpl.
    destruct (H r Hk) as [Hv | Hle]; [congruence |].
    right. rewrite length_app. simpl. unfold liberaciones in Hle. lia.
  - exact (H r' Hr').
Qed.

(** A new request at teller [k0]: valid even from a state in which
    teller [k0] has just lost its last waiting customer. *)
Lemma atendido_request (k0 : nat) (p : Peticion) (m : Mundo A) :
  atendido k m -> atendido k (request k0 p m).
Proof.
  intros H. unfold request.
  destruct (nth_error (cajeros m) k0) as [r |] eqn:Hk; [| exact H].
  unfold trigger_put. cbn [cajeros con_cajeros].
  rewrite reemplazar_nth_error, Nat.eqb_refl.
  assert (Hlt : (k0 <? length (cajeros m))%nat = true).
  { apply Nat.ltb_lt. apply nth_error_Some. congruence. }
  rewrite Hlt. cbn [queue users capacity].
  destruct (queue r ++ [p]) as [| h resto] eqn:Hq.
  { destruct (queue r); discriminate. }
  destruct (Nat.ltb_spec (length (users r)) (capacity r)) as [Hfree | Hfull].
  - intros r' Hr'. unfold liberaciones. cbn [cajeros schedule con_cajeros cola] in *.
    rewrite suma_cola_heappush. cbn [evento w_release_de]. simpl plus.
    rewrite reemplazar_nth_error in Hr'.
    destruct (Nat.eqb_spec k k0) as [-> | Hne].
    + rewrite reemplazar_length, Hlt in Hr'. injection Hr' as <-. simpl.
      destruct (H r Hk) as [Hv | Hle].
      * left. rewrite Hv in Hq. simpl in Hq. injection Hq as _ <-. reflexivity.
      * right. rewrite length_app. simpl. unfold liberaciones in Hle. lia.
    + rewrite reemplazar_nth_error in Hr'.
      destruct (Nat.eqb_spec k k0); [contradiction |]. exact (H r' Hr').
  - intros r' Hr'. cbn [cajeros con_cajeros] in Hr'.
    rewrite reemplazar_nth_error in Hr'.
    destruct (Nat.eqb_spec k k0) as [-> | Hne].
    + rewrite Hlt in Hr'. injection Hr' as <-. simpl. right. lia.
    + destruct (H r' Hr') as [Hv | Hle]; [left; exact Hv | right; exact Hle].
Qed.

Lemma atendido_release (k0 n : nat) (m : Mundo A) :
  atendido k m -> atendido k (release k0 n m).
Proof.
  intros H. unfold release.
  destruct (nth_error (cajeros m) k0) as [r |] eqn:Hk; [| exact H].
  intros r' Hr'. unfold liberaciones. cbn [cajeros schedule con_cajeros cola] in *.
  rewrite suma_cola_heappush. cbn [evento w_release_de].
  rewrite reemplazar_nth_error in Hr'.
  destruct (Nat.eqb_spec k k0) as [-> | Hne].
  - destruct (k0 <? length (cajeros m))%nat; [| discriminate].
    injection Hr' as <-. simpl. rewrite Nat.eqb_refl.
    destruct (H r Hk) as [Hv | Hle]; [left; exact Hv |].
    right. pose proof (quitar_length n (users r)). unfold liberaciones in Hle. lia.
  - destruct (H r' Hr') as [Hv | Hle]; [left; exact Hv |].
    right. unfold liberaciones in Hle. lia.
Qed.

Lemma atendido_generador_clientes (modo : string) (i : nat) (m : Mundo A) :
  atendido k m -> atendido k (generador_clientes modo i m).
Proof.
  intros H. unfold generador_clientes.
  destruct (generar_tiempo_llegada (azar m)) as [d g].
  unfold timeout, proceso_falla.
  destruct (Qle_bool 0 d); apply atendido_schedule; exact H.
Qed.

Lemma atendido_despachar (modo : string) (i : nat) (m : Mundo A) :
  atendido k m -> atendido k (despachar modo i m).
Proof.
  intros H. unfold despachar, process.
  destruct (modo =? "cola_unica")%string; [apply atendido_schedule; exact H |].
  destruct (modo =? "colas_separadas")%string; [apply atendido_schedule; exact H | exact H].
Qed.

Lemma atendido_callbacks (ev : Evento) (m m' : Mundo A) :
  callbacks ev m = Sigue m' -> atendido k m -> atendido k m'.
Proof.
  intros Hc H. destruct ev; simpl in Hc; try discriminate.
  - injection Hc as <-. apply atendido_generador_clientes. exact H.
  - injection Hc as <-. apply atendido_generador_clientes, atendido_despachar. exact H.
  - destruct d; injection Hc as <-.
    + unfold cliente_cola_unica.
      destruct (generar_tipo_transaccion (azar m)) as [t g].
      apply atendido_request. exact H.
    + unfold cliente_colas_separadas.
      destruct (generar_tipo_transaccion (azar m)) as [t g].
      destruct (min_por_cola _) as [k0 |].
      * apply atendido_request. exact H.
      * apply atendido_schedule. exact H.
  - injection Hc as <-. unfold cliente_servicio.
    destruct (generar_tiempo_servicio _ _) as [[s g] |].
    + unfold timeout, proceso_falla. destruct (Qle_bool 0 s).
      * apply atendido_schedule. exact H.
      * apply atendido_schedule, atendido_release. exact H.
    + apply atendido_schedule, atendido_release. exact H.
  - injection Hc as <-. unfold cliente_salida, proceso_termina.
    apply atendido_schedule, atendido_release. exact H.
  - injection Hc as <-. apply atendido_trigger_put. exact H.
  - injection Hc as <-. exact H.
Qed.

(** Processing the Release event of teller [k0]: the slot it stands
    for is handed to the head of the line. *)
Lemma atendido_evento_release (k0 : nat) (m m1 : Mundo A) (e : Entrada) :
  heappop m = Some (e, m1) -> evento e = Release k0 ->
  atendido k m -> atendido k (trigger_put k0 m1).
Proof.
  intros Hp He H.
  pose proof (heappop_campos m m1 e Hp) as [Hq [_ [_ [Hr _]]]].
  assert (Hl : liberaciones k m = (w_release_de k (Release k0) + liberaciones k m1)%nat).
  { unfold liberaciones, suma_cola. rewrite Hq. simpl. rewrite He. reflexivity. }
  destruct (Nat.eqb_spec k0 k) as [-> | Hne].
  - cbn [w_release_de] in Hl. rewrite Nat.eqb_refl in Hl.
    unfold trigger_put.
    destruct (nth_error (cajeros m1) k) as [r |] eqn:Hk;
      [| intros r' Hr'; congruence].
    rewrite Hr in Hk. pose proof (H r Hk) as Hinv.
    destruct (queue r) as [| p resto] eqn:Hqr.
    { intros r' Hr'. rewrite Hr, Hk in Hr'. injection Hr' as <-. left. exact Hqr. }
    destruct Hinv as [Hv | Hle]; [discriminate |].
    destruct (Nat.ltb_spec (length (users r)) (capacity r)) as [Hfree | Hfull].
    + intros r' Hr'. unfold liberaciones. cbn [cajeros schedule con_cajeros cola] in *.
      rewrite suma_cola_heappush. cbn [evento w_release_de]. simpl plus.
      rewrite reemplazar_nth_error, Nat.eqb_refl in Hr'.
      destruct (k <? length (cajeros m1))%nat; [| discriminate].
      injection Hr' as <-. simpl. right. rewrite length_app. simpl.
      unfold liberaciones in *. lia.
    + intros r' Hr'. rewrite Hr, Hk in Hr'. injection Hr' as <-. right. lia.
  - apply atendido_trigger_put.
    apply (atendido_mas m m1); [exact Hr | | exact H].
    cbn [w_release_de] in Hl. apply Nat.eqb_neq in Hne. rewrite Hne in Hl. lia.
Qed.

Lemma atendido_step (m m' : Mundo A) :
  atendido k m -> step m = Sigue m' -> atendido k m'.
Proof.
  intros H Hs. unfold step in Hs.
  destruct (heappop m) as [[e m1] |] eqn:Hp; [| discriminate].
  destruct (evento e) eqn:He;
    try (apply (atendido_callbacks _ m1 m' Hs);
         pose proof (heappop_campos m m1 e Hp) as [Hq [_ [_ [Hr _]]]];
         apply (atendido_mas m m1); [exact Hr | | exact H];
         unfold liberaciones, suma_cola; rewrite Hq; simpl; rewrite He; simpl; lia).
  simpl in Hs. injection Hs as <-.
  eapply atendido_evento_release; eassumption.
Qed.

End Atendidos.

Lemma alcanzable_atendido (A : Azar) (modo : string) (g : estado A) (m : Mundo A)
      (k : nat) :
  alcanzable modo g m -> atendido k m.
Proof.
  induction 1 as [| m m' _ IH Hs].
  - intros r Hr. left. simpl in Hr. unfold construir_cajeros in Hr.
    apply nth_error_In in Hr.
    destruct (modo =? "cola_unica")%string.
    + destruct Hr as [<- | []]. reflexivity.
    + apply repeat_spec in Hr. subst r. reflexivity.
  - eapply atendido_step; eassumption.
Qed.

(** X9.  Whenever a customer is waiting at a teller, each free slot of that
    teller has its Release event still on the heap; so when no Release
    event of the teller is pending, a non-empty waiting line means that
    the teller is serving at full capacity. *)
Theorem nadie_espera_con_cajero_libre (A : Azar) (modo : string) (g : estado A)
        (m : Mundo A) (k : nat) (r : Resource) :
  alcanzable modo g m ->
  nth_error (cajeros m) k = Some r ->
  queue r <> [] ->
  (capacity r <= length (users r) + liberaciones k m)%nat /\
  ((forall e, In e (cola m) -> evento e <> Release k) ->
   length (users r) = capacity r).
Proof.
  intros Halc Hk Hq.
  destruct (alcanzable_atendido A modo g m k Halc r Hk) as [Hv | Hle]; [contradiction |].
  split; [exact Hle |]. intros Hno.
  assert (Hz : liberaciones k m = 0%nat).
  { unfold liberaciones, suma_cola.
    induction (cola m) as [| e q IH]; simpl; [reflexivity |].
    rewrite IH by (intros x Hx; apply Hno; right; exact Hx).
    specialize (Hno e (or_introl eq_refl)).
    destruct (evento e); simpl; try reflexivity.
    destruct (Nat.eqb_spec k0 k) as [-> | _]; [congruence | reflexivity]. }
  pose proof (alcanzable_cajero_ok A modo g m Halc) as Hok.
  destruct (nth_error_Forall _ _ _ _ Hok Hk) as [_ Hu]. lia.
Qed.

(** ** Customers and arrivals *)

Lemma llegadas_generadas_snoc (h : list Entrada) (e : Entrada) :
  llegadas_generadas (h ++ [e]) =
  (llegadas_generadas h + match evento e with
                          | TimeoutGenerador _ _ => 1
                          | _ => 0
                          end)%nat.
Proof.
  unfold llegadas_generadas. rewrite map_app, list_sum_app. simpl. lia.
Qed.

Lemma cota_nombre_S (c n : nat) :
  cota_nombre (S c) n = (cota_nombre c n + if (S c =? n)%nat then 1 else 0)%nat.
Proof.
  unfold cota_nombre.
  destruct (Nat.leb_spec 1 n), (Nat.leb_spec n (S c)), (Nat.leb_spec n c),
    (Nat.eqb_spec (S c) n); simpl; lia.
Qed.

Lemma arribos_step (A : Azar) (h : list Entrada) (m m1 m' : Mundo A) (e : Entrada) :
  arribos h m -> heappop m = Some (e, m1) -> step m = Sigue m' ->
  arribos (h ++ [e]) m'.
Proof.
  intros [Hg [Ht Hn]] Hp Hs. unfold step in Hs. rewrite Hp in Hs.
  destruct (todas_heappop _ _ m m1 e Hp Ht) as [He Ht1].
  pose proof (suma_heappop w_gen (fun _ => 0%nat) m m1 e Hp) as Hg1.
  fold (suma_gen m) in Hg1. fold (suma_gen m1) in Hg1.
  pose proof (suma_gen_callbacks _ _ _ Hs) as Hg2.
  assert (Hn1 : forall n, suma_nom n m = (w_nom n (evento e) + suma_nom n m1)%nat).
  { intros n. apply suma_heappop. exact Hp. }
  assert (Hn2 := fun n => suma_nom_callbacks n _ _ _ Hs).
  assert (Hv := fun n => veces_snoc n h e).
  pose proof (llegadas_generadas_snoc h e) as Hc.
  unfold arribos. rewrite Hc. clear Hc.
  set (c := llegadas_generadas h) in *.
  destruct (evento e) eqn:Hev; simpl in Hs; try discriminate;
    rewrite ?Nat.add_0_r.
  - (* InitGenerador *)
    simpl in He, Hg1, Hg2. split; [lia |]. split.
    + apply (todas_callbacks (QE_gen c) (fun _ => True))
        with (ev := InitGenerador modo) (m := m1); simpl; auto.
    + intros n. specialize (Hn n). specialize (Hn1 n). specialize (Hn2 n).
      rewrite Hv. simpl in *. lia.
  - (* TimeoutGenerador *)
    simpl in He. subst i. replace (c + 1)%nat with (S c) by lia.
    simpl in Hg1, Hg2. split; [lia |]. split.
    + assert (Ht1' : todas (QE_gen (S c)) (fun _ => True) m1).
      { assert (Hz : suma_cola w_gen (cola m1) = 0%nat).
        { unfold suma_gen, suma in Hg1, Hg. lia. }
        apply suma_cola_cero in Hz. rewrite Forall_forall in Hz.
        eapply todas_impl; [| | exact Ht1]; [| auto].
        intros e0 Hin _. specialize (Hz e0 Hin).
        destruct (evento e0); simpl in *; try exact I; discriminate Hz. }
      apply (todas_callbacks (QE_gen (S c)) (fun _ => True))
        with (ev := TimeoutGenerador modo c) (m := m1); simpl; auto.
    + intros n. specialize (Hn n). specialize (Hn1 n). specialize (Hn2 n).
      rewrite Hv, cota_nombre_S. cbn [w_nom] in Hn1. lia.
  - (* InitCliente *)
    simpl in Hg1, Hg2. split; [lia |]. split.
    + apply (todas_callbacks (QE_gen c) (fun _ => True))
        with (ev := InitCliente d n) (m := m1); simpl; auto.
    + intros n0. specialize (Hn n0). specialize (Hn1 n0). specialize (Hn2 n0).
      rewrite Hv. simpl in *. lia.
  - (* Request *)
    simpl in Hg1, Hg2. split; [lia |]. split.
    + apply (todas_callbacks (QE_gen c) (fun _ => True))
        with (ev := Request k p) (m := m1); simpl; auto.
    + intros n0. specialize (Hn n0). specialize (Hn1 n0). specialize (Hn2 n0).
      rewrite Hv. simpl in *. lia.
  - simpl in Hg1, Hg2. split; [lia |]. split.
    + apply (todas_callbacks (QE_gen c) (fun _ => True))
        with (ev := TimeoutServicio k n) (m := m1); simpl; auto.
    + intros n0. specialize (Hn n0). specialize (Hn1 n0). specialize (Hn2 n0).
      rewrite Hv. simpl in *. lia.
  - simpl in Hg1, Hg2. split; [lia |]. split.
    + apply (todas_callbacks (QE_gen c) (fun _ => True))
        with (ev := Release k) (m := m1); simpl; auto.
    + intros n0. specialize (Hn n0). specialize (Hn1 n0). specialize (Hn2 n0).
      rewrite Hv. simpl in *. lia.
  - simpl in Hg1, Hg2. split; [lia |]. split.
    + apply (todas_callbacks (QE_gen c) (fun _ => True))
        with (ev := ProcesoFin) (m := m1); simpl; auto.
    + intros n0. specialize (Hn n0). specialize (Hn1 n0). specialize (Hn2 n0).
      rewrite Hv. simpl in *. lia.
Qed.

Lemma arribos_arranque (A : Azar) (modo : string) (g : estado A) :
  arribos [] (arranque modo g).
Proof.
  assert (Hc : forall wP, suma_cajeros wP (construir_cajeros modo) = 0%nat).
  { intros wP. unfold construir_cajeros.
    destruct (modo =? "cola_unica")%string; reflexivity. }
  split; [| split].
  - unfold suma_gen, suma, arranque, preparar, process, schedule. cbn [cola cajeros].
    rewrite !suma_cola_heappush, Hc. simpl. lia.
  - split.
    + unfold arranque, preparar, process, schedule. cbn [cola].
      rewrite !heappush_Forall. simpl. auto.
    + simpl. unfold construir_cajeros.
      destruct (modo =? "cola_unica")%string; simpl; repeat constructor.
  - intros n. unfold suma_nom, suma, arranque, preparar, process, schedule.
    cbn [cola cajeros]. rewrite !suma_cola_heappush, Hc. simpl. lia.
Qed.

Lemma arribos_concedidos (A : Azar) (h : list Entrada) (m : Mundo A) :
  arribos h m -> (length (concedidos h) <= llegadas_generadas h)%nat.
Proof.
  intros [_ [_ Hn]].
  assert (Hnd : NoDup (concedidos h)).
  { apply (NoDup_count_occ Nat.eq_dec). intros n. specialize (Hn n).
    unfold veces, cota_nombre in Hn.
    destruct ((1 <=? n) && (n <=? llegadas_generadas h))%nat; lia. }
  assert (Hin : incl (concedidos h) (seq 1 (llegadas_generadas h))).
  { intros n Hin. apply (count_occ_In Nat.eq_dec) in Hin.
    specialize (Hn n). unfold veces, cota_nombre in Hn.
    destruct (Nat.leb_spec 1 n), (Nat.leb_spec n (llegadas_generadas h));
      simpl in Hn; try lia.
    apply in_seq. lia. }
  pose proof (NoDup_incl_length Hnd Hin) as Hlen.
  rewrite length_seq in Hlen. exact Hlen.
Qed.

(** X10.  The number of customers reported by a run is at most the number of
    arrivals the generator produced before the horizon: every recorded
    wait belongs to a different arrival, and arrivals still waiting (or
    not yet started) at the horizon are not counted. *)
Theorem clientes_a_lo_sumo_llegadas (A : Azar) (fuel : nat) (modo : string)
        (g : estado A) (r : Resumen) (g' : estado A) :
  simular_banco fuel modo g = Fin (r, g') ->
  (clientes r <= llegadas_generadas (traza fuel (arranque modo g)))%nat /\
  clientes r = length (concedidos (traza fuel (arranque modo g))).
Proof.
  intros H. destruct (simular_banco_Fin A fuel modo g r g' H) as [m [Hc [_ [-> _]]]].
  pose proof (tiempos_espera_correr fuel modo g m Hc) as Ht.
  assert (Hlen : length (tiempos_espera m) =
                 length (concedidos (traza fuel (arranque modo g)))).
  { rewrite Ht. apply esperas_concedidos_length. }
  split; [| exact Hlen]. simpl. rewrite Hlen.
  rewrite correr_banco_bucle in Hc.
  destruct (bucle_historia (fun h (m : Mundo A) => arribos h m)) with
    (fuel := fuel) (h := @nil Entrada) (m := arranque modo g) (m' := m)
    as [t [m0 [e [Htr [Ha [_ He]]]]]].
  - intros h m1 e m2 m3 H1 Hp Hs. eapply arribos_step; eassumption.
  - apply arribos_arranque.
  - exact Hc.
  - simpl in Ha. apply arribos_concedidos in Ha. rewrite Htr.
    unfold concedidos. rewrite flat_map_app. simpl. rewrite He. simpl.
    rewrite app_nil_r. rewrite llegadas_generadas_snoc, He.
    fold (concedidos t). lia.
Qed.

Lemma clientes_a_lo_sumo_llegadas_ej :
  exists r g',
    @simular_banco AzarRegular 500 "cola_unica" [] = Fin (r, g') /\
    clientes r = 47%nat /\
    llegadas_generadas (traza 500 (@arranque AzarRegular "cola_unica" [])) = 47%nat /\
    (clientes r <= llegadas_generadas (traza 500 (@arranque AzarRegular "cola_unica" [])))%nat.
Proof.
  eexists. eexists. split; [vm_compute; reflexivity |].
  split; [reflexivity |]. split; [vm_compute; reflexivity |].
  apply (clientes_a_lo_sumo_llegadas AzarRegular 500 "cola_unica" []
           _ _ ltac:(vm_compute; reflexivity)).
Defined.

(** ** Reachable states by stepping *)

Lemma alcanzable_avanzar (A : Azar) (modo : string) (g : estado A) (n : nat)
      (m : Mundo A) :
  alcanzable modo g m -> alcanzable modo g (avanzar n m).
Proof.
  revert m. induction n as [| n IH]; intros m H; simpl; [exact H |].
  destruct (step m) as [m' | m' |] eqn:Hs; try exact H.
  apply IH. eapply alc_step; eassumption.
Qed.

Lemma espera_en_cajero_0_alcanzable :
  @alcanzable AzarRegular "colas_separadas" cinta_a espera_en_cajero_0.
Proof.
  apply alcanzable_avanzar, alc_arranque.
Qed.

Lemma cajeros_dentro_de_capacidad_ej :
  @alcanzable AzarRegular "colas_separadas" cinta_a espera_en_cajero_0 /\
  map (fun r => length (users r)) (cajeros espera_en_cajero_0) = [1; 0; 0; 0; 0; 0]%nat /\
  length (cajeros espera_en_cajero_0) = 6%nat /\
  Forall (fun r => capacity r = 1%nat /\ (length (users r) <= capacity r)%nat)
         (cajeros espera_en_cajero_0) /\
  (list_sum (map (fun r => length (users r)) (cajeros espera_en_cajero_0))
   <= NUM_CAJEROS)%nat.
Proof.
  split; [exact espera_en_cajero_0_alcanzable |].
  split; [vm_compute; reflexivity |].
  exact (cajeros_dentro_de_capacidad AzarRegular "colas_separadas" cinta_a
           espera_en_cajero_0 espera_en_cajero_0_alcanzable).
Defined.

Lemma nadie_espera_con_cajero_libre_ej :
  exists r,
    @alcanzable AzarRegular "colas_separadas" cinta_a espera_en_cajero_0 /\
    nth_error (cajeros espera_en_cajero_0) 0 = Some r /\
    map nombre (queue r) = [2%nat] /\
    Forall (fun e => evento e <> Release 0) (cola espera_en_cajero_0) /\
    (capacity r <= length (users r) + liberaciones 0 espera_en_cajero_0)%nat /\
    length (users r) = capacity r.
Proof.
  eexists.
  assert (Hk : nth_error (cajeros espera_en_cajero_0) 0 =
               Some (mkResource 1 [1%nat] [mkPeticion 2 105 0]))
    by (vm_compute; reflexivity).
  assert (Hno : Forall (fun e => evento e <> Release 0) (cola espera_en_cajero_0))
    by (vm_compute; repeat constructor; discriminate).
  split; [exact espera_en_cajero_0_alcanzable |].
  split; [exact Hk |]. split; [reflexivity |]. split; [exact Hno |].
  destruct (nadie_espera_con_cajero_libre AzarRegular "colas_separadas" cinta_a
              espera_en_cajero_0 0 _ espera_en_cajero_0_alcanzable Hk
              ltac:(discriminate)) as [H1 H2].
  split; [exact H1 |]. apply H2. apply Forall_forall. exact Hno.
Defined.

(** ** Service in order of arrival *)

Lemma cola_trivial (rs : list Resource) :
  Forall (fun r => Forall (fun _ : Peticion => True) (queue r)) rs.
Proof.
  apply Forall_forall. intros r _. apply Forall_forall. intros; exact I.
Qed.

Lemma quitar_In (n x : nat) (l : list nat) : In x (quitar n l) -> In x l.
Proof.
  induction l as [| y l IH]; simpl; [auto |].
  destruct (y =? n)%nat; simpl; intuition.
Qed.

Lemma quitar_sorted (n : nat) (l : list nat) :
  StronglySorted lt l -> StronglySorted lt (quitar n l).
Proof.
  induction 1 as [| x l Hs IH Hx]; simpl; [constructor |].
  destruct (x =? n)%nat; [exact Hs |].
  constructor; [exact IH |].
  rewrite Forall_forall in *. intros y Hy. apply Hx. eapply quitar_In. exact Hy.
Qed.

Lemma StronglySorted_lt_snoc (l : list nat) (x : nat) :
  StronglySorted lt l -> (forall y, In y l -> (y < x)%nat) ->
  StronglySorted lt (l ++ [x]).
Proof.
  induction 1 as [| y l Hs IH Hy]; intros Hx; simpl.
  - repeat constructor.
  - constructor.
    + apply IH. intros z Hz. apply Hx. right. exact Hz.
    + apply Forall_app. split; [exact Hy |].
      constructor; [| constructor]. apply Hx. left. reflexivity.
Qed.

Lemma en_orden_mas (b b' : nat) (r : Resource) :
  (b <= b')%nat -> en_orden b r -> en_orden b' r.
Proof.
  intros Hb [H1 [H0 [H2 [H3 H4]]]]. repeat split; auto.
  - intros u Hu. specialize (H3 u Hu). lia.
  - intros p Hp. specialize (H4 p Hp). lia.
Qed.

Lemma en_orden_encolar (c : nat) (r : Resource) (p : Peticion) :
  nombre p = c -> en_orden c r ->
  en_orden (S c) (mkResource (capacity r) (users r) (queue r ++ [p])).
Proof.
  intros Hp [H1 [H0 [H2 [H3 H4]]]]. unfold en_orden. cbn [users queue].
  split; [| split; [exact H0 | split; [| split]]].
  - rewrite map_app. simpl. apply StronglySorted_lt_snoc; [exact H1 |].
    intros y Hy. apply in_map_iff in Hy. destruct Hy as [q [<- Hq]].
    rewrite Hp. apply H4. exact Hq.
  - intros u q Hu Hq. apply in_app_iff in Hq. destruct Hq as [Hq | [<- | []]].
    + apply H2; assumption.
    + rewrite Hp. apply H3. exact Hu.
  - intros u Hu. specialize (H3 u Hu). lia.
  - intros q Hq. apply in_app_iff in Hq. destruct Hq as [Hq | [<- | []]].
    + specialize (H4 q Hq). lia.
    + lia.
Qed.

Lemma en_orden_conceder (b : nat) (r : Resource) (p : Peticion)
      (resto : list Peticion) :
  en_orden b r -> queue r = p :: resto -> (length (users r) < capacity r)%nat ->
  en_orden b (mkResource (capacity r) (users r ++ [nombre p]) resto).
Proof.
  intros [H1 [H0 [H2 [H3 H4]]]] Hq _. rewrite Hq in *. simpl in H1.
  apply StronglySorted_inv in H1. destruct H1 as [Hs Hlt].
  unfold en_orden. cbn [users queue]. split; [| split; [| split; [| split]]].
  - exact Hs.
  - apply StronglySorted_lt_snoc; [exact H0 |].
    intros u Hu. apply H2; [exact Hu | left; reflexivity].
  - intros u q Hu Hin. apply in_app_iff in Hu. destruct Hu as [Hu | [<- | []]].
    + apply H2; [exact Hu | right; exact Hin].
    + rewrite Forall_forall in Hlt. apply Hlt. apply in_map. exact Hin.
  - intros u Hu. apply in_app_iff in Hu. destruct Hu as [Hu | [<- | []]].
    + apply H3. exact Hu.
    + apply H4. left. reflexivity.
  - intros q Hin. apply H4. right. exact Hin.
Qed.

Lemma en_orden_liberar (b : nat) (r : Resource) (n : nat) :
  en_orden b r -> en_orden b (mkResource (capacity r) (quitar n (users r)) (queue r)).
Proof.
  intros [H1 [H0 [H2 [H3 H4]]]]. unfold en_orden. cbn [users queue].
  split; [exact H1 |]. split; [| split; [| split; [| exact H4]]].
  - apply quitar_sorted. exact H0.
  - intros u q Hu Hq. apply H2; [eapply quitar_In; exact Hu | exact Hq].
  - intros u Hu. apply H3. eapply quitar_In. exact Hu.
Qed.

Lemma en_orden_request (A : Azar) (c k : nat) (p : Peticion) (m : Mundo A) :
  nombre p = c -> Forall (en_orden c) (cajeros m) ->
  Forall (en_orden (S c)) (cajeros (request k p m)).
Proof.
  intros Hp H.
  assert (H' : Forall (en_orden (S c)) (cajeros m)).
  { eapply Forall_impl; [| exact H]. intros r. apply en_orden_mas. lia. }
  unfold request.
  destruct (nth_error (cajeros m) k) as [r |] eqn:Hk; [| exact H'].
  apply (por_cajero_trigger_put (en_orden (S c)) (en_orden_conceder (S c))).
  cbn [cajeros con_cajeros].
  apply reemplazar_Forall; [| exact H'].
  apply en_orden_encolar; [exact Hp | exact (nth_error_Forall _ _ _ _ H Hk)].
Qed.

(** Events other than the start of a customer keep the lines in order. *)
Lemma en_orden_callbacks (A : Azar) (b : nat) (ev : Evento) (m m' : Mundo A) :
  callbacks ev m = Sigue m' ->
  (forall d n, ev <> InitCliente d n) ->
  Forall (en_orden b) (cajeros m) -> Forall (en_orden b) (cajeros m').
Proof.
  intros Hc Hn H.
  apply (por_cajero_callbacks (en_orden b) (fun _ => False)) with (ev := ev) (m := m).
  - intros r p [].
  - apply en_orden_conceder.
  - apply en_orden_liberar.
  - exact Hc.
  - intros d n ti He. exfalso. exact (Hn d n He).
  - exact H.
Qed.

Lemma sin_inicio_callbacks (A : Azar) (ev : Evento) (m m' : Mundo A) :
  callbacks ev m = Sigue m' ->
  (forall mo i, ev <> TimeoutGenerador mo i) ->
  Forall (fun x => sin_inicio (evento x)) (cola m) ->
  Forall (fun x => sin_inicio (evento x)) (cola m').
Proof.
  intros Hc Hng H.
  assert (Ht : todas sin_inicio (fun _ => True) m').
  { apply (todas_callbacks sin_inicio (fun _ => True)) with (ev := ev) (m := m);
      try (intros; exact I); try exact Hc.
    - destruct ev; simpl; auto. exfalso. eapply Hng. reflexivity.
    - split; [exact H | apply cola_trivial]. }
  exact (proj1 Ht).
Qed.

Lemma fila_step (A : Azar) (h : list Entrada) (m m1 m' : Mundo A) (e : Entrada) :
  arribos h m -> resto_sin_inicio m -> fila (llegadas_generadas h) m ->
  heappop m = Some (e, m1) -> step m = Sigue m' ->
  fila (llegadas_generadas (h ++ [e])) m'.
Proof.
  intros [_ [Ht _]] Hr [HS [Hq Hd]] Hp Hs.
  unfold step in Hs. rewrite Hp in Hs.
  destruct (todas_heappop _ _ m m1 e Hp Ht) as [He _].
  destruct (heappop_campos m m1 e Hp) as [Hcola [_ [_ [Hcaj _]]]].
  assert (Hsin : Forall (fun x => sin_inicio (evento x)) (cola m1)).
  { unfold resto_sin_inicio in Hr. rewrite Hcola in Hr. exact Hr. }
  assert (Hhead : QE_inicio (llegadas_generadas h) (evento e)).
  { rewrite Hcola in Hq. apply Forall_inv in Hq. exact Hq. }
  assert (Hd1 : forall d n, evento e = InitCliente d n ->
                            Forall (en_orden (llegadas_generadas h)) (cajeros m1)).
  { intros d n Hev. rewrite Hcaj. destruct Hd as [Hd | Hd]; [| exact Hd].
    rewrite Hcola in Hd. apply Forall_inv in Hd. rewrite Hev in Hd. destruct Hd. }
  rewrite <- Hcaj in HS.
  rewrite llegadas_generadas_snoc.
  set (c := llegadas_generadas h) in *.
  assert (Hotros :
            (forall d n, evento e <> InitCliente d n) ->
            (forall mo i, evento e <> TimeoutGenerador mo i) ->
            fila c m').
  { intros Hni Hng.
    assert (Hs' : Forall (fun x => sin_inicio (evento x)) (cola m')).
    { eapply sin_inicio_callbacks; eassumption. }
    split; [| split].
    - eapply en_orden_callbacks; eassumption.
    - eapply Forall_impl; [| exact Hs']. intros x Hx.
      cbv beta in Hx |- *. destruct (evento x); simpl in Hx |- *;
        try exact I; destruct Hx.
    - left. exact Hs'. }
  destruct (evento e) eqn:Hev;
    try (rewrite Nat.add_0_r; apply Hotros; intros; discriminate).
  - (* TimeoutGenerador *)
    simpl in He. subst i. replace (c + 1)%nat with (S c) by lia.
    simpl in Hs. injection Hs as <-.
    pose proof (cajeros_generador_clientes modo (S c) (despachar modo (S c) m1)) as Hc1.
    rewrite (cajeros_despachar modo (S c) m1) in Hc1.
    split; [| split].
    + rewrite Hc1. eapply Forall_impl; [| exact HS].
      intros r. apply en_orden_mas. lia.
    + apply (todas_callbacks (QE_inicio (S c)) (fun _ => True))
        with (ev := TimeoutGenerador modo c) (m := m1);
        try (intros; exact I); try reflexivity.
      * simpl. auto.
      * split; [| apply cola_trivial].
        eapply Forall_impl; [| exact Hsin]. intros x Hx.
        cbv beta in Hx |- *. destruct (evento x); simpl in Hx |- *;
          try exact I; destruct Hx.
    + right. rewrite Hc1. exact HS.
  - (* InitCliente *)
    rewrite Nat.add_0_r. simpl in Hhead. subst n.
    specialize (Hd1 d c eq_refl).
    assert (Hs' : Forall (fun x => sin_inicio (evento x)) (cola m')).
    { eapply sin_inicio_callbacks; [exact Hs | intros; discriminate | exact Hsin]. }
    split; [| split].
    + simpl in Hs. destruct d; injection Hs as <-.
      * unfold cliente_cola_unica.
        destruct (generar_tipo_transaccion (azar m1)) as [t g].
        apply en_orden_request; [reflexivity | exact Hd1].
      * unfold cliente_colas_separadas.
        destruct (generar_tipo_transaccion (azar m1)) as [t g].
        destruct (min_por_cola _) as [k |].
        -- apply en_orden_request; [reflexivity | exact Hd1].
        -- exact HS.
    + eapply Forall_impl; [| exact Hs']. intros x Hx.
      cbv beta in Hx |- *. destruct (evento x); simpl in Hx |- *;
        try exact I; destruct Hx.
    + left. exact Hs'.
Qed.

Lemma fila_arranque (A : Azar) (modo : string) (g : estado A) :
  fila 0 (arranque modo g).
Proof.
  assert (Hc : forall b, Forall (en_orden b) (construir_cajeros modo)).
  { intros b. apply Forall_forall. intros r Hr.
    assert (Hv : users r = [] /\ queue r = []).
    { unfold construir_cajeros in Hr.
      destruct (modo =? "cola_unica")%string.
      - destruct Hr as [<- | []]. split; reflexivity.
      - apply repeat_spec in Hr. subst r. split; reflexivity. }
    destruct Hv as [Hu Hq]. unfold en_orden. rewrite Hu, Hq. simpl.
    repeat split; try constructor; intros; contradiction. }
  split; [| split].
  - apply Hc.
  - unfold arranque, preparar, process, schedule. cbn [cola].
    rewrite !heappush_Forall. simpl. auto.
  - right. apply Hc.
Qed.

Lemma alcanzable_fila (A : Azar) (modo : string) (g : estado A) (m : Mundo A) :
  alcanzable modo g m ->
  exists h, arribos h m /\ fila (llegadas_generadas h) m.
Proof.
  induction 1 as [| m m' Halc [h [Ha Hf]] Hs].
  - exists []. split; [apply arribos_arranque | apply fila_arranque].
  - destruct (alcanzable_inmediato modo g m Halc) as [_ Hr].
    destruct (heappop m) as [[e m1] |] eqn:Hp.
    + exists (h ++ [e]). split.
      * eapply arribos_step; eassumption.
      * eapply fila_step; eassumption.
    + unfold step in Hs. rewrite Hp in Hs. discriminate.
Qed.

Lemma por_llegada_mas (t t' : Q) (r : Resource) :
  t <= t' -> por_llegada t r -> por_llegada t' r.
Proof.
  intros Ht [Hs Hf]. split; [exact Hs |].
  eapply Forall_impl; [| exact Hf]. intros p Hp. simpl in Hp. lra.
Qed.

Lemma StronglySorted_snoc {T : Type} (R : T -> T -> Prop) (l : list T) (x : T) :
  StronglySorted R l -> Forall (fun y => R y x) l -> StronglySorted R (l ++ [x]).
Proof.
  induction 1 as [| y l Hs IH Hy]; intros Hx; simpl.
  - repeat constructor.
  - inversion Hx; subst. constructor; [apply IH; assumption |].
    apply Forall_app. split; [exact Hy | repeat constructor; assumption].
Qed.

Lemma alcanzable_por_llegada (A : Azar) (modo : string) (g : estado A)
      (m : Mundo A) :
  alcanzable modo g m -> Forall (por_llegada (now m)) (cajeros m).
Proof.
  induction 1 as [| m m' Halc IH Hs].
  - simpl. unfold construir_cajeros.
    destruct (modo =? "cola_unica")%string; simpl;
      repeat constructor.
  - destruct (alcanzable_Inv modo g m Halc) as [HI _].
    unfold step in Hs. destruct (heappop m) as [[e m1] |] eqn:Hp; [| discriminate].
    destruct (heappop_campos m m1 e Hp) as [Hc [Hnow [_ [Hr _]]]].
    pose proof (inv_cola m HI) as Hok. rewrite Hc in Hok. apply Forall_inv in Hok.
    destruct Hok as [Hle _].
    rewrite (now_callbacks A (evento e) m1 m' Hs).
    apply (por_cajero_callbacks (por_llegada (now m1))
             (fun p => llegada p = now m1))
      with (ev := evento e) (m := m1).
    + intros r p Hp1 [Hs1 Hf1]. split; cbn [queue].
      * apply StronglySorted_snoc; [exact Hs1 |].
        eapply Forall_impl; [| exact Hf1]. intros q Hq. simpl in Hq. rewrite Hp1.
        exact Hq.
      * apply Forall_app. split; [exact Hf1 |].
        constructor; [rewrite Hp1; apply Qle_refl | constructor].
    + intros r p resto [Hs1 Hf1] Hq _. rewrite Hq in Hs1, Hf1. split; cbn [queue].
      * apply StronglySorted_inv in Hs1. exact (proj1 Hs1).
      * exact (Forall_inv_tail Hf1).
    + intros r n H1. exact H1.
    + exact Hs.
    + intros d n ti _. reflexivity.
    + rewrite Hr. eapply Forall_impl; [| exact IH].
      intros r. apply por_llegada_mas. rewrite Hnow. exact Hle.
Qed.

(** X11.  At every point of a run and at every teller, the waiting line is in
    order of customer number and of arrival time; the customers who hold
    a slot of the teller are distinct and in order of number too; and
    every customer who holds a slot has a smaller number than every
    customer still waiting there: nobody is served ahead of an earlier
    arrival in the same line. *)
Theorem atencion_en_orden_de_llegada (A : Azar) (modo : string) (g : estado A)
        (m : Mundo A) (r : Resource) :
  alcanzable modo g m -> In r (cajeros m) ->
  StronglySorted lt (map nombre (queue r)) /\
  StronglySorted (fun p q => llegada p <= llegada q) (queue r) /\
  StronglySorted lt (users r) /\
  (forall u p, In u (users r) -> In p (queue r) -> (u < nombre p)%nat).
Proof.
  intros Halc Hr. destruct (alcanzable_fila A modo g m Halc) as [h [_ [HS _]]].
  pose proof (alcanzable_por_llegada A modo g m Halc) as HL.
  rewrite Forall_forall in HS, HL. destruct (HS r Hr) as [H1 [H0 [H2 _]]].
  destruct (HL r Hr) as [H3 _].
  repeat split; assumption.
Qed.

Lemma fila_de_tres_alcanzable :
  @alcanzable AzarRegular "cola_unica" cinta_c fila_de_tres.
Proof.
  apply alcanzable_avanzar, alc_arranque.
Qed.

Lemma atencion_en_orden_de_llegada_ej :
  exists r,
    @alcanzable AzarRegular "cola_unica" cinta_c fila_de_tres /\
    In r (cajeros fila_de_tres) /\
    users r = [1; 2; 3; 4; 5; 6]%nat /\
    map nombre (queue r) = [7; 8; 9]%nat /\
    StronglySorted lt (map nombre (queue r)) /\
    StronglySorted (fun p q => llegada p <= llegada q) (queue r) /\
    StronglySorted lt (users r) /\
    (forall u p, In u (users r) -> In p (queue r) -> (u < nombre p)%nat).
Proof.
  eexists.
  assert (Hin : In (mkResource 6 [1; 2; 3; 4; 5; 6]%nat
                      [mkPeticion 7 7 0; mkPeticion 8 8 0; mkPeticion 9 9 0])
                   (cajeros fila_de_tres))
    by (vm_compute; left; reflexivity).
  split; [exact fila_de_tres_alcanzable |]. split; [exact Hin |].
  split; [reflexivity |]. split; [reflexivity |].
  exact (atencion_en_orden_de_llegada AzarRegular "cola_unica" cinta_c
           fila_de_tres _ fila_de_tres_alcanzable Hin).
Defined.

(** ** No exception with non-negative draws *)

Section SinExcepciones.
Context {A : Azar}.
Hypothesis sorteo_no_negativo : forall lambd g, 0 <= fst (expovariate A lambd g).

Lemma Vivo_generador_clientes (modo : string) (i : nat) (m : Mundo A) :
  0 <= now m -> Vivo 0 m -> Vivo 0 (generador_clientes modo i m).
Proof.
  intros Hn H. unfold generador_clientes, generar_tiempo_llegada.
  pose proof (sorteo_no_negativo LAMBDA (azar m)) as Hd.
  destruct (expovariate A LAMBDA (azar m)) as [d g]. simpl in Hd.
  rewrite timeout_Some by exact Hd.
  apply (cota_schedule 0 0).
  - unfold entrada_viva. cbn [evento tiempo now con_azar]. lra.
  - apply (cota_con_azar 0 0). exact H.
Qed.

(** A step from a state without failed processes does not raise and
    leaves no failed process behind. *)
Lemma Vivo_step (m : Mundo A) :
  Inv m -> Vivo 0 m ->
  step m <> Lanza /\ forall m', step m = Sigue m' -> Vivo 0 m'.
Proof.
  intros HI HV. unfold step.
  destruct (heappop m) as [[e m1] |] eqn:Hp.
  2:{ exfalso. destruct (inv_hasta m HI) as [h [Hin _]].
      unfold heappop in Hp. destruct (cola m); [destruct Hin | discriminate]. }
  destruct (cota_heappop 0 0 m m1 e HV Hp) as [HV1 [He _]].
  destruct (evento e) eqn:Hev; simpl;
    try (split; [discriminate | intros m' Hs; try discriminate Hs;
                                injection Hs as <-]).
  - destruct (Inv_heappop m m1 e HI Hp) as [HI1 _]; [congruence |].
    apply Vivo_generador_clientes; [exact (inv_now m1 HI1) | exact HV1].
  - destruct (Inv_heappop m m1 e HI Hp) as [HI1 _]; [congruence |].
    destruct (cota_despachar 0 0 modo (S i) m1 HV1) as [V2 [_ E2]].
    apply Vivo_generador_clientes; [| exact V2].
    rewrite E2. exact (inv_now m1 HI1).
  - destruct d; split; try discriminate; intros m' Hs; injection Hs as <-.
    + exact (proj1 (cota_cliente_cola_unica 0 0 n m1 HV1)).
    + exact (proj1 (cota_cliente_colas_separadas 0 0 n m1 HV1)).
  - unfold entrada_viva in He. rewrite Hev in He.
    exact (proj1 (cota_cliente_servicio 0 0 sorteo_no_negativo k p m1 He HV1)).
  - exact (proj1 (cota_cliente_salida 0 0 k n m1 HV1)).
  - exact (proj1 (cota_trigger_put 0 0 k m1 HV1)).
  - exact HV1.
  - exfalso. unfold entrada_viva in He. rewrite Hev in He. exact He.
Qed.

Lemma bucle_sin_excepcion (fuel : nat) (m : Mundo A) :
  Inv m -> Vivo 0 m -> bucle fuel m <> Excepcion.
Proof.
  revert m. induction fuel as [| fuel IH]; intros m HI HV; simpl; [discriminate |].
  destruct (Vivo_step m HI HV) as [Hl Hs].
  destruct (step m) as [m' | m' |] eqn:Hst.
  - apply IH; [eapply Inv_step; eassumption | apply Hs; reflexivity].
  - discriminate.
  - contradiction.
Qed.

Lemma simular_banco_sin_excepcion (fuel : nat) (modo : string) (g : estado A) :
  simular_banco fuel modo g <> Excepcion.
Proof.
  unfold simular_banco.
  pose proof (bucle_sin_excepcion fuel (arranque modo g)
                (Inv_arranque modo g) (Vivo_arranque 0 modo g)) as H.
  rewrite <- correr_banco_bucle in H.
  destruct (correr_banco fuel modo g); [discriminate | contradiction | discriminate].
Qed.

End SinExcepciones.

(** X12.  When every exponential draw is non-negative, as those of
    [random.expovariate] are, neither a run of [simular_banco] nor [main]
    raises, in any mode and from any state of the generator: no timeout
    gets a negative delay, the transaction type stored with a request is
    always a valid index of the table, and the heap never runs empty. *)
Theorem sin_excepciones (A : Azar) (fuel : nat) (modo : string) (g : estado A) :
  (forall lambd g0, 0 <= fst (expovariate A lambd g0)) ->
  simular_banco fuel modo g <> Excepcion /\ @main A fuel <> Excepcion.
Proof.
  intros H. split; [apply simular_banco_sin_excepcion; exact H |].
  unfold main.
  pose proof (simular_banco_sin_excepcion H fuel "cola_unica" (seed A 12345)) as H1.
  destruct (simular_banco fuel "cola_unica" (seed A 12345)) as [[r1 g1] | |];
    [| contradiction | discriminate].
  pose proof (simular_banco_sin_excepcion H fuel "colas_separadas" g1) as H2.
  destruct (simular_banco fuel "colas_separadas" g1) as [[r2 g2] | |];
    [discriminate | contradiction | discriminate].
Qed.

(** With every draw equal to 0 the clock never advances: the run neither
    returns nor raises. *)
Lemma sin_excepciones_ej :
  @simular_banco (AzarFijo 0) 200 "cola_unica" tt = SinCombustible /\
  @simular_banco (AzarFijo 0) 200 "cola_unica" tt <> Excepcion /\
  @main (AzarFijo 0) 200 <> Excepcion.
Proof.
  split; [vm_compute; reflexivity |].
  apply (sin_excepciones (AzarFijo 0) 200 "cola_unica" tt).
  intros lambd g0. simpl. lra.
Defined.

(** ** Turns at a teller *)

Lemma pedidos_cons (k : nat) (e : Entrada) (q : list Entrada) :
  pedidos k (e :: q) = pedido_de k e ++ pedidos k q.
Proof. reflexivity. Qed.

Lemma pedidos_app (k : nat) (q1 q2 : list Entrada) :
  pedidos k (q1 ++ q2) = pedidos k q1 ++ pedidos k q2.
Proof. apply flat_map_app. Qed.

Lemma pedidos_nil (k : nat) (q : list Entrada) :
  Forall (fun y => pedido_de k y = []) q -> pedidos k q = [].
Proof.
  induction 1 as [| y q Hy _ IH]; [reflexivity |].
  rewrite pedidos_cons, Hy, IH. reflexivity.
Qed.

Lemma no_despues_refl (y : Entrada) : no_despues y y.
Proof.
  unfold no_despues. rewrite antes_false.
  right. split; [reflexivity | right; split; lia].
Qed.

Lemma antes_no_despues_trans (x y z : Entrada) :
  antes x y = true -> no_despues y z -> antes x z = true.
Proof.
  unfold no_despues. rewrite !antes_spec, antes_false.
  intros [H | [He [H | [Hp H]]]] [K | [Ke [K | [Kp K]]]];
    first [ left; lra
          | right; split; [lra | first [left; lia | right; split; lia]] ].
Qed.

Lemma pedidos_heappush_otro (k : nat) (x : Entrada) (q : list Entrada) :
  pedido_de k x = [] -> pedidos k (heappush x q) = pedidos k q.
Proof.
  intros Hx. induction q as [| y q IH]; cbn [heappush].
  - rewrite pedidos_cons, Hx. reflexivity.
  - destruct (antes x y).
    + rewrite pedidos_cons, Hx. reflexivity.
    + rewrite !pedidos_cons, IH. reflexivity.
Qed.

(** A granted request pushed behind every other granted request of the
    same teller is the last of them to be popped. *)
Lemma pedidos_heappush_ultimo (k : nat) (x : Entrada) (q : list Entrada) :
  ordenada q ->
  Forall (fun y => pedido_de k y <> [] -> no_despues y x) q ->
  pedidos k (heappush x q) = pedidos k q ++ pedido_de k x.
Proof.
  unfold ordenada. induction 1 as [| y q Hq IH Hy]; intros Hf; cbn [heappush].
  - rewrite pedidos_cons. cbn. rewrite app_nil_r. reflexivity.
  - destruct (antes x y) eqn:Hxy.
    + assert (Hn : pedidos k (y :: q) = []).
      { apply pedidos_nil. rewrite Forall_forall in *. intros z Hz.
        destruct (pedido_de k z) as [| n l] eqn:Hpz; [reflexivity | exfalso].
        assert (Hyz : no_despues y z).
        { destruct Hz as [<- | Hz]; [apply no_despues_refl | apply Hy; exact Hz]. }
        pose proof (antes_no_despues_trans x y z Hxy Hyz) as Hxz.
        assert (Hzx : no_despues z x).
        { apply Hf; [exact Hz | rewrite Hpz; discriminate]. }
        unfold no_despues in Hzx. congruence. }
      rewrite pedidos_cons, Hn, app_nil_r. reflexivity.
    + rewrite !pedidos_cons, IH, app_assoc; [reflexivity |].
      inversion Hf; assumption.
Qed.

Lemma en_fila_nth_error (k : nat) (rs : list Resource) (r : Resource) :
  nth_error rs k = Some r -> en_fila k rs = map nombre (queue r).
Proof. intros H. unfold en_fila. rewrite H. reflexivity. Qed.

Lemma en_fila_reemplazar_mismo (k : nat) (r r' : Resource) (rs : list Resource) :
  nth_error rs k = Some r ->
  en_fila k (reemplazar k r' rs) = map nombre (queue r').
Proof.
  intros H. unfold en_fila. rewrite reemplazar_nth_error, Nat.eqb_refl.
  assert (Hlt : (k < length rs)%nat) by (apply nth_error_Some; congruence).
  apply Nat.ltb_lt in Hlt. rewrite Hlt. reflexivity.
Qed.

Lemma en_fila_reemplazar_otro (k k' : nat) (r' : Resource) (rs : list Resource) :
  k' <> k -> en_fila k (reemplazar k' r' rs) = en_fila k rs.
Proof.
  intros H. unfold en_fila. rewrite reemplazar_nth_error.
  destruct (Nat.eqb_spec k k') as [-> | _]; [contradiction | reflexivity].
Qed.

Lemma en_fila_reemplazar (k k' : nat) (r r' : Resource) (rs : list Resource) :
  nth_error rs k' = Some r -> queue r' = queue r ->
  en_fila k (reemplazar k' r' rs) = en_fila k rs.
Proof.
  intros Hk Hq. destruct (Nat.eq_dec k' k) as [-> | Hne].
  - rewrite (en_fila_reemplazar_mismo k r r' rs Hk), (en_fila_nth_error k rs r Hk), Hq.
    reflexivity.
  - apply en_fila_reemplazar_otro. exact Hne.
Qed.

Section Turnos.
Context {A : Azar}.
Variables (k : nat) (h : list Entrada).

Local Abbreviation turnos := (turnos k h).
Local Abbreviation por_turno := (por_turno k h).

Lemma por_turno_mas (b b' : nat) (m : Mundo A) :
  (b <= b')%nat -> por_turno b m -> por_turno b' m.
Proof.
  intros Hb [Hr [Ho [Hs Hn]]]. repeat split; try assumption.
  eapply Forall_impl; [| exact Hn]. intros n Hlt. simpl in Hlt. lia.
Qed.

Lemma recientes_heappush (m m' : Mundo A) (x : Entrada) :
  now m' = now m -> eid m' = S (eid m) ->
  concesion_reciente m' x ->
  Forall (concesion_reciente m) (cola m) ->
  Forall (concesion_reciente m') (heappush x (cola m)).
Proof.
  intros Hn He Hx Hr. apply heappush_Forall. split; [exact Hx |].
  eapply Forall_impl; [| exact Hr]. intros y Hy.
  unfold concesion_reciente in *. rewrite Hn, He.
  destruct (evento y); try exact I.
  destruct Hy as [H1 [H2 H3]]. repeat split; [exact H1 | exact H2 | lia].
Qed.

Lemma por_turno_schedule (b : nat) (ev : Evento) (prio : nat) (d : Q)
      (m : Mundo A) :
  (forall k' p, ev <> Request k' p) ->
  por_turno b m -> por_turno b (schedule ev prio d m).
Proof.
  intros Hev [Hr [Ho [Hs Hn]]].
  assert (Hp : pedido_de k (mkEntrada (now m + d) prio (eid m) ev) = []).
  { unfold pedido_de. simpl. destruct ev; try reflexivity.
    exfalso. eapply Hev. reflexivity. }
  assert (Ht : turnos (schedule ev prio d m) = turnos m).
  { unfold turnos, schedule. cbn [cola cajeros].
    rewrite pedidos_heappush_otro by exact Hp. reflexivity. }
  split; [| split; [| rewrite Ht; split; assumption]].
  - unfold schedule. cbn [cola].
    apply recientes_heappush; [reflexivity | reflexivity | | exact Hr].
    unfold concesion_reciente. simpl. destruct ev; try exact I.
    exfalso. eapply Hev. reflexivity.
  - unfold schedule. cbn [cola]. apply heappush_ordenada. exact Ho.
Qed.

Lemma por_turno_campos (b : nat) (m m' : Mundo A) :
  cola m' = cola m -> now m' = now m -> eid m' = eid m ->
  en_fila k (cajeros m') = en_fila k (cajeros m) ->
  por_turno b m -> por_turno b m'.
Proof.
  intros Hc Hn He Hf [Hr [Ho [Hs Hb]]].
  assert (Ht : turnos m' = turnos m).
  { unfold turnos. rewrite Hc, Hf. reflexivity. }
  split; [| split; [rewrite Hc; exact Ho | rewrite Ht; split; assumption]].
  rewrite Hc. eapply Forall_impl; [| exact Hr]. intros y Hy.
  unfold concesion_reciente in *. rewrite Hn, He. exact Hy.
Qed.

Lemma por_turno_con_azar (b : nat) (g : estado A) (m : Mundo A) :
  por_turno b m -> por_turno b (con_azar g m).
Proof. apply por_turno_campos; reflexivity. Qed.

Lemma por_turno_anotar (b : nat) (w : Q) (m : Mundo A) :
  por_turno b m -> por_turno b (anotar w m).
Proof. apply por_turno_campos; reflexivity. Qed.

Lemma reciente_no_despues (m : Mundo A) (y : Entrada) (k' : nat) (p : Peticion) :
  concesion_reciente m y -> pedido_de k y <> [] ->
  no_despues y (mkEntrada (now m + 0) NORMAL (eid m) (Request k' p)).
Proof.
  unfold concesion_reciente, pedido_de, no_despues. intros Hy Hp.
  destruct (evento y); try (exfalso; apply Hp; reflexivity).
  destruct Hy as [H1 [H2 H3]]. apply antes_false. cbn [tiempo prioridad id_evento].
  destruct (Qlt_le_dec (tiempo y) (now m + 0)) as [Hlt | Hle].
  - left. exact Hlt.
  - right. split; [lra |]. right. split; [symmetry; exact H2 | lia].
Qed.

Lemma por_turno_trigger_put (b k' : nat) (m : Mundo A) :
  por_turno b m -> por_turno b (trigger_put k' m).
Proof.
  intros H. unfold trigger_put.
  destruct (nth_error (cajeros m) k') as [r |] eqn:Hk; [| exact H].
  destruct (queue r) as [| p resto] eqn:Hq; [exact H |].
  destruct (length (users r) <? capacity r)%nat; [| exact H].
  destruct H as [Hr [Ho [Hs Hn]]].
  assert (Ht : turnos (schedule (Request k' p) NORMAL 0
                         (con_cajeros
                            (reemplazar k'
                               (mkResource (capacity r) (users r ++ [nombre p]) resto)
                               (cajeros m)) m)) = turnos m).
  { unfold turnos, schedule. cbn [cola cajeros con_cajeros now eid].
    rewrite pedidos_heappush_ultimo; [| exact Ho |].
    - unfold pedido_de. cbn [evento].
      destruct (Nat.eqb_spec k' k) as [-> | Hne].
      + rewrite (en_fila_reemplazar_mismo k r _ _ Hk).
        rewrite (en_fila_nth_error k _ r Hk), Hq. cbn [queue map].
        rewrite <- !app_assoc. reflexivity.
      + rewrite app_nil_r. rewrite en_fila_reemplazar_otro by exact Hne.
        reflexivity.
    - eapply Forall_impl; [| exact Hr]. intros y Hy Hp.
      apply (reciente_no_despues m y k' p Hy Hp). }
  split; [| split; [| rewrite Ht; split; assumption]].
  - unfold schedule. cbn [cola con_cajeros now eid cajeros tiempos_espera azar].
    apply recientes_heappush; [reflexivity | reflexivity | | exact Hr].
    unfold concesion_reciente. simpl. repeat split; [lra | lia].
  - unfold schedule. cbn [cola con_cajeros]. apply heappush_ordenada. exact Ho.
Qed.

Lemma por_turno_release (b k' n : nat) (m : Mundo A) :
  por_turno b m -> por_turno b (release k' n m).
Proof.
  intros H. unfold release.
  destruct (nth_error (cajeros m) k') as [r |] eqn:Hk; [| exact H].
  apply por_turno_schedule; [intros; discriminate |].
  eapply por_turno_campos; [| | | | exact H]; try reflexivity.
  cbn [cajeros con_cajeros]. apply en_fila_reemplazar with r; [exact Hk | reflexivity].
Qed.

Lemma por_turno_encolar (c k' : nat) (p : Peticion) (r : Resource) (m : Mundo A) :
  nombre p = c -> nth_error (cajeros m) k' = Some r ->
  por_turno c m ->
  por_turno (S c)
    (con_cajeros
       (reemplazar k' (mkResource (capacity r) (users r) (queue r ++ [p]))
                   (cajeros m)) m).
Proof.
  intros Hp Hk H. destruct (Nat.eq_dec k' k) as [-> | Hne].
  - destruct H as [Hr [Ho [Hs Hn]]].
    assert (Ht : turnos (con_cajeros
                           (reemplazar k
                              (mkResource (capacity r) (users r) (queue r ++ [p]))
                              (cajeros m)) m) = turnos m ++ [c]).
    { unfold turnos. cbn [cola cajeros con_cajeros].
      rewrite (en_fila_reemplazar_mismo k r _ _ Hk).
      rewrite (en_fila_nth_error k _ r Hk). cbn [queue].
      rewrite map_app. cbn [map]. rewrite Hp, <- !app_assoc. reflexivity. }
    split; [exact Hr |]. split; [exact Ho |]. rewrite Ht. split.
    + apply StronglySorted_lt_snoc; [exact Hs |].
      rewrite Forall_forall in Hn. exact Hn.
    + apply Forall_app. split.
      * eapply Forall_impl; [| exact Hn]. intros n Hlt. simpl in Hlt. lia.
      * constructor; [lia | constructor].
  - apply por_turno_mas with c; [lia |].
    eapply por_turno_campos; [| | | | exact H]; try reflexivity.
    cbn [cajeros con_cajeros]. apply en_fila_reemplazar_otro. exact Hne.
Qed.

Lemma por_turno_request (c k' : nat) (p : Peticion) (m : Mundo A) :
  nombre p = c -> por_turno c m -> por_turno (S c) (request k' p m).
Proof.
  intros Hp H. unfold request.
  destruct (nth_error (cajeros m) k') as [r |] eqn:Hk.
  - apply por_turno_trigger_put, por_turno_encolar; assumption.
  - apply por_turno_mas with c; [lia | exact H].
Qed.

End Turnos.

Lemma por_turno_heappop (A : Azar) (k : nat) (h : list Entrada) (b : nat)
      (m m1 : Mundo A) (e : Entrada) :
  Inv m -> heappop m = Some (e, m1) -> por_turno k h b m ->
  turnos k (h ++ [e]) m1 = turnos k h m /\ por_turno k (h ++ [e]) b m1.
Proof.
  intros HI Hp [Hr [Ho [Hs Hn]]].
  destruct (heappop_campos m m1 e Hp) as [Hc [Hnow [He [Hcaj _]]]].
  assert (Ht : turnos k (h ++ [e]) m1 = turnos k h m).
  { unfold turnos. rewrite Hc, Hcaj, pedidos_app, !pedidos_cons.
    change (pedidos k []) with (@nil nat).
    rewrite app_nil_r, <- !app_assoc. reflexivity. }
  split; [exact Ht |].
  rewrite Hc in Hr, Ho. unfold ordenada in Ho.
  apply Forall_inv_tail in Hr. apply StronglySorted_inv in Ho.
  pose proof (inv_cola m HI) as Hok. rewrite Hc in Hok. apply Forall_inv in Hok.
  destruct Hok as [Hle _].
  split; [| split; [exact (proj1 Ho) | rewrite Ht; split; assumption]].
  eapply Forall_impl; [| exact Hr]. intros y Hy.
  unfold concesion_reciente in *. rewrite Hnow, He.
  destruct (evento y); try exact I.
  destruct Hy as [H1 [H2 H3]]. repeat split; [lra | exact H2 | exact H3].
Qed.

(** ** Invariants kept by everything but the start of a customer *)

Section Sucesos.
Context {A : Azar}.
Variable P : Mundo A -> Prop.
Hypothesis P_schedule :
  forall ev prio d m, (forall k p, ev <> Request k p) -> P m -> P (schedule ev prio d m).
Hypothesis P_con_azar : forall g m, P m -> P (con_azar g m).
Hypothesis P_anotar : forall w m, P m -> P (anotar w m).
Hypothesis P_trigger_put : forall k m, P m -> P (trigger_put k m).
Hypothesis P_release : forall k n m, P m -> P (release k n m).

Lemma sucesos_generador_clientes (modo : string) (i : nat) (m : Mundo A) :
  P m -> P (generador_clientes modo i m).
Proof.
  intros H. unfold generador_clientes.
  destruct (generar_tiempo_llegada (azar m)) as [d g].
  unfold timeout, proceso_falla.
  destruct (Qle_bool 0 d); apply P_schedule; try (intros; discriminate);
    apply P_con_azar; exact H.
Qed.

Lemma sucesos_despachar (modo : string) (i : nat) (m : Mundo A) :
  P m -> P (despachar modo i m).
Proof.
  intros H. unfold despachar, process.
  destruct (modo =? "cola_unica")%string;
    [apply P_schedule; [intros; discriminate | exact H] |].
  destruct (modo =? "colas_separadas")%string;
    [apply P_schedule; [intros; discriminate | exact H] | exact H].
Qed.

Lemma sucesos_cliente_servicio (k : nat) (p : Peticion) (m : Mundo A) :
  P m -> P (cliente_servicio k p m).
Proof.
  intros H. unfold cliente_servicio.
  destruct (generar_tiempo_servicio _ _) as [[s g] |].
  - unfold timeout, proceso_falla. destruct (Qle_bool 0 s).
    + apply P_schedule; [intros; discriminate |]. apply P_con_azar, P_anotar. exact H.
    + apply P_schedule; [intros; discriminate |].
      apply P_release, P_con_azar, P_anotar. exact H.
  - unfold proceso_falla. apply P_schedule; [intros; discriminate |].
    apply P_release, P_anotar. exact H.
Qed.

Lemma sucesos_callbacks (ev : Evento) (m m' : Mundo A) :
  callbacks ev m = Sigue m' -> (forall d n, ev <> InitCliente d n) ->
  P m -> P m'.
Proof.
  intros Hc Hn H. destruct ev; simpl in Hc; try discriminate.
  - injection Hc as <-. apply sucesos_generador_clientes. exact H.
  - injection Hc as <-. apply sucesos_generador_clientes, sucesos_despachar. exact H.
  - exfalso. eapply Hn. reflexivity.
  - injection Hc as <-. apply sucesos_cliente_servicio. exact H.
  - injection Hc as <-. unfold cliente_salida, proceso_termina.
    apply P_schedule; [intros; discriminate | apply P_release; exact H].
  - injection Hc as <-. apply P_trigger_put. exact H.
  - injection Hc as <-. exact H.
Qed.

End Sucesos.

Lemma por_turno_callbacks (A : Azar) (k : nat) (h : list Entrada) (b : nat)
      (ev : Evento) (m m' : Mundo A) :
  callbacks ev m = Sigue m' -> (forall d n, ev <> InitCliente d n) ->
  por_turno k h b m -> por_turno k h b m'.
Proof.
  apply (sucesos_callbacks (por_turno k h b)).
  - intros ev0 prio d m0. apply por_turno_schedule.
  - intros g m0. apply por_turno_con_azar.
  - intros w m0. apply por_turno_anotar.
  - intros k' m0. apply por_turno_trigger_put.
  - intros k' n m0. apply por_turno_release.
Qed.

Lemma por_turno_inicio (A : Azar) (k : nat) (h : list Entrada) (c : nat)
      (d : Disciplina) (m m' : Mundo A) :
  callbacks (InitCliente d c) m = Sigue m' ->
  por_turno k h c m -> por_turno k h (S c) m'.
Proof.
  intros Hc H. simpl in Hc. destruct d; injection Hc as <-.
  - unfold cliente_cola_unica.
    destruct (generar_tipo_transaccion (azar m)) as [t g].
    apply por_turno_request; [reflexivity | apply por_turno_con_azar; exact H].
  - unfold cliente_colas_separadas.
    destruct (generar_tipo_transaccion (azar m)) as [t g].
    destruct (min_por_cola _) as [k' |].
    + apply por_turno_request; [reflexivity | apply por_turno_con_azar; exact H].
    + unfold proceso_falla. apply por_turno_schedule; [intros; discriminate |].
      apply por_turno_mas with c; [lia |]. apply por_turno_con_azar. exact H.
Qed.

Lemma orden_step (A : Azar) (modo : string) (g : estado A) (k : nat)
      (h : list Entrada) (m m1 m' : Mundo A) (e : Entrada) :
  orden modo g k h m -> heappop m = Some (e, m1) -> step m = Sigue m' ->
  orden modo g k (h ++ [e]) m'.
Proof.
  intros [Halc [Ha [Hf [Ht Hd]]]] Hp Hs.
  destruct (alcanzable_Inv modo g m Halc) as [HI _].
  destruct (alcanzable_inmediato modo g m Halc) as [_ Hr].
  split; [eapply alc_step; eassumption |].
  split; [eapply arribos_step; eassumption |].
  split; [eapply fila_step; eassumption |].
  destruct (por_turno_heappop A k h _ m m1 e HI Hp Ht) as [Hturnos Ht1].
  destruct (heappop_campos m m1 e Hp) as [Hcola _].
  assert (Hsin : Forall (fun x => sin_inicio (evento x)) (cola m1)).
  { unfold resto_sin_inicio in Hr. rewrite Hcola in Hr. exact Hr. }
  assert (Hhead : QE_inicio (llegadas_generadas h) (evento e)).
  { destruct Hf as [_ [Hq _]]. rewrite Hcola in Hq. apply Forall_inv in Hq. exact Hq. }
  unfold step in Hs. rewrite Hp in Hs.
  rewrite llegadas_generadas_snoc.
  set (c := llegadas_generadas h) in *.
  assert (Hotros :
            (forall d n, evento e <> InitCliente d n) ->
            por_turno k (h ++ [e]) (S c) m' /\
            Forall (fun x => sin_inicio (evento x)) (cola m1) /\
            Forall (fun n => (n < S c)%nat) (turnos k (h ++ [e]) m')).
  { intros Hni.
    assert (H1 : por_turno k (h ++ [e]) (S c) m')
      by (eapply por_turno_callbacks; eassumption).
    split; [exact H1 |]. split; [exact Hsin |]. exact (proj2 (proj2 (proj2 H1))). }
  destruct (evento e) eqn:Hev.
  - simpl in Hs. discriminate.
  - rewrite Nat.add_0_r. destruct Hotros as [H1 _]; [intros; discriminate |].
    split; [exact H1 |]. left.
    eapply sin_inicio_callbacks; [exact Hs | intros; discriminate | exact Hsin].
  - replace (c + 1)%nat with (S c) by lia.
    destruct Hotros as [H1 [_ H3]]; [intros; discriminate |].
    split; [| right; exact H3].
    apply por_turno_mas with (S c); [lia | exact H1].
  - rewrite Nat.add_0_r. simpl in Hhead. subst n.
    assert (Hc : Forall (fun n => (n < c)%nat) (turnos k h m)).
    { destruct Hd as [Hd | Hd]; [| exact Hd].
      rewrite Hcola in Hd. apply Forall_inv in Hd. rewrite Hev in Hd. destruct Hd. }
    assert (Ht1c : por_turno k (h ++ [e]) c m1).
    { destruct Ht1 as [H1 [H2 [H3 _]]]. repeat split; try assumption.
      rewrite Hturnos. exact Hc. }
    split; [eapply por_turno_inicio; eassumption |]. left.
    eapply sin_inicio_callbacks; [exact Hs | intros; discriminate | exact Hsin].
  - rewrite Nat.add_0_r. destruct Hotros as [H1 _]; [intros; discriminate |].
    split; [exact H1 |]. left.
    eapply sin_inicio_callbacks; [exact Hs | intros; discriminate | exact Hsin].
  - rewrite Nat.add_0_r. destruct Hotros as [H1 _]; [intros; discriminate |].
    split; [exact H1 |]. left.
    eapply sin_inicio_callbacks; [exact Hs | intros; discriminate | exact Hsin].
  - rewrite Nat.add_0_r. destruct Hotros as [H1 _]; [intros; discriminate |].
    split; [exact H1 |]. left.
    eapply sin_inicio_callbacks; [exact Hs | intros; discriminate | exact Hsin].
  - rewrite Nat.add_0_r. destruct Hotros as [H1 _]; [intros; discriminate |].
    split; [exact H1 |]. left.
    eapply sin_inicio_callbacks; [exact Hs | intros; discriminate | exact Hsin].
  - simpl in Hs. discriminate.
Qed.

Lemma en_fila_construir_cajeros (modo : string) (k : nat) :
  en_fila k (construir_cajeros modo) = [].
Proof.
  unfold en_fila. destruct (nth_error (construir_cajeros modo) k) as [r |] eqn:Hk;
    [| reflexivity].
  apply nth_error_In in Hk. unfold construir_cajeros in Hk.
  destruct (modo =? "cola_unica")%string.
  - destruct Hk as [<- | []]. reflexivity.
  - apply repeat_spec in Hk. subst r. reflexivity.
Qed.

Lemma orden_arranque (A : Azar) (modo : string) (g : estado A) (k : nat) :
  orden modo g k [] (arranque modo g).
Proof.
  assert (Ht : turnos k [] (arranque modo g) = []).
  { unfold turnos. cbn [cajeros arranque preparar process schedule].
    rewrite en_fila_construir_cajeros. reflexivity. }
  split; [apply alc_arranque |]. split; [apply arribos_arranque |].
  split; [apply fila_arranque |]. split.
  - split; [| split; [exact (inv_ord _ (Inv_arranque modo g)) |]].
    + unfold arranque, preparar, process, schedule. cbn [cola].
      rewrite !heappush_Forall. repeat split; try exact I. constructor.
    + rewrite Ht. split; constructor.
  - right. rewrite Ht. constructor.
Qed.

Lemma StronglySorted_app_l {T : Type} (R : T -> T -> Prop) (l1 l2 : list T) :
  StronglySorted R (l1 ++ l2) -> StronglySorted R l1.
Proof.
  induction l1 as [| x l1 IH]; simpl; intros H; [constructor |].
  apply StronglySorted_inv in H. destruct H as [Hs Hx].
  constructor; [apply IH; exact Hs |].
  apply Forall_app in Hx. exact (proj1 Hx).
Qed.

Lemma traza_orden (A : Azar) (modo : string) (g : estado A) (k : nat)
      (fuel : nat) (h : list Entrada) (m : Mundo A) :
  orden modo g k h m -> StronglySorted lt (pedidos k (h ++ traza fuel m)).
Proof.
  revert h m. induction fuel as [| fuel IH]; intros h m Ho.
  - simpl. rewrite app_nil_r.
    destruct Ho as [_ [_ [_ [[_ [_ [Hs _]]] _]]]].
    exact (StronglySorted_app_l _ _ _ Hs).
  - simpl. destruct (cola m) as [| e resto] eqn:Hc.
    + rewrite app_nil_r. destruct Ho as [_ [_ [_ [[_ [_ [Hs _]]] _]]]].
      exact (StronglySorted_app_l _ _ _ Hs).
    + assert (Hp : heappop m = Some (e, mkMundo (tiempo e) resto (eid m) (cajeros m)
                                          (tiempos_espera m) (azar m))).
      { unfold heappop. rewrite Hc. reflexivity. }
      destruct (step m) as [m' | m' |] eqn:Hs.
      * change (h ++ e :: traza fuel m') with (h ++ [e] ++ traza fuel m').
        rewrite app_assoc. apply IH. eapply orden_step; eassumption.
      * destruct Ho as [_ [_ [_ [[_ [_ [Hso _]]] _]]]].
        unfold turnos in Hso. rewrite Hc, pedidos_cons in Hso.
        rewrite pedidos_app. change (pedidos k [e]) with (pedido_de k e ++ []).
        rewrite app_nil_r.
        rewrite <- app_assoc, app_assoc in Hso.
        exact (StronglySorted_app_l _ _ _ Hso).
      * destruct Ho as [_ [_ [_ [[_ [_ [Hso _]]] _]]]].
        unfold turnos in Hso. rewrite Hc, pedidos_cons in Hso.
        rewrite pedidos_app. change (pedidos k [e]) with (pedido_de k e ++ []).
        rewrite app_nil_r.
        rewrite <- app_assoc, app_assoc in Hso.
        exact (StronglySorted_app_l _ _ _ Hso).
Qed.

(** X13.  At each teller the customers start their service in order of
    arrival: along any run, the grants of teller [k] are processed in
    strictly increasing customer number.  In particular no customer is
    granted twice and nobody overtakes an earlier arrival at the same
    teller, however the heap orders simultaneous events. *)
Theorem concesiones_por_turno (A : Azar) (fuel : nat) (modo : string)
        (g : estado A) (k : nat) :
  StronglySorted lt (pedidos k (traza fuel (arranque modo g))).
Proof.
  apply (traza_orden A modo g k fuel [] (arranque modo g)).
  apply orden_arranque.
Qed.

(** ** The single line *)

Section CajerosValidos.
Context {A : Azar}.
Variable L : nat.

Local Abbreviation cajeros_validos := (cajeros_validos L).

Lemma cajeros_validos_schedule (ev : Evento) (prio : nat) (d : Q) (m : Mundo A) :
  (forall k p, ev = Request k p -> (k < L)%nat) ->
  cajeros_validos m -> cajeros_validos (schedule ev prio d m).
Proof.
  intros Hev [Hl Hc]. split; [exact Hl |].
  unfold schedule. cbn [cola]. apply heappush_Forall. split; [| exact Hc].
  unfold cajero_valido. cbn [evento]. destruct ev; try exact I.
  eapply Hev. reflexivity.
Qed.

Lemma cajeros_validos_reemplazar (k : nat) (r : Resource) (m : Mundo A) :
  cajeros_validos m -> cajeros_validos (con_cajeros (reemplazar k r (cajeros m)) m).
Proof.
  intros [Hl Hc]. split; [| exact Hc].
  cbn [cajeros con_cajeros]. rewrite reemplazar_length. exact Hl.
Qed.

Lemma cajeros_validos_trigger_put (k : nat) (m : Mundo A) :
  cajeros_validos m -> cajeros_validos (trigger_put k m).
Proof.
  intros H. unfold trigger_put.
  destruct (nth_error (cajeros m) k) as [r |] eqn:Hk; [| exact H].
  destruct (queue r) as [| p resto]; [exact H |].
  destruct (length (users r) <? capacity r)%nat; [| exact H].
  apply cajeros_validos_schedule; [| apply cajeros_validos_reemplazar; exact H].
  intros k' p' He. injection He as <- _.
  destruct H as [Hl _]. rewrite <- Hl. apply nth_error_Some. congruence.
Qed.

Lemma cajeros_validos_release (k n : nat) (m : Mundo A) :
  cajeros_validos m -> cajeros_validos (release k n m).
Proof.
  intros H. unfold release.
  destruct (nth_error (cajeros m) k) as [r |]; [| exact H].
  apply cajeros_validos_schedule; [intros; discriminate |].
  apply cajeros_validos_reemplazar. exact H.
Qed.

Lemma cajeros_validos_request (k : nat) (p : Peticion) (m : Mundo A) :
  cajeros_validos m -> cajeros_validos (request k p m).
Proof.
  intros H. unfold request.
  destruct (nth_error (cajeros m) k) as [r |]; [| exact H].
  apply cajeros_validos_trigger_put, cajeros_validos_reemplazar. exact H.
Qed.

Lemma cajeros_validos_callbacks (ev : Evento) (m m' : Mundo A) :
  callbacks ev m = Sigue m' -> cajeros_validos m -> cajeros_validos m'.
Proof.
  intros Hc H.
  assert (Hazar : forall (g : estado A) (m0 : Mundo A),
             cajeros_validos m0 -> cajeros_validos (con_azar g m0)).
  { intros g m0 H0. exact H0. }
  destruct ev as [| modo | modo i | d n | k p | k n | k | |] eqn:Hev;
    try (apply (sucesos_callbacks (fun m0 : Mundo A => cajeros_validos m0))
           with (ev := ev) (m := m);
         [ intros ev0 prio d0 m0 Hne; apply cajeros_validos_schedule;
           intros k0 p0 He; exfalso; exact (Hne k0 p0 He)
         | exact Hazar
         | intros w m0 H0; exact H0
         | apply cajeros_validos_trigger_put
         | apply cajeros_validos_release
         | rewrite Hev; exact Hc
         | rewrite Hev; intros; discriminate
         | exact H ]).
  simpl in Hc. destruct d; injection Hc as <-.
  - unfold cliente_cola_unica.
    destruct (generar_tipo_transaccion (azar m)) as [t g].
    apply cajeros_validos_request, Hazar. exact H.
  - unfold cliente_colas_separadas.
    destruct (generar_tipo_transaccion (azar m)) as [t g].
    destruct (min_por_cola _) as [k |].
    + apply cajeros_validos_request, Hazar. exact H.
    + unfold proceso_falla. apply cajeros_validos_schedule; [intros; discriminate |].
      apply Hazar. exact H.
Qed.

Lemma cajeros_validos_step (m m' : Mundo A) :
  cajeros_validos m -> step m = Sigue m' -> cajeros_validos m'.
Proof.
  intros [Hl Hc] Hs. unfold step in Hs.
  destruct (heappop m) as [[e m1] |] eqn:Hp; [| discriminate].
  destruct (heappop_campos m m1 e Hp) as [Hq [_ [_ [Hcaj _]]]].
  apply (cajeros_validos_callbacks (evento e) m1 m' Hs).
  split; [rewrite Hcaj; exact Hl |].
  rewrite Hq in Hc. exact (Forall_inv_tail Hc).
Qed.

End CajerosValidos.

Lemma traza_cajeros_validos (A : Azar) (fuel : nat) (modo : string) (g : estado A) :
  Forall (cajero_valido (length (construir_cajeros modo)))
         (traza fuel (arranque modo g)).
Proof.
  apply (traza_invariante
           (fun m : Mundo A => cajeros_validos (length (construir_cajeros modo)) m)).
  - intros m m'. apply cajeros_validos_step.
  - intros m e m1 [_ Hc] Hp.
    destruct (heappop_campos m m1 e Hp) as [Hq _].
    rewrite Hq in Hc. exact (Forall_inv Hc).
  - split; [reflexivity |].
    unfold arranque, preparar, process, schedule. cbn [cola].
    rewrite !heappush_Forall. repeat split; try exact I. constructor.
Qed.

Lemma concedidos_pedidos (t : list Entrada) :
  Forall (cajero_valido 1) t -> concedidos t = pedidos 0 t.
Proof.
  induction 1 as [| e t He _ IH]; [reflexivity |].
  unfold concedidos, pedidos in *. cbn [flat_map]. rewrite IH. f_equal.
  unfold cajero_valido, pedido_de in *.
  destruct (evento e); try reflexivity.
  destruct k as [| k]; [reflexivity | lia].
Qed.

(** X14.  With the single line, customers start their service in order of
    arrival across the whole bank: the grants are processed in strictly
    increasing customer number, so the j-th recorded wait is that of the
    j-th arrival served.  With separated lines this fails: on [cinta_d]
    customer 3 starts before customer 2. *)
Theorem cola_unica_por_orden_de_llegada (A : Azar) (fuel : nat) (g : estado A) :
  StronglySorted lt (concedidos (traza fuel (arranque "cola_unica" g))) /\
  concedidos (traza 30 (@arranque AzarRegular "colas_separadas" cinta_d)) =
    [1; 3; 2; 4; 5]%nat.
Proof.
  split.
  - rewrite concedidos_pedidos.
    + apply (traza_orden A "cola_unica" g 0 fuel [] (arranque "cola_unica" g)).
      apply orden_arranque.
    + exact (traza_cajeros_validos A fuel "cola_unica" g).
  - vm_compute. reflexivity.
Qed.

(** ** Accounting of arrivals *)

Section Cuentas.
Context {A : Azar}.

Lemma pendientes_schedule (ev : Evento) (prio : nat) (d : Q) (m : Mundo A) :
  pendientes (schedule ev prio d m) = (w_pend ev + pendientes m)%nat.
Proof. apply suma_schedule. Qed.

Lemma pendientes_campos (m m' : Mundo A) :
  cola m' = cola m -> cajeros m' = cajeros m -> pendientes m' = pendientes m.
Proof. intros Hc Hr. unfold pendientes, suma. rewrite Hc, Hr. reflexivity. Qed.

Lemma pendientes_trigger_put (k : nat) (m : Mundo A) :
  pendientes (trigger_put k m) = pendientes m.
Proof.
  unfold trigger_put.
  destruct (nth_error (cajeros m) k) as [r |] eqn:Hk; [| reflexivity].
  destruct (queue r) as [| p resto] eqn:Hq; [reflexivity |].
  destruct (length (users r) <? capacity r)%nat; [| reflexivity].
  rewrite pendientes_schedule. unfold pendientes, suma. cbn [cola cajeros con_cajeros].
  pose proof (suma_cajeros_reemplazar (fun _ => 1%nat) k r
                (mkResource (capacity r) (users r ++ [nombre p]) resto)
                (cajeros m) Hk) as Hw.
  rewrite Hq in Hw. simpl in Hw. simpl. lia.
Qed.

Lemma pendientes_request (k : nat) (p : Peticion) (m : Mundo A) :
  (k < length (cajeros m))%nat ->
  pendientes (request k p m) = S (pendientes m).
Proof.
  intros Hlt. unfold request.
  destruct (nth_error (cajeros m) k) as [r |] eqn:Hk.
  - rewrite pendientes_trigger_put. unfold pendientes, suma.
    cbn [cola cajeros con_cajeros].
    pose proof (suma_cajeros_reemplazar (fun _ => 1%nat) k r
                  (mkResource (capacity r) (users r) (queue r ++ [p]))
                  (cajeros m) Hk) as Hw.
    cbn [queue] in Hw. rewrite map_app, list_sum_app in Hw. simpl in Hw. lia.
  - apply nth_error_None in Hk. lia.
Qed.

Lemma pendientes_release (k n : nat) (m : Mundo A) :
  pendientes (release k n m) = pendientes m.
Proof. apply suma_release; intros; reflexivity. Qed.

Lemma pendientes_generador_clientes (modo : string) (i : nat) (m : Mundo A) :
  pendientes (generador_clientes modo i m) = pendientes m.
Proof.
  unfold generador_clientes.
  destruct (generar_tiempo_llegada (azar m)) as [d g].
  unfold timeout, proceso_falla.
  destruct (Qle_bool 0 d); rewrite pendientes_schedule; reflexivity.
Qed.

Lemma pendientes_despachar (modo : string) (i : nat) (m : Mundo A) :
  modo = "cola_unica"%string \/ modo = "colas_separadas"%string ->
  pendientes (despachar modo i m) = S (pendientes m).
Proof.
  intros Hm. unfold despachar, process.
  destruct (String.eqb_spec modo "cola_unica");
    [rewrite pendientes_schedule; reflexivity |].
  destruct (String.eqb_spec modo "colas_separadas");
    [rewrite pendientes_schedule; reflexivity |].
  destruct Hm; contradiction.
Qed.

Lemma pendientes_cliente_servicio (k : nat) (p : Peticion) (m : Mundo A) :
  pendientes (cliente_servicio k p m) = pendientes m.
Proof.
  unfold cliente_servicio.
  destruct (generar_tiempo_servicio _ _) as [[s g] |].
  - unfold timeout, proceso_falla.
    destruct (Qle_bool 0 s); rewrite pendientes_schedule; [reflexivity |].
    rewrite pendientes_release. reflexivity.
  - unfold proceso_falla. rewrite pendientes_schedule, pendientes_release.
    reflexivity.
Qed.

Lemma pendientes_inicio (d : Disciplina) (n : nat) (m m' : Mundo A) :
  cajeros m <> [] ->
  callbacks (InitCliente d n) m = Sigue m' ->
  pendientes m' = S (pendientes m).
Proof.
  intros Hne Hc. simpl in Hc. destruct d; injection Hc as <-.
  - unfold cliente_cola_unica.
    destruct (generar_tipo_transaccion (azar m)) as [t g].
    rewrite pendientes_request; [reflexivity |].
    cbn [cajeros con_azar]. destruct (cajeros m); [congruence | simpl; lia].
  - unfold cliente_colas_separadas.
    destruct (generar_tipo_transaccion (azar m)) as [t g].
    cbn [cajeros con_azar].
    destruct (min_por_cola_spec (cajeros m) Hne) as [k [Hk [Hlt _]]].
    rewrite Hk. rewrite pendientes_request; [reflexivity | exact Hlt].
Qed.

End Cuentas.

Lemma concedidos_snoc (h : list Entrada) (e : Entrada) :
  length (concedidos (h ++ [e])) =
  (length (concedidos h) + match evento e with Request _ _ => 1 | _ => 0 end)%nat.
Proof.
  unfold concedidos. rewrite flat_map_app, length_app. simpl.
  destruct (evento e); reflexivity.
Qed.

Lemma cuenta_step (A : Azar) (modo : string) (g : estado A) (h : list Entrada)
      (m m1 m' : Mundo A) (e : Entrada) :
  modo = "cola_unica"%string \/ modo = "colas_separadas"%string ->
  cuenta modo g h m -> heappop m = Some (e, m1) -> step m = Sigue m' ->
  cuenta modo g (h ++ [e]) m'.
Proof.
  intros Hm [Halc [Ht Hn]] Hp Hs.
  split; [eapply alc_step; eassumption |].
  unfold step in Hs. rewrite Hp in Hs.
  destruct (todas_heappop _ _ m m1 e Hp Ht) as [He Ht1].
  split.
  - apply (todas_callbacks (QE_modo modo) (fun _ => True))
      with (ev := evento e) (m := m1); try (intros; exact I); try assumption.
    destruct (evento e); simpl in *; auto.
  - pose proof (suma_heappop w_pend (fun _ => 1%nat) m m1 e Hp) as Hpop.
    fold (pendientes m) in Hpop. fold (pendientes m1) in Hpop.
    destruct (heappop_campos m m1 e Hp) as [_ [_ [_ [Hcaj _]]]].
    assert (Hne : cajeros m1 <> []).
    { pose proof (alcanzable_cajeros modo g m Halc) as Hl. rewrite Hcaj.
      unfold construir_cajeros in Hl.
      destruct (modo =? "cola_unica")%string; destruct (cajeros m);
        simpl in Hl; try discriminate; congruence. }
    rewrite concedidos_snoc, llegadas_generadas_snoc.
    destruct (evento e) eqn:Hev; simpl in Hs; try discriminate;
      cbn [w_pend] in Hpop.
    + injection Hs as <-. rewrite pendientes_generador_clientes. lia.
    + injection Hs as <-. simpl in He. subst modo0.
      rewrite pendientes_generador_clientes, pendientes_despachar by exact Hm. lia.
    + assert (Hi : pendientes m' = S (pendientes m1)).
      { apply (pendientes_inicio d n m1 m' Hne). simpl. exact Hs. }
      lia.
    + injection Hs as <-. rewrite pendientes_cliente_servicio. lia.
    + injection Hs as <-. unfold cliente_salida, proceso_termina.
      rewrite pendientes_schedule, pendientes_release. simpl. lia.
    + injection Hs as <-. rewrite pendientes_trigger_put. lia.
    + injection Hs as <-. lia.
Qed.

Lemma cuenta_arranque (A : Azar) (modo : string) (g : estado A) :
  cuenta modo g [] (arranque modo g).
Proof.
  split; [apply alc_arranque |]. split.
  - split; [| apply cola_trivial].
    unfold arranque, preparar, process, schedule. cbn [cola].
    rewrite !heappush_Forall. repeat split; try exact I. constructor.
  - unfold pendientes, arranque, preparar, process.
    rewrite !suma_schedule. unfold suma. cbn [cola cajeros].
    assert (Hc : suma_cajeros (fun _ => 1%nat) (construir_cajeros modo) = 0%nat).
    { unfold construir_cajeros. destruct (modo =? "cola_unica")%string; reflexivity. }
    rewrite Hc. reflexivity.
Qed.

(** X15.  In the two modes the program knows, every arrival generated before
    the horizon is accounted for when the run returns: the number of
    customers reported plus the number of customers still pending (about
    to start, waiting in a line, or granted but not yet resumed) is the
    number of arrivals. *)
Theorem llegadas_contadas (A : Azar) (fuel : nat) (modo : string)
        (g : estado A) (m : Mundo A) (r : Resumen) (g' : estado A) :
  modo = "cola_unica"%string \/ modo = "colas_separadas"%string ->
  correr_banco fuel modo g = Fin m ->
  simular_banco fuel modo g = Fin (r, g') ->
  (clientes r + pendientes m =
   llegadas_generadas (traza fuel (arranque modo g)))%nat.
Proof.
  intros Hm Hc Hsim.
  destruct (simular_banco_Fin A fuel modo g r g' Hsim) as [m0 [Hc0 [_ [-> _]]]].
  rewrite Hc in Hc0. injection Hc0 as <-.
  pose proof (tiempos_espera_correr fuel modo g m Hc) as Ht.
  cbn [clientes estadisticas]. rewrite Ht, esperas_concedidos_length.
  rewrite correr_banco_bucle in Hc.
  destruct (bucle_historia (fun h (m : Mundo A) => cuenta modo g h m)) with
    (fuel := fuel) (h := @nil Entrada) (m := arranque modo g) (m' := m)
    as [t [mf [e [Htr [[_ [_ Hn]] [Hp He]]]]]].
  - intros h m1 e m2 m3 H1 Hp Hs. eapply cuenta_step; eassumption.
  - apply cuenta_arranque.
  - exact Hc.
  - simpl in Hn.
    pose proof (suma_heappop w_pend (fun _ => 1%nat) mf m e Hp) as Hpop.
    fold (pendientes mf) in Hpop. fold (pendientes m) in Hpop.
    rewrite He in Hpop. cbn [w_pend] in Hpop.
    rewrite Htr, concedidos_snoc, llegadas_generadas_snoc, He. lia.
Qed.


Lemma llegadas_contadas_ej :
  exists m r g',
    @correr_banco AzarRegular 200 "cola_unica" cinta_e = Fin m /\
    @simular_banco AzarRegular 200 "cola_unica" cinta_e = Fin (r, g') /\
    clientes r = 6%nat /\ pendientes m = 48%nat /\
    (clientes r + pendientes m =
     llegadas_generadas (traza 200 (@arranque AzarRegular "cola_unica" cinta_e)))%nat.
Proof.
  eexists. eexists. eexists.
  split; [vm_compute; reflexivity |].
  split; [vm_compute; reflexivity |].
  split; [reflexivity |]. split; [vm_compute; reflexivity |].
  eapply (llegadas_contadas AzarRegular 200 "cola_unica" cinta_e);
    [left; reflexivity | vm_compute; reflexivity | vm_compute; reflexivity].
Defined.

(** ** Who holds a slot *)

Lemma users_de_nth_error (k : nat) (rs : list Resource) (r : Resource) :
  nth_error rs k = Some r -> users_de k rs = users r.
Proof. intros H. unfold users_de. rewrite H. reflexivity. Qed.

Lemma users_de_reemplazar_mismo (k : nat) (r r' : Resource) (rs : list Resource) :
  nth_error rs k = Some r -> users_de k (reemplazar k r' rs) = users r'.
Proof.
  intros H. unfold users_de. rewrite reemplazar_nth_error, Nat.eqb_refl.
  assert (Hlt : (k < length rs)%nat) by (apply nth_error_Some; congruence).
  apply Nat.ltb_lt in Hlt. rewrite Hlt. reflexivity.
Qed.

Lemma users_de_reemplazar_otro (k k' : nat) (r' : Resource) (rs : list Resource) :
  k' <> k -> users_de k (reemplazar k' r' rs) = users_de k rs.
Proof.
  intros H. unfold users_de. rewrite reemplazar_nth_error.
  destruct (Nat.eqb_spec k k') as [-> | _]; [contradiction | reflexivity].
Qed.

Lemma count_occ_quitar (n' n : nat) (l : list nat) :
  count_occ Nat.eq_dec (quitar n' l) n =
  (count_occ Nat.eq_dec l n - if (n' =? n)%nat then 1 else 0)%nat.
Proof.
  induction l as [| x l IH]; simpl; [reflexivity |].
  destruct (Nat.eqb_spec x n') as [-> | Hx].
  - destruct (Nat.eq_dec n' n) as [-> | Hn].
    + rewrite Nat.eqb_refl. lia.
    + destruct (Nat.eqb_spec n' n); [contradiction | lia].
  - simpl. rewrite IH. destruct (Nat.eq_dec x n) as [-> | Hn]; [| reflexivity].
    destruct (Nat.eqb_spec n' n) as [-> | _]; [contradiction | lia].
Qed.

Lemma count_occ_snoc (l : list nat) (x n : nat) :
  count_occ Nat.eq_dec (l ++ [x]) n =
  (count_occ Nat.eq_dec l n + if (x =? n)%nat then 1 else 0)%nat.
Proof.
  rewrite count_occ_app. simpl.
  destruct (Nat.eq_dec x n) as [-> | Hn].
  - rewrite Nat.eqb_refl. reflexivity.
  - destruct (Nat.eqb_spec x n); [contradiction | reflexivity].
Qed.

Section Ocupacion.
Context {A : Azar}.
Variables k n : nat.

Local Abbreviation usan := (fun m : Mundo A =>
                              count_occ Nat.eq_dec (users_de k (cajeros m)) n).
Local Abbreviation atienden := (fun m : Mundo A =>
                                  suma_cola (w_atencion k n) (cola m)).

Lemma atienden_schedule (ev : Evento) (prio : nat) (d : Q) (m : Mundo A) :
  atienden (schedule ev prio d m) = (w_atencion k n ev + atienden m)%nat.
Proof. cbn [cola schedule]. apply suma_cola_heappush. Qed.

Lemma ocupacion_trigger_put (k' : nat) (m : Mundo A) :
  ocupacion k n m -> ocupacion k n (trigger_put k' m).
Proof.
  unfold ocupacion. intros H. unfold trigger_put.
  destruct (nth_error (cajeros m) k') as [r |] eqn:Hk; [| exact H].
  destruct (queue r) as [| p resto]; [exact H |].
  destruct (length (users r) <? capacity r)%nat; [| exact H].
  rewrite atienden_schedule. cbn [cajeros schedule con_cajeros cola].
  cbn [w_atencion]. destruct (Nat.eqb_spec k' k) as [-> | Hne].
  - rewrite (users_de_reemplazar_mismo k r _ _ Hk). cbn [users].
    rewrite count_occ_snoc. rewrite (users_de_nth_error k _ r Hk) in H.
    cbn [andb]. lia.
  - rewrite users_de_reemplazar_otro by exact Hne. cbn [andb]. lia.
Qed.

Lemma ocupacion_request (k' : nat) (p : Peticion) (m : Mundo A) :
  ocupacion k n m -> ocupacion k n (request k' p m).
Proof.
  intros H. unfold request.
  destruct (nth_error (cajeros m) k') as [r |] eqn:Hk; [| exact H].
  apply ocupacion_trigger_put. unfold ocupacion in *.
  cbn [cajeros con_cajeros cola].
  destruct (Nat.eq_dec k' k) as [-> | Hne].
  - rewrite (users_de_reemplazar_mismo k r _ _ Hk). cbn [users].
    rewrite (users_de_nth_error k _ r Hk) in H. exact H.
  - rewrite users_de_reemplazar_otro by exact Hne. exact H.
Qed.

Lemma usan_release (k' n' : nat) (m : Mundo A) :
  usan (release k' n' m) =
  (usan m - if ((k' =? k) && (n' =? n))%nat then 1 else 0)%nat.
Proof.
  unfold release.
  destruct (nth_error (cajeros m) k') as [r |] eqn:Hk.
  - cbn [cajeros schedule con_cajeros].
    destruct (Nat.eqb_spec k' k) as [-> | Hne].
    + rewrite (users_de_reemplazar_mismo k r _ _ Hk). cbn [users andb].
      rewrite (users_de_nth_error k _ r Hk). apply count_occ_quitar.
    + rewrite users_de_reemplazar_otro by exact Hne. cbn [andb]. lia.
  - destruct (Nat.eqb_spec k' k) as [-> | Hne]; cbn [andb]; [| lia].
    unfold users_de. rewrite Hk. simpl. reflexivity.
Qed.

Lemma atienden_release (k' n' : nat) (m : Mundo A) :
  atienden (release k' n' m) = atienden m.
Proof.
  unfold release.
  destruct (nth_error (cajeros m) k') as [r |]; [| reflexivity].
  rewrite atienden_schedule. reflexivity.
Qed.

Lemma ocupacion_generador_clientes (modo : string) (i : nat) (m : Mundo A) :
  ocupacion k n m -> ocupacion k n (generador_clientes modo i m).
Proof.
  unfold ocupacion. intros H. unfold generador_clientes.
  destruct (generar_tiempo_llegada (azar m)) as [d g].
  unfold timeout, proceso_falla.
  destruct (Qle_bool 0 d); rewrite atienden_schedule; exact H.
Qed.

Lemma ocupacion_despachar (modo : string) (i : nat) (m : Mundo A) :
  ocupacion k n m -> ocupacion k n (despachar modo i m).
Proof.
  unfold ocupacion. intros H. unfold despachar, process.
  destruct (modo =? "cola_unica")%string; [rewrite atienden_schedule; exact H |].
  destruct (modo =? "colas_separadas")%string;
    [rewrite atienden_schedule; exact H | exact H].
Qed.

Lemma ocupacion_step (m m' : Mundo A) :
  ocupacion k n m -> step m = Sigue m' -> ocupacion k n m'.
Proof.
  intros H Hs. unfold step in Hs.
  destruct (heappop m) as [[e m1] |] eqn:Hp; [| discriminate].
  destruct (heappop_campos m m1 e Hp) as [Hc [_ [_ [Hr _]]]].
  assert (H1 : usan m1 = (w_atencion k n (evento e) + atienden m1)%nat).
  { unfold ocupacion in H. rewrite Hc, <- Hr in H. exact H. }
  clear H Hc Hr Hp.
  destruct (evento e) as [| modo | modo i | d c | k' p | k' n' | k' | |] eqn:Hev;
    simpl in Hs; try discriminate; cbn [w_atencion] in H1.
  - injection Hs as <-. apply ocupacion_generador_clientes. exact H1.
  - injection Hs as <-.
    apply ocupacion_generador_clientes, ocupacion_despachar. exact H1.
  - destruct d; injection Hs as <-.
    + unfold cliente_cola_unica.
      destruct (generar_tipo_transaccion (azar m1)) as [t g].
      apply ocupacion_request. exact H1.
    + unfold cliente_colas_separadas.
      destruct (generar_tipo_transaccion (azar m1)) as [t g].
      destruct (min_por_cola _) as [k0 |].
      * apply ocupacion_request. exact H1.
      * unfold ocupacion, proceso_falla. rewrite atienden_schedule. exact H1.
  - injection Hs as <-. unfold ocupacion, cliente_servicio.
    destruct (generar_tiempo_servicio _ _) as [[s g] |].
    + unfold timeout, proceso_falla. destruct (Qle_bool 0 s).
      * rewrite atienden_schedule. cbn [cajeros schedule con_azar anotar cola w_atencion].
        exact H1.
      * rewrite atienden_schedule.
        change (cajeros (schedule ProcesoFallo NORMAL 0
                           (release k' (nombre p) (con_azar g (anotar (now m1 - llegada p) m1)))))
          with (cajeros (release k' (nombre p) (con_azar g (anotar (now m1 - llegada p) m1)))).
        rewrite usan_release, atienden_release.
        cbn [cajeros con_azar anotar cola w_atencion]. lia.
    + unfold proceso_falla. rewrite atienden_schedule.
      change (cajeros (schedule ProcesoFallo NORMAL 0
                         (release k' (nombre p) (anotar (now m1 - llegada p) m1))))
        with (cajeros (release k' (nombre p) (anotar (now m1 - llegada p) m1))).
      rewrite usan_release, atienden_release.
      cbn [cajeros anotar cola w_atencion]. lia.
  - injection Hs as <-. unfold ocupacion, cliente_salida, proceso_termina.
    rewrite atienden_schedule.
    change (cajeros (schedule ProcesoFin NORMAL 0 (release k' n' m1)))
      with (cajeros (release k' n' m1)).
    rewrite usan_release, atienden_release. cbn [w_atencion]. lia.
  - injection Hs as <-. apply ocupacion_trigger_put. exact H1.
  - injection Hs as <-. exact H1.
Qed.

End Ocupacion.

Lemma alcanzable_ocupacion (A : Azar) (modo : string) (g : estado A)
      (m : Mundo A) (k n : nat) :
  alcanzable modo g m -> ocupacion k n m.
Proof.
  induction 1 as [| m m' _ IH Hs].
  - unfold ocupacion, arranque, preparar, process, schedule. cbn [cola cajeros].
    rewrite !suma_cola_heappush. cbn [evento w_atencion suma_cola map list_sum].
    unfold users_de.
    destruct (nth_error (construir_cajeros modo) k) as [r |] eqn:Hk; [| reflexivity].
    apply nth_error_In in Hk. unfold construir_cajeros in Hk.
    destruct (modo =? "cola_unica")%string.
    + destruct Hk as [<- | []]. reflexivity.
    + apply repeat_spec in Hk. subst r. reflexivity.
  - eapply ocupacion_step; eassumption.
Qed.

Lemma suma_cola_positiva (w : Evento -> nat) (q : list Entrada) :
  (0 < suma_cola w q)%nat <-> exists e, In e q /\ (0 < w (evento e))%nat.
Proof.
  unfold suma_cola. induction q as [| x q IH]; simpl.
  - split; [lia | intros [e [[] _]]].
  - split.
    + intros H. destruct (Nat.eq_dec (w (evento x)) 0) as [Hz | Hz].
      * assert (Hq : (0 < list_sum (map (fun e => w (evento e)) q))%nat) by lia.
        apply IH in Hq. destruct Hq as [e [Hin He]]. exists e. auto.
      * exists x. split; [left; reflexivity | lia].
    + intros [e [[<- | Hin] He]]; [lia |].
      assert (Hq : (0 < list_sum (map (fun e => w (evento e)) q))%nat).
      { apply IH. exists e. auto. }
      lia.
Qed.

Lemma w_atencion_evento_de (k n : nat) (ev : Evento) :
  (0 < w_atencion k n ev)%nat <-> evento_de ev n k.
Proof.
  unfold evento_de. destruct ev; simpl;
    try (split; [lia | intros [H | [p [H _]]]; discriminate]).
  - destruct (Nat.eqb_spec k0 k) as [Hk | Hk];
      destruct (Nat.eqb_spec (nombre p) n) as [Hn | Hn]; simpl; split;
        try lia;
        try (intros [H | [q [H Hq]]]; [discriminate | congruence]).
    intros _. right. exists p. split; [congruence | exact Hn].
  - destruct (Nat.eqb_spec k0 k) as [Hk | Hk];
      destruct (Nat.eqb_spec n0 n) as [Hn | Hn]; simpl; split;
        try lia;
        try (intros [H | [q [H _]]]; [congruence | discriminate]).
    intros _. left. congruence.
Qed.

(** X16.  A customer holds a slot of a teller exactly while its grant waits to
    be processed or its service is in progress there: every held slot
    belongs to a customer who is being attended, and the slot is given
    back when the service ends (or fails), so no slot is leaked and none
    is freed twice. *)
Theorem quien_ocupa_un_cajero (A : Azar) (modo : string) (g : estado A)
        (m : Mundo A) (k : nat) (r : Resource) (n : nat) :
  alcanzable modo g m -> nth_error (cajeros m) k = Some r ->
  (In n (users r) <-> en_evento (cola m) n k) /\
  count_occ Nat.eq_dec (users r) n = suma_cola (w_atencion k n) (cola m).
Proof.
  intros Halc Hk.
  pose proof (alcanzable_ocupacion A modo g m k n Halc) as H.
  unfold ocupacion in H. rewrite (users_de_nth_error k _ r Hk) in H.
  split; [| exact H].
  rewrite (count_occ_In Nat.eq_dec), H.
  unfold gt. rewrite suma_cola_positiva. unfold en_evento.
  split; intros [e [Hin He]]; exists e; (split; [exact Hin |]);
    apply w_atencion_evento_de; exact He.
Qed.

Lemma quien_ocupa_un_cajero_ej :
  exists r,
    @alcanzable AzarRegular "colas_separadas" cinta_a espera_en_cajero_0 /\
    nth_error (cajeros espera_en_cajero_0) 0 = Some r /\
    users r = [1%nat] /\
    (In 1%nat (users r) <-> en_evento (cola espera_en_cajero_0) 1 0) /\
    suma_cola (w_atencion 0 1) (cola espera_en_cajero_0) = 1%nat.
Proof.
  eexists.
  assert (Hk : nth_error (cajeros espera_en_cajero_0) 0 =
               Some (mkResource 1 [1%nat] [mkPeticion 2 105 0]))
    by (vm_compute; reflexivity).
  split; [exact espera_en_cajero_0_alcanzable |].
  split; [exact Hk |]. split; [reflexivity |].
  destruct (quien_ocupa_un_cajero AzarRegular "colas_separadas" cinta_a
              espera_en_cajero_0 0 _ 1 espera_en_cajero_0_alcanzable Hk)
    as [H1 H2].
  split; [exact H1 |]. rewrite <- H2. reflexivity.
Defined.
